(** * kubebox: the streaming HTTP / WebSocket client

    A shallow embedding of [src/libs/http-then.js] (and of the copy of
    [getBody] / [getStream] that lives in [src/kubik.js]) together with the
    properties of its frame codec, its reassembly layer and its request
    drivers.

    Layout:
    - [Js]          the few JavaScript values the client manipulates;
    - [FrameCodec]  [decodeFrame], RFC 6455 header bits and XOR unmasking;
    - [Generators]  generator objects ([next] / [throw] / [return]);
    - [Reassembly]  the [decode] generator wrapped around a consumer;
    - [Buffered]    [getBody];
    - [Streaming]   [getStream] and its cancellation handle. *)

From Stdlib Require Import ZArith List String Bool Lia Arith.
Import ListNotations.
Open Scope string_scope.
Open Scope list_scope.

(* ------------------------------------------------------------------ *)
(** ** JavaScript values *)

Module Js.

(** A Node [Buffer]: a sequence of octets, each kept as a [Z] in [0, 256). *)
Definition Buffer := list Z.

Definition is_byte (b : Z) : Prop := (0 <= b < 256)%Z.

Definition wf_buffer (b : Buffer) : Prop := Forall is_byte b.

(** The response object handed to the handlers: the part that is fixed once
    the headers have arrived.  Its mutable [body] property lives in the state
    of the driver that owns the response. *)
Record Response := mkResponse {
  statusCode : Z;
  headers : list (string * string)
}.

(** The values a consumer generator yields or returns. *)
Inductive jsval :=
| VUndefined
| VString (s : string)
| VBuffer (b : Buffer)
| VNumber (n : Z).

(** The errors that travel through the client. *)
Inductive jserr :=
| RequestFailed (path : string) (response : Response)
    (* new Error(`Failed to get resource ...`) with error.response set *)
| UpgradeFailed (path : string) (response : Response)
    (* new Error(`Failed to upgrade resource ...`) with error.response set *)
| RequestAborted
    (* new Error('Request aborted') *)
| TransportError (msg : string)
    (* an error raised by the HTTP client itself, e.g. 'socket hang up' *)
| RangeError (msg : string)
| TypeError (msg : string)
| ConsumerError (msg : string).
    (* anything a consumer generator throws on its own *)

(** [error.response], when the error carries one. *)
Definition error_response (e : jserr) : option Response :=
  match e with
  | RequestFailed _ r | UpgradeFailed _ r => Some r
  | _ => None
  end.

End Js.

Import Js.

(* ------------------------------------------------------------------ *)
(** ** The frame codec: [decodeFrame] *)

Module FrameCodec.

Open Scope Z_scope.

(** [frame[i]]: reading past the end of a buffer gives [undefined], which the
    bitwise operators coerce to [0]. *)
Definition at_index (frame : Buffer) (i : nat) : Z := nth i frame 0.

(** [buf.readUInt16BE(offset)]: big-endian, raises a [RangeError] when the two
    octets are not inside the buffer. *)
Definition readUInt16BE (buf : Buffer) (offset : nat) : jserr + Z :=
  if (offset + 2 <=? List.length buf)%nat
  then inr (Z.lor (Z.shiftl (at_index buf offset) 8) (at_index buf (offset + 1)))
  else inl (RangeError "Index out of range").

(** [buf.readUInt64BE(offset)]: Node's [Buffer] has no such method, so the
    call is a call of [undefined]. *)
Definition readUInt64BE (buf : Buffer) (offset : nat) : jserr + Z :=
  inl (TypeError "frame.readUInt64BE is not a function").

(** [buf.slice(start, end)] and [buf.slice(start)], both clamped to the
    buffer. *)
Definition slice (buf : Buffer) (start stop : nat) : Buffer :=
  firstn (stop - start) (skipn start buf).

Definition slice_from (buf : Buffer) (start : nat) : Buffer :=
  skipn start buf.

(** Storing into a [Uint8Array] keeps the low eight bits. *)
Definition to_uint8 (z : Z) : Z := z mod 256.

(** The unmasking loop
    [for (i = 0; i < payload.length; i++) payload[i] = payload[i] ^ maskingKey[i % 4]],
    started at index [i]. *)
Fixpoint xor_mask_from (i : nat) (maskingKey payload : Buffer) : Buffer :=
  match payload with
  | [] => []
  | b :: rest =>
      to_uint8 (Z.lxor b (at_index maskingKey (i mod 4)))
        :: xor_mask_from (S i) maskingKey rest
  end.

Definition xor_mask (maskingKey payload : Buffer) : Buffer :=
  xor_mask_from 0 maskingKey payload.

(** What [decodeFrame] returns: [{opcode}] on connection close, and
    [{FIN, opcode, length, payload}] otherwise. *)
Inductive Frame :=
| CloseFrame (opcode : Z)
| DataFrame (FIN opcode length : Z) (payload : Buffer).

Definition frame_opcode (f : Frame) : Z :=
  match f with
  | CloseFrame op => op
  | DataFrame _ op _ _ => op
  end.

(** [frame.length]; [None] stands for [undefined]. *)
Definition frame_length (f : Frame) : option Z :=
  match f with
  | CloseFrame _ => None
  | DataFrame _ _ len _ => Some len
  end.

Definition frame_payload (f : Frame) : option Buffer :=
  match f with
  | CloseFrame _ => None
  | DataFrame _ _ _ p => Some p
  end.

(** The extended-length step of [decodeFrame]: the declared length and the
    index of the first octet after the length field. *)
Definition decode_length (frame : Buffer) (code : Z) : jserr + (Z * nat) :=
  let nextByte := 2%nat in
  if code =? 126 then
    match readUInt16BE frame nextByte with
    | inl e => inl e
    | inr len => inr (len, (nextByte + 2)%nat)
    end
  else if code =? 127 then
    match readUInt64BE frame nextByte with
    | inl e => inl e
    | inr len => inr (len, (nextByte + 8)%nat)
    end
  else inr (code, nextByte).

Definition decodeFrame (frame : Buffer) : jserr + Frame :=
  let FIN := Z.land (at_index frame 0) 0x80 in
  let opcode := Z.land (at_index frame 0) 0x0F in
  let mask := Z.land (at_index frame 1) 0x80 in
  let length := Z.land (at_index frame 1) 0x7F in
  (* just return the opcode on connection close *)
  if opcode =? 0x8 then inr (CloseFrame opcode)
  else
    match decode_length frame length with
    | inl e => inl e
    | inr (length, nextByte) =>
        if mask =? 0 then
          inr (DataFrame FIN opcode length (slice_from frame nextByte))
        else
          let maskingKey := slice frame nextByte (nextByte + 4) in
          let payload := slice_from frame (nextByte + 4) in
          inr (DataFrame FIN opcode length (xor_mask maskingKey payload))
    end.

(** The declared payload length of a decoded header, when there is one. *)
Definition declared_length (r : jserr + Frame) : option Z :=
  match r with
  | inl _ => None
  | inr f => frame_length f
  end.

(** The fields of a header read off the raw octets. *)
Definition header_opcode (frame : Buffer) : Z := Z.land (at_index frame 0) 0x0F.
Definition length_code (frame : Buffer) : Z := Z.land (at_index frame 1) 0x7F.

(** The big-endian 16-bit encoding of [L]. *)
Definition be16 (L : Z) : Buffer := [L / 256; L mod 256].

End FrameCodec.

(* ------------------------------------------------------------------ *)
(** ** Generator objects *)

Module Generators.

(** What a caller can do to a generator object. *)
Inductive signal :=
| Next (x : option Buffer)   (* gen.next(x); [None] is gen.next() *)
| Throw (e : jserr)          (* gen.throw(e) *)
| Return.                    (* gen.return() *)

(** What running the body up to its next stop produces. *)
Inductive outcome (S : Type) :=
| Yielded (v : jsval) (s : S)   (* suspended at a yield *)
| Returned (v : jsval)          (* the body returned *)
| Thrown (e : jserr).           (* an exception left the body *)

Arguments Yielded {S} v s.
Arguments Returned {S} v.
Arguments Thrown {S} e.

(** A generator function, as the state machine of its body: [gstart] runs the
    body from its entry to the first stop (the argument of the first
    [next()] is dropped by JavaScript), [gresume] runs it from a [yield] with
    the signal that is delivered there. *)
Record Generator := mkGenerator {
  gstate : Type;
  gstart : outcome gstate;
  gresume : gstate -> signal -> outcome gstate
}.

Inductive status (S : Type) :=
| SuspendedStart
| SuspendedYield (s : S)
| Completed.

Arguments SuspendedStart {S}.
Arguments SuspendedYield {S} s.
Arguments Completed {S}.

(** A generator object.  [calls] and [received] are ghost fields: every call
    made on the object, and the calls that actually ran the body, both oldest
    first. *)
Record genobj (G : Generator) := mkGen {
  gstatus : status (gstate G);
  calls : list signal;
  received : list signal
}.

Arguments mkGen {G} gstatus calls received.
Arguments gstatus {G} g.
Arguments calls {G} g.
Arguments received {G} g.

(** [{value, done}] *)
Record IterResult := mkIter {
  value : jsval;
  done : bool
}.

(** [generator()] *)
Definition create (G : Generator) : genobj G := mkGen SuspendedStart [] [].

Definition settle {S : Type} (o : outcome S) : status S * (jserr + IterResult) :=
  match o with
  | Yielded v s => (SuspendedYield s, inr (mkIter v false))
  | Returned v => (Completed, inr (mkIter v true))
  | Thrown e => (Completed, inl e)
  end.

(** One call on a generator object: the new object, and either the exception
    the call raises or the iterator result it returns. *)
Definition call {G : Generator} (g : genobj G) (sig : signal)
  : genobj G * (jserr + IterResult) :=
  match gstatus g with
  | SuspendedYield s =>
      let (st, r) := settle (gresume G s sig) in
      (mkGen st (calls g ++ [sig]) (received g ++ [sig]), r)
  | SuspendedStart =>
      match sig with
      | Next _ =>
          let (st, r) := settle (gstart G) in
          (mkGen st (calls g ++ [sig]) (received g ++ [sig]), r)
      | Throw e => (mkGen Completed (calls g ++ [sig]) (received g), inl e)
      | Return =>
          (mkGen Completed (calls g ++ [sig]) (received g),
           inr (mkIter VUndefined true))
      end
  | Completed =>
      (mkGen Completed (calls g ++ [sig]) (received g),
       match sig with
       | Next _ | Return => inr (mkIter VUndefined true)
       | Throw e => inl e
       end)
  end.

Definition gen_next {G : Generator} (g : genobj G) (x : option Buffer) :=
  call g (Next x).

Definition gen_throw {G : Generator} (g : genobj G) (e : jserr) :=
  call g (Throw e).

Definition gen_return {G : Generator} (g : genobj G) :=
  call g Return.

(** A generator primed and then resumed with each chunk of a list in turn,
    whatever the calls return. *)
Definition feed {G : Generator} (g : genobj G) (chunks : list Buffer) : genobj G :=
  fold_left (fun g c => fst (gen_next g (Some c))) chunks g.

Definition primed (G : Generator) : genobj G := fst (gen_next (create G) None).

(** The setup code of the generator reaches a stop without raising. *)
Definition primes (G : Generator) : bool :=
  match gstart G with
  | Thrown _ => false
  | _ => true
  end.

End Generators.

Import Generators.

(* ------------------------------------------------------------------ *)
(** ** The reassembly layer: [function* decode(gen)] *)

Module Reassembly.

Import FrameCodec.

(** [Buffer.alloc(n)] *)
Definition alloc (n : nat) : Buffer := repeat 0%Z n.

(** [src.copy(target, targetStart)]: as many octets of [src] as fit in
    [target] from [targetStart]; the updated target and the number of octets
    copied. *)
Definition copy (src target : Buffer) (targetStart : nat) : Buffer * nat :=
  let n := Nat.min (List.length src) (List.length target - targetStart) in
  (firstn targetStart target ++ firstn n src ++ skipn (targetStart + n) target, n).

(** The locals of [decode] that outlive one turn of its loop,
    [let frame, payload, offset].  [payload] and [offset] start out
    [undefined]; they are read only while [frame] is set, after having been
    assigned, so the empty buffer and [0] stand for [undefined]. *)
Record Locals := mkLocals {
  frame : option Frame;
  payload : Buffer;
  offset : nat
}.

Definition fresh_locals : Locals := mkLocals None [] 0.

(** The state of a [decode] generator: its locals and the consumer [gen] it
    closes over. *)
Record DState (K : Generator) := mkDState {
  locals : Locals;
  inner : genobj K
}.

Arguments mkDState {K} locals inner.
Arguments locals {K} d.
Arguments inner {K} d.

(** How one resume of the body ends. *)
Inductive ending :=
| Suspend              (* back at [data = yield] *)
| Finish (v : jsval)   (* return v *)
| Fail (e : jserr).    (* an exception leaves the generator *)

(** What the [try] block does with the result of [gen.next(payload)]:
    [if (res.done) return res.value], or the exception passes through. *)
Definition ending_of (r : jserr + IterResult) : ending :=
  match r with
  | inl e => Fail e
  | inr res => if done res then Finish (value res) else Suspend
  end.

(** [return gen.next().value], reached when the loop is left. *)
Definition leave {K : Generator} (d : DState K) : DState K * ending :=
  let (g, r) := gen_next (inner d) None in
  let d' := mkDState (locals d) g in
  match r with
  | inl e => (d', Fail e)
  | inr res => (d', Finish (value res))
  end.

(** [if (offset === frame.length) { try { ... gen.next(payload) ... } finally
    { frame = undefined } }] *)
Definition complete {K : Generator} (d : DState K) : DState K * ending :=
  let l := locals d in
  match frame l with
  | Some (DataFrame _ _ len _) =>
      if (Z.of_nat (offset l) =? len)%Z then
        let (g, r) := gen_next (inner d) (Some (payload l)) in
        (mkDState (mkLocals None (payload l) (offset l)) g, ending_of r)
      else (d, Suspend)
  | _ => (d, Suspend)
  end.

(** One turn of [while (data = yield) { ... }] with a data block. *)
Definition on_block {K : Generator} (d : DState K) (data : Buffer)
  : DState K * ending :=
  let l := locals d in
  match frame l with
  | None =>
      match decodeFrame data with
      | inl e => (d, Fail e)
      | inr (CloseFrame op as f) =>
          let d1 := mkDState (mkLocals (Some f) (payload l) (offset l)) (inner d) in
          (* handle connection close in the 'end' event handler *)
          if (op =? 0x8)%Z then leave d1
          else (d1, Fail (TypeError "Cannot read property 'length' of undefined"))
      | inr (DataFrame _ op len p as f) =>
          let d1 := mkDState (mkLocals (Some f) (payload l) (offset l)) (inner d) in
          if (op =? 0x8)%Z then leave d1
          else if (Z.of_nat (List.length p) =? len)%Z then
            complete (mkDState (mkLocals (Some f) p (List.length p)) (inner d))
          else
            let (target, n) := copy p (alloc (Z.to_nat len)) 0 in
            complete (mkDState (mkLocals (Some f) target n) (inner d))
      end
  | Some f =>
      let (target, n) := copy data (payload l) (offset l) in
      complete (mkDState (mkLocals (Some f) target (offset l + n)) (inner d))
  end.

(** One resume of a suspended [decode] generator, keeping the state the body
    leaves behind even when the generator completes. *)
Definition resume_full {K : Generator} (d : DState K) (sig : signal)
  : DState K * ending :=
  match sig with
  | Next (Some data) => on_block d data   (* a Buffer is truthy, even empty *)
  | Next None => leave d
  | Throw e => (d, Fail e)
  | Return => (d, Finish VUndefined)
  end.

Definition to_outcome {K : Generator} (r : DState K * ending) : outcome (DState K) :=
  match r with
  | (d, Suspend) => Yielded VUndefined d
  | (_, Finish v) => Returned v
  | (_, Fail e) => Thrown e
  end.

(** [decode(gen)] as a generator: its body first primes [gen] with
    [gen.next()] and stops at [data = yield]. *)
Definition decode (K : Generator) (gen : genobj K) : Generator :=
  mkGenerator (DState K)
    (let (g, r) := gen_next gen None in
     match r with
     | inl e => Thrown e
     | inr _ => Yielded VUndefined (mkDState fresh_locals g)
     end)
    (fun d sig => to_outcome (resume_full d sig)).

(** The data blocks of one frame fed to the reassembly loop in turn, stopping
    at the first block on which the generator does not suspend again. *)
Fixpoint feed_blocks {K : Generator} (d : DState K) (blocks : list Buffer)
  : DState K * ending :=
  match blocks with
  | [] => (d, Suspend)
  | b :: rest =>
      match on_block d b with
      | (d', Suspend) => feed_blocks d' rest
      | stop => stop
      end
  end.

(** The payload of a frame whose first block carries the octets [p] after
    the header arrives over the further blocks [rest]: the last block (the
    first one when [rest] is empty) is the first to bring the number of
    payload octets up to the declared length. *)
Definition arrives_over (len : Z) (p : Buffer) (rest : list Buffer) : Prop :=
  (rest = []
   \/ (Z.of_nat (List.length (p ++ List.concat (removelast rest))) < len)%Z)
  /\ (len <= Z.of_nat (List.length (p ++ List.concat rest)))%Z.

(** The state in the middle of a frame: [acc] has been copied into the
    allocated payload buffer of [n] octets. *)
Definition mid {K : Generator} (f : Frame) (n : nat) (acc : Buffer) (g : genobj K) : DState K :=
  mkDState
    (mkLocals (Some f) (acc ++ repeat 0%Z (n - List.length acc)) (List.length acc))
    g.

(** The state and ending once the payload [pl] has been handed to the
    consumer. *)
Definition handed {K : Generator} (n : nat) (pl : Buffer) (g : genobj K) : DState K * ending :=
  (mkDState (mkLocals None pl n) (fst (gen_next g (Some pl))),
   ending_of (snd (gen_next g (Some pl)))).

End Reassembly.

(* ------------------------------------------------------------------ *)
(** ** Promises *)

Module Promises.

(** The promise returned by [get]: it is only ever resolved with the response
    object and rejected with an error. *)
Inductive Promise :=
| Pending
| Resolved (response : Response)
| Rejected (reason : jserr).

(** [resolve(response)] and [reject(error)]: the first call settles the
    promise, later calls are ignored. *)
Definition resolve_with (r : Response) (p : Promise) : Promise :=
  match p with
  | Pending => Resolved r
  | _ => p
  end.

Definition reject_with (e : jserr) (p : Promise) : Promise :=
  match p with
  | Pending => Rejected e
  | _ => p
  end.

Definition settled (p : Promise) : bool :=
  match p with
  | Pending => false
  | _ => true
  end.

Definition Promise_eq_dec (p q : Promise) : {p = q} + {p <> q}.
Proof. repeat decide equality. Defined.

(** The number of times the promise changes state along a sequence of
    observations that starts at [p]. *)
Fixpoint changes (p : Promise) (history : list Promise) : nat :=
  match history with
  | [] => 0
  | q :: rest =>
      if Promise_eq_dec p q then changes q rest else S (changes q rest)
  end.

(** The status code of the response attached to the error a promise was
    rejected with. *)
Definition rejection_status (p : Promise) : option Z :=
  match p with
  | Rejected e => option_map statusCode (error_response e)
  | _ => None
  end.

End Promises.

Import Promises.

(* ------------------------------------------------------------------ *)
(** ** Buffered requests: [getBody] *)

Module Buffered.

(** The events of the HTTP client that [getBody] listens to. *)
Inductive Event :=
| EvResponse (r : Response)   (* the callback of client.get *)
| EvData (chunk : Buffer)     (* response 'data' *)
| EvEnd                       (* response 'end' *)
| EvError (e : jserr).        (* request 'error' *)

Record State := mkState {
  promise : Promise;
  response : option Response;       (* the response that passed the gate *)
  chunks : option (list Buffer);    (* [const body = []], with its handlers *)
  response_body : option Buffer;    (* response.body *)
  destroyed : option jserr;         (* response.destroy(error) was called *)
  pending : list Event              (* events the transport still has to emit *)
}.

(** The state right after [client.get(options, ...)] was issued. *)
Definition init : State := mkState Pending None None None None [].

(** Modelled from the spec: the transport layer is an external collaborator
    (Node's HTTP client); destroying a response with an error terminates the
    transport and surfaces that error as the request's 'error' event. *)
Definition destroy (e : jserr) (s : State) : State :=
  mkState (promise s) (response s) (chunks s) (response_body s) (Some e)
          (pending s ++ [EvError e]).

Definition on_response (path : string) (r : Response) (s : State) : State :=
  if (statusCode r >=? 400)%Z then destroy (RequestFailed path r) s
  else mkState (promise s) (Some r) (Some []) (response_body s) (destroyed s)
               (pending s).

Definition on_data (chunk : Buffer) (s : State) : State :=
  match chunks s with
  | Some body =>
      mkState (promise s) (response s) (Some (body ++ [chunk]))
              (response_body s) (destroyed s) (pending s)
  | None => s
  end.

Definition on_end (s : State) : State :=
  match chunks s, response s with
  | Some body, Some r =>
      mkState (resolve_with r (promise s)) (response s) (chunks s)
              (Some (List.concat body)) (destroyed s) (pending s)
  | _, _ => s
  end.

Definition on_error (e : jserr) (s : State) : State :=
  mkState (reject_with e (promise s)) (response s) (chunks s)
          (response_body s) (destroyed s) (pending s).

Definition handle (path : string) (ev : Event) (s : State) : State :=
  match ev with
  | EvResponse r => on_response path r s
  | EvData chunk => on_data chunk s
  | EvEnd => on_end s
  | EvError e => on_error e s
  end.

(** The events the transport owes are emitted before anything else happens. *)
Definition flush (path : string) (s : State) : State :=
  fold_left (fun a ev => handle path ev a) (pending s)
    (mkState (promise s) (response s) (chunks s) (response_body s)
             (destroyed s) []).

Definition deliver (path : string) (ev : Event) (s : State) : State :=
  flush path (handle path ev s).

Definition run (path : string) (evs : list Event) (s : State) : State :=
  fold_left (fun a ev => deliver path ev a) evs s.

(** The events that follow the response headers. *)
Definition after_headers (ev : Event) : bool :=
  match ev with
  | EvResponse _ => false
  | _ => true
  end.

(** A request that failed the status gate: rejected, with no [body] array
    and no handler on the response. *)
Definition gated (e : jserr) (s : State) : Prop :=
  promise s = Rejected e /\ chunks s = None /\ response_body s = None
  /\ pending s = [].

End Buffered.

(* ------------------------------------------------------------------ *)
(** ** Streaming requests: [getStream] *)

Module Streaming.

Import Reassembly.

(** The two copies of [getStream]: [src/libs/http-then.js] and the older one
    in [src/kubik.js], which has no 'upgrade' handler and rejects on every
    request error. *)
Inductive Source := HttpThen | Kubik.

Record Request := mkRequest {
  source : Source;
  path : string;    (* options.path *)
  async : bool      (* third argument of [get]; [true] unless given *)
}.

(** The events of the HTTP client that [getStream] listens to. *)
Inductive Event :=
| EvResponse (r : Response)       (* request 'response' *)
| EvUpgrade (r : Response)        (* request 'upgrade' *)
| EvError (e : jserr)             (* request 'error' *)
| EvAbort                         (* request 'abort' *)
| EvAborted                       (* response 'aborted' *)
| EvData (chunk : Buffer)         (* response 'data' *)
| EvEnd                           (* response 'end' *)
| EvSocketData (block : Buffer)   (* socket 'data' *)
| EvSocketEnd.                    (* socket 'end' *)

(** What happens to a request from outside: the transport emits an event, or
    the caller invokes the cancellation handle. *)
Inductive Action :=
| Emit (ev : Event)
| Cancel.

(** Modelled from the spec: the transport layer is an external collaborator
    (Node's HTTP client).  It remembers that it was told to abort the request,
    destroy the response or end the socket, and the events it owes as a
    consequence. *)
Record Transport := mkTransport {
  req_aborted : bool;     (* request.abort() was called *)
  res_destroyed : bool;   (* response.destroy(...) was called *)
  socket_ended : bool;    (* socket.end() was called *)
  pending : list Event    (* events still to be emitted *)
}.

(** The generator of the 'upgrade' handler: [decode(generator())]. *)
Definition ws_decoder (K : Generator) : Generator := decode K (create K).

(** The variables of one [getStream] call.  [gen] and [wsgen] are set once
    the handlers that close over them are registered. *)
Record State (K : Generator) := mkState {
  clientAbort : bool;
  serverAbort : bool;
  promise : Promise;
  response : option Response;
  body : option jsval;                      (* response.body *)
  gen : option (genobj K);                  (* 'response' handler *)
  wsgen : option (genobj (ws_decoder K));   (* 'upgrade' handler *)
  transport : Transport;
  uncaught : list jserr                     (* exceptions that left a handler *)
}.

Arguments mkState {K}.
Arguments clientAbort {K} s.
Arguments serverAbort {K} s.
Arguments promise {K} s.
Arguments response {K} s.
Arguments body {K} s.
Arguments gen {K} s.
Arguments wsgen {K} s.
Arguments transport {K} s.
Arguments uncaught {K} s.

Section Driver.

Context {K : Generator}.

(** The state once the executor of [new Promise(...)] has run. *)
Definition init : State K :=
  mkState false false Pending None None None None
          (mkTransport false false false []) [].

Definition set_clientAbort (b : bool) (s : State K) : State K :=
  mkState b (serverAbort s) (promise s) (response s) (body s) (gen s)
          (wsgen s) (transport s) (uncaught s).

Definition set_serverAbort (b : bool) (s : State K) : State K :=
  mkState (clientAbort s) b (promise s) (response s) (body s) (gen s)
          (wsgen s) (transport s) (uncaught s).

Definition set_promise (p : Promise) (s : State K) : State K :=
  mkState (clientAbort s) (serverAbort s) p (response s) (body s) (gen s)
          (wsgen s) (transport s) (uncaught s).

Definition set_response (r : option Response) (s : State K) : State K :=
  mkState (clientAbort s) (serverAbort s) (promise s) r (body s) (gen s)
          (wsgen s) (transport s) (uncaught s).

Definition set_body (v : option jsval) (s : State K) : State K :=
  mkState (clientAbort s) (serverAbort s) (promise s) (response s) v (gen s)
          (wsgen s) (transport s) (uncaught s).

Definition set_gen (g : option (genobj K)) (s : State K) : State K :=
  mkState (clientAbort s) (serverAbort s) (promise s) (response s) (body s) g
          (wsgen s) (transport s) (uncaught s).

Definition set_wsgen (g : option (genobj (ws_decoder K))) (s : State K) : State K :=
  mkState (clientAbort s) (serverAbort s) (promise s) (response s) (body s)
          (gen s) g (transport s) (uncaught s).

Definition set_transport (t : Transport) (s : State K) : State K :=
  mkState (clientAbort s) (serverAbort s) (promise s) (response s) (body s)
          (gen s) (wsgen s) t (uncaught s).

(** An exception leaves the running handler. *)
Definition raise (e : jserr) (s : State K) : State K :=
  mkState (clientAbort s) (serverAbort s) (promise s) (response s) (body s)
          (gen s) (wsgen s) (transport s) (uncaught s ++ [e]).

Definition resolve (r : Response) (s : State K) : State K :=
  set_promise (resolve_with r (promise s)) s.

Definition reject (e : jserr) (s : State K) : State K :=
  set_promise (reject_with e (promise s)) s.

(** Modelled from the spec: [response.destroy(error)] on a plain response
    terminates the transport; when an error is given the transport surfaces it
    as the request's 'error' event. *)
Definition destroy_response (e : option jserr) (s : State K) : State K :=
  let t := transport s in
  set_transport
    (mkTransport (req_aborted t) true (socket_ended t)
       (match e with
        | Some err => pending t ++ [EvError err]
        | None => pending t
        end)) s.

(** Modelled from Node's HTTP client: [response.destroy(error)] in the
    'upgrade' handler.  Before it emits 'upgrade' the request lets go of the
    socket (it removes its own 'error' and 'close' listeners from it), so the
    error of the destroyed socket is emitted on the socket, where [getStream]
    has no listener, and does not come back as the request's 'error'. *)
Definition destroy_upgraded (e : jserr) (s : State K) : State K :=
  let t := transport s in
  set_transport
    (mkTransport (req_aborted t) true (socket_ended t) (pending t)) s.

(** Modelled from the spec: [request.abort()] hard-aborts the transport; the
    first call makes the request emit 'abort', later calls do nothing. *)
Definition request_abort (s : State K) : State K :=
  let t := transport s in
  if req_aborted t then s
  else set_transport
         (mkTransport true (res_destroyed t) (socket_ended t)
            (pending t ++ [EvAbort])) s.

(** Modelled from the spec: [socket.end()] half-closes the upgraded socket. *)
Definition socket_end (s : State K) : State K :=
  let t := transport s in
  set_transport
    (mkTransport (req_aborted t) (res_destroyed t) true (pending t)) s.

(** [response.body = res.value; resolve(response)] *)
Definition resolve_body (r : Response) (v : jsval) (s : State K) : State K :=
  resolve r (set_body (Some v) s).

(** The 'response' handler. *)
Definition on_response (rq : Request) (r : Response) (s : State K) : State K :=
  if (statusCode r >=? 400)%Z then
    destroy_response (Some (RequestFailed (path rq) r)) s
  else
    let (g, res) := gen_next (create K) None in
    match res with
    | inl e => raise e s
    | inr _ =>
        let s1 := set_gen (Some g) (set_response (Some r) s) in
        if async rq then resolve r s1 else s1
    end.

(** [response.on('aborted', () => serverAbort = !clientAbort)] *)
Definition on_aborted (s : State K) : State K :=
  match gen s with
  | Some _ => set_serverAbort (negb (clientAbort s)) s
  | None => s
  end.

(** [response.on('data', chunk => ...)] *)
Definition on_data (chunk : Buffer) (s : State K) : State K :=
  match gen s, response s with
  | Some g, Some r =>
      let (g1, res) := gen_next g (Some chunk) in
      let s1 := set_gen (Some g1) s in
      match res with
      | inl e => raise e s1
      | inr it =>
          if done it then resolve_body r (value it) (destroy_response None s1)
          else s1
      end
  | _, _ => s
  end.

(** [gen.return()], the last statement of the 'end' handler. *)
Definition finalize (s : State K) : State K :=
  match gen s with
  | Some g =>
      let (g1, res) := gen_return g in
      let s1 := set_gen (Some g1) s in
      match res with
      | inl e => raise e s1
      | inr _ => s1
      end
  | None => s
  end.

(** [response.on('end', () => ...)] *)
Definition on_end (rq : Request) (s : State K) : State K :=
  match gen s, response s with
  | Some g, Some r =>
      if serverAbort s || (clientAbort s && negb (async rq)) then
        let (g1, res) := gen_throw g RequestAborted in
        let s1 := set_gen (Some g1) s in
        finalize
          match res with
          | inr it =>
              if negb (async rq) && negb (done it)
              then resolve_body r (value it) s1
              else s1
          | inl e => if negb (async rq) then reject e s1 else s1
          end
      else if negb (clientAbort s && async rq) then
        let (g1, res) := gen_next g None in
        let s1 := set_gen (Some g1) s in
        match res with
        | inl e => raise e s1
        | inr it =>
            finalize
              (if negb (async rq) && negb (done it)
               then resolve_body r (value it) s1
               else s1)
        end
      else finalize s
  | _, _ => s
  end.

(** The request 'error' handler. *)
Definition on_error (rq : Request) (e : jserr) (s : State K) : State K :=
  match source rq with
  | HttpThen => if clientAbort s then s else reject e s
  | Kubik => reject e s
  end.

(** [request.on('abort', () => clientAbort = true)] *)
Definition on_abort (s : State K) : State K := set_clientAbort true s.

(** The request 'upgrade' handler of [http-then.js]. *)
Definition on_upgrade (rq : Request) (r : Response) (s : State K) : State K :=
  match source rq with
  | Kubik => s
  | HttpThen =>
      if negb (statusCode r =? 101)%Z then
        destroy_upgraded (UpgradeFailed (path rq) r) s
      else
        let (g, res) := gen_next (create (ws_decoder K)) None in
        match res with
        | inl e => raise e s
        | inr _ =>
            let s1 := set_wsgen (Some g) (set_response (Some r) s) in
            if async rq then resolve r s1 else s1
        end
  end.

(** [socket.on('data', frame => ...)] *)
Definition on_socket_data (block : Buffer) (s : State K) : State K :=
  match wsgen s, response s with
  | Some g, Some r =>
      let (g1, res) := gen_next g (Some block) in
      let s1 := set_wsgen (Some g1) s in
      match res with
      | inl e => raise e s1
      | inr it =>
          if done it then resolve_body r (value it) (socket_end s1) else s1
      end
  | _, _ => s
  end.

Definition ws_finalize (s : State K) : State K :=
  match wsgen s with
  | Some g =>
      let (g1, res) := gen_return g in
      let s1 := set_wsgen (Some g1) s in
      match res with
      | inl e => raise e s1
      | inr _ => s1
      end
  | None => s
  end.

(** [socket.on('end', () => ...)] *)
Definition on_socket_end (rq : Request) (s : State K) : State K :=
  match wsgen s, response s with
  | Some g, Some r =>
      if negb (clientAbort s) then
        let (g1, res) := gen_next g None in
        let s1 := set_wsgen (Some g1) s in
        match res with
        | inl e => raise e s1
        | inr it =>
            ws_finalize
              (if negb (async rq) && negb (done it)
               then resolve_body r (value it) s1
               else s1)
        end
      else ws_finalize s
  | _, _ => s
  end.

Definition handle (rq : Request) (ev : Event) (s : State K) : State K :=
  match ev with
  | EvResponse r => on_response rq r s
  | EvUpgrade r => on_upgrade rq r s
  | EvError e => on_error rq e s
  | EvAbort => on_abort s
  | EvAborted => on_aborted s
  | EvData chunk => on_data chunk s
  | EvEnd => on_end rq s
  | EvSocketData block => on_socket_data block s
  | EvSocketEnd => on_socket_end rq s
  end.

(** [cancellation = () => request.abort()]; [kubik.js] first tests [request],
    which the executor of the promise has assigned by then. *)
Definition cancellation (s : State K) : State K := request_abort s.

(** The events the transport owes are emitted before anything else happens. *)
Definition flush (rq : Request) (s : State K) : State K :=
  let t := transport s in
  fold_left (fun a ev => handle rq ev a) (pending t)
    (set_transport
       (mkTransport (req_aborted t) (res_destroyed t) (socket_ended t) []) s).

Definition act (rq : Request) (a : Action) (s : State K) : State K :=
  flush rq
    match a with
    | Emit ev => handle rq ev s
    | Cancel => cancellation s
    end.

Definition run (rq : Request) (acts : list Action) (s : State K) : State K :=
  fold_left (fun a x => act rq x a) acts s.

(** The promise as seen after each action of a run. *)
Fixpoint history (rq : Request) (acts : list Action) (s : State K) : list Promise :=
  match acts with
  | [] => []
  | a :: rest => promise (act rq a s) :: history rq rest (act rq a s)
  end.

End Driver.

(** Nothing is owed by the transport. *)
Definition quiet {K : Generator} (s : State K) : Prop :=
  pending (transport s) = [].

(** The actions that can reach a streaming response between its headers and
    its 'end' event. *)
Definition mid_stream (a : Action) : bool :=
  match a with
  | Cancel
  | Emit (EvError _) | Emit EvAbort | Emit EvAborted | Emit (EvData _) => true
  | _ => false
  end.

(** The actions that do not start a new response. *)
Definition no_response (a : Action) : bool :=
  match a with
  | Emit (EvResponse _) => false
  | _ => true
  end.

(** The chunks carried by the 'data' events of a run, in order. *)
Fixpoint chunks_of (acts : list Action) : list Buffer :=
  match acts with
  | [] => []
  | Emit (EvData c) :: rest => c :: chunks_of rest
  | _ :: rest => chunks_of rest
  end.

(** The call that ends the stream for the consumer, chosen by the 'end'
    handler from the two abort flags. *)
Definition terminal (rq : Request) {K : Generator} (s : State K) : list signal :=
  if serverAbort s || (clientAbort s && negb (async rq)) then [Throw RequestAborted]
  else if negb (clientAbort s && async rq) then [Next None]
  else [].

(** The end-of-stream resume [gen.next()] of the consumer raises. *)
Definition end_raises {K : Generator} (g : genobj K) : bool :=
  match snd (gen_next g None) with
  | inl _ => true
  | inr _ => false
  end.

(** The order of calls the consumer protocol asks for: the priming call, the
    chunks, exactly one of end-of-stream or abort, and the disposal. *)
Fixpoint strict_tail (l : list signal) : bool :=
  match l with
  | Next (Some _) :: rest => strict_tail rest
  | [Next None; Return] => true
  | [Throw _; Return] => true
  | _ => false
  end.

Definition strict_order (l : list signal) : bool :=
  match l with
  | Next None :: rest => strict_tail rest
  | _ => false
  end.

End Streaming.

(* ------------------------------------------------------------------ *)
(** ** Some consumers *)

Module Consumers.

(** A consumer in the style of [updatePodTable]: [while (chunk = yield) ...],
    which returns [v] from inside the loop on its [n]-th chunk, lets an abort
    fault through, and returns [undefined] at the end of the stream. *)
Definition take (n : nat) (v : jsval) : Generator :=
  mkGenerator nat
    (Yielded VUndefined 0)
    (fun seen sig =>
       match sig with
       | Next (Some _) =>
           if (S seen =? n)%nat then Returned v else Yielded VUndefined (S seen)
       | Next None => Returned VUndefined
       | Throw e => Thrown e
       | Return => Returned VUndefined
       end).

(** A consumer that never returns from a chunk. *)
Definition sink : Generator := take 0 VUndefined.

(** A consumer in the style of [logger]: the loop sits in a [try], and the
    [catch] block ends the generator with the value [v]. *)
Definition recovering (v : jsval) : Generator :=
  mkGenerator unit
    (Yielded VUndefined tt)
    (fun _ sig =>
       match sig with
       | Next (Some _) => Yielded VUndefined tt
       | Next None => Returned VUndefined
       | Throw _ => Returned v
       | Return => Returned VUndefined
       end).

(** A consumer that throws when it is told that the stream has ended. *)
Definition failing_end : Generator :=
  mkGenerator unit
    (Yielded VUndefined tt)
    (fun _ sig =>
       match sig with
       | Next (Some _) => Yielded VUndefined tt
       | Next None => Thrown (ConsumerError "end failed")
       | Throw e => Thrown e
       | Return => Returned VUndefined
       end).

(** A consumer whose setup code throws before its first [yield]. *)
Definition broken_setup : Generator :=
  mkGenerator unit
    (Thrown (ConsumerError "setup failed"))
    (fun _ _ => Returned VUndefined).

End Consumers.

(* ------------------------------------------------------------------ *)
(** ** Readings of a decoded frame *)

Module FrameViews.

Import FrameCodec.

(** The payload of what [decodeFrame] returns, when it returns one. *)
Definition decoded_payload (r : jserr + Frame) : option Buffer :=
  match r with
  | inl _ => None
  | inr f => frame_payload f
  end.

(** The octets of an extended length field that can follow a length code:
    none below 126, two for 126. *)
Definition extension_fits (code : Z) (ext : Buffer) : Prop :=
  ((code < 126)%Z /\ ext = []) \/ (code = 126%Z /\ List.length ext = 2%nat).

End FrameViews.

(* ------------------------------------------------------------------ *)
(** ** Kinds of actions on a streaming request *)

Module StreamingViews.

Import Streaming.

(** The events of the response object. *)
Definition on_the_response (a : Action) : bool :=
  match a with
  | Emit (EvData _) | Emit EvAborted | Emit EvEnd => true
  | _ => false
  end.

(** The events of the upgraded socket. *)
Definition on_the_socket (a : Action) : bool :=
  match a with
  | Emit (EvSocketData _) | Emit EvSocketEnd => true
  | _ => false
  end.

(** The response 'aborted' event. *)
Definition is_aborted (a : Action) : bool :=
  match a with
  | Emit EvAborted => true
  | _ => false
  end.

(** What makes the request emit 'abort': the cancellation handle, or the
    event itself. *)
Definition is_cancel (a : Action) : bool :=
  match a with
  | Cancel | Emit EvAbort => true
  | _ => false
  end.

(** A request that was told to abort has seen its 'abort' event. *)
Definition abort_seen {K : Generator} (s : State K) : Prop :=
  req_aborted (transport s) = true -> clientAbort s = true.

End StreamingViews.

(* ------------------------------------------------------------------ *)
(** ** The pod table of [kubik.js]: [updatePodTable] *)

Module PodTable.

(** A pod object, as far as the dashboard reads it: [metadata.uid],
    [metadata.name], [status.phase] and [status.startTime]. *)
Record Pod := mkPod {
  uid : string;
  name : string;
  phase : string;
  startTime : string
}.

(** A watch event, [{type, object}]. *)
Record Change := mkChange {
  type : string;
  object : Pod
}.

(** [session.pods.items]: the array, and the property ["-1"] that an
    assignment at index [-1] creates next to its elements. *)
Record Items := mkItems {
  elements : list Pod;
  minus_one : option Pod
}.

(** [items.findIndex(f)]; [None] stands for [-1]. *)
Fixpoint findIndex (f : Pod -> bool) (l : list Pod) : option nat :=
  match l with
  | [] => None
  | x :: rest => if f x then Some 0 else option_map S (findIndex f rest)
  end.

(** [const index = object => items.findIndex(pod => pod.metadata.uid ===
    object.metadata.uid)] *)
Definition index (items : Items) (o : Pod) : option nat :=
  findIndex (fun pod => String.eqb (uid pod) (uid o)) (elements items).

(** [l[i] = x] for an index inside the array. *)
Fixpoint set_nth (i : nat) (x : Pod) (l : list Pod) : list Pod :=
  match l, i with
  | [], _ => []
  | _ :: rest, 0 => x :: rest
  | y :: rest, S j => y :: set_nth j x rest
  end.

(** [l.splice(i, 1)] for an index inside the array. *)
Fixpoint remove_nth (i : nat) (l : list Pod) : list Pod :=
  match l, i with
  | [], _ => []
  | _ :: rest, 0 => rest
  | y :: rest, S j => y :: remove_nth j rest
  end.

(** [items[i] = x] with [i] the result of [findIndex]: at [-1] the
    assignment creates the property ["-1"] and leaves the elements alone. *)
Definition assign (items : Items) (i : option nat) (x : Pod) : Items :=
  match i with
  | Some n => mkItems (set_nth n x (elements items)) (minus_one items)
  | None => mkItems (elements items) (Some x)
  end.

(** [items.splice(i, 1)] with [i] the result of [findIndex]: a start of [-1]
    counts from the end, so the last element goes. *)
Definition splice (items : Items) (i : option nat) : Items :=
  match i with
  | Some n => mkItems (remove_nth n (elements items)) (minus_one items)
  | None => mkItems (removelast (elements items)) (minus_one items)
  end.

(** [items.push(x)] *)
Definition push (items : Items) (x : Pod) : Items :=
  mkItems (elements items ++ [x]) (minus_one items).

(** [switch (change.type) { case 'ADDED': ... case 'MODIFIED': ... case
    'DELETED': ... }] *)
Definition dispatch (items : Items) (change : Change) : Items :=
  if String.eqb (type change) "ADDED" then push items (object change)
  else if String.eqb (type change) "MODIFIED" then
    assign items (index items (object change)) (object change)
  else if String.eqb (type change) "DELETED" then
    splice items (index items (object change))
  else items.

(** What one [updatePodTable] generator works on: its [buffer], the pod
    items of the session, and the number of times it has redrawn the table
    ([setTableData(session.pods); screen.render()]). *)
Record Watch := mkWatch {
  buffer : string;
  pods : Items;
  redraws : nat
}.

Section Turn.

(** [chunk.toString('utf8')], and [JSON.parse], which gives a watch event or
    throws ([None]). *)
Variable utf8 : Buffer -> string.
Variable parse : string -> option Change.

(** One turn of [while (change = yield) { ... }] with a chunk. *)
Definition turn (w : Watch) (chunk : Buffer) : Watch :=
  let buffer := (buffer w ++ utf8 chunk)%string in
  match parse buffer with
  | None => mkWatch buffer (pods w) (redraws w)
  | Some change => mkWatch "" (dispatch (pods w) change) (S (redraws w))
  end.

Definition turns (w : Watch) (chunks : list Buffer) : Watch :=
  fold_left turn chunks w.

(** The text of the chunks, as it piles up in [buffer] after [start]. *)
Definition pile (start : string) (chunks : list Buffer) : string :=
  fold_left (fun acc c => (acc ++ utf8 c)%string) chunks start.

(** After [start], the text piled up by each of the chunks in turn does not
    parse. *)
Fixpoint unparsed (start : string) (chunks : list Buffer) : bool :=
  match chunks with
  | [] => true
  | c :: rest =>
      match parse (start ++ utf8 c)%string with
      | None => unparsed (start ++ utf8 c)%string rest
      | Some _ => false
      end
  end.

End Turn.

(** The [uid]s of the pods in the table. *)
Definition uids (items : Items) : list string := map uid (elements items).

End PodTable.


(* ------------------------------------------------------------------ *)
(** ** The client configuration (kubik.js) *)

Module KubeConfig.

Import Ascii.

(** The parts of [~/.kube/config] that the client reads, once loaded by
    [yaml.safeLoad]: every entry of [clusters], [contexts] and [users] has a
    [name] next to its [cluster], [context] or [user] object. *)
Record Cluster := mkCluster {
  server : string;
  insecure_skip_tls_verify : bool;                (* 'insecure-skip-tls-verify' *)
  certificate_authority : option string           (* 'certificate-authority' *)
}.

Record Context := mkContext {
  context_cluster : string;                       (* context.cluster *)
  context_user : string;                          (* context.user *)
  namespace : option string
}.

Record User := mkUser {
  client_certificate : option string;             (* 'client-certificate' *)
  client_key : option string;                     (* 'client-key' *)
  token : option string
}.

Record Named (A : Type) := mkNamed {
  name : string;
  item : A                                        (* .cluster, .context, .user *)
}.

Arguments mkNamed {A} _ _.
Arguments name {A} _.
Arguments item {A} _.

Record Kube := mkKube {
  current_context : option string;                (* kube['current-context'] *)
  contexts : list (Named Context);
  clusters : list (Named Cluster);
  users : list (Named User)
}.

(** [{cluster, context, user}] *)
Record Config := mkConfig {
  cluster : Cluster;
  context : Context;
  user : User
}.

(** A string that may be missing, in a condition: [undefined] and [''] are
    falsy. *)
Definition truthy (s : option string) : bool :=
  match s with
  | None => false
  | Some s => negb (String.eqb s "")
  end.

(** [item.name === current], where [current] may be [undefined]. *)
Definition same (s : string) (current : option string) : bool :=
  match current with
  | None => false
  | Some c => String.eqb s c
  end.

(** [array.find(f).field]: reading a field of the [undefined] that [find]
    gives when nothing matches is a TypeError. *)
Definition find_field {A : Type} (field : string) (f : Named A -> bool)
    (l : list (Named A)) : jserr + Named A :=
  match find f l with
  | Some x => inr x
  | None =>
      inl (TypeError ("Cannot read property '" ++ field ++ "' of undefined"))
  end.

Definition getKubeConfig (kube : Kube) (master : option string)
  : jserr + Config :=
  match
    (if negb (truthy master) then
       let current := current_context kube in
       match find_field "context" (fun item => same (name item) current)
               (contexts kube) with
       | inl e => inl e
       | inr found =>
           let context := item found in
           match find_field "cluster"
                   (fun item => String.eqb (server (KubeConfig.item item))
                                           (context_cluster context))
                   (clusters kube) with
           | inl e => inl e
           | inr cluster => inr (item cluster, context)
           end
       end
     else
       match find (fun item => same (server (KubeConfig.item item)) master)
               (clusters kube) with
       | None =>
           (* [cluster.name] of [undefined] in the callback, or [.context] of
              the [undefined] found among no contexts *)
           inl (TypeError
                  (match contexts kube with
                   | [] => "Cannot read property 'context' of undefined"
                   | _ => "Cannot read property 'name' of undefined"
                   end))
       | Some cluster =>
           match find_field "context"
                   (fun item => String.eqb (context_cluster (KubeConfig.item item))
                                           (name cluster))
                   (contexts kube) with
           | inl e => inl e
           | inr context => inr (item cluster, item context)
           end
       end)
  with
  | inl e => inl e
  | inr (cluster, context) =>
      match find_field "user"
              (fun user => String.eqb (name user) (context_user context))
              (users kube) with
      | inl e => inl e
      | inr user => inr (mkConfig cluster context (item user))
      end
  end.

(** *** The server URL *)

(** The character classes of the pattern that [getMasterApi] runs on
    [cluster.server]: [\w], [\d] and [[^:]]. *)
Definition code (c : ascii) : nat := nat_of_ascii c.

Definition is_digit (c : ascii) : bool :=
  ((48 <=? code c) && (code c <=? 57))%nat.

Definition is_word (c : ascii) : bool :=
  (is_digit c
   || ((65 <=? code c) && (code c <=? 90))
   || ((97 <=? code c) && (code c <=? 122))
   || (code c =? 95))%nat.

Definition not_colon (c : ascii) : bool := negb (code c =? 58)%nat.

(** The longest prefix of [s] in a class, and what follows it. *)
Fixpoint span (p : ascii -> bool) (s : string) : string * string :=
  match s with
  | EmptyString => (EmptyString, EmptyString)
  | String c rest =>
      if p c then let (a, b) := span p rest in (String c a, b)
      else (EmptyString, s)
  end.

(** The [exec] of that pattern on [s]: from the start [^], a group of one or
    more [\w] and a colon, two slashes, a group of one or more [[^:]], a
    colon, and a group of any number of [\d] up to the end [$].  It gives the
    three groups, or [None] for [null].  No class of the pattern holds the
    character that follows it, so each group is the longest run of its
    class. *)
Definition exec (s : string) : option (string * string * string) :=
  let (w, after_w) := span is_word s in
  match w, after_w with
  | String _ _, String ":" (String "/" (String "/" after_slashes)) =>
      let (h, after_h) := span not_colon after_slashes in
      match h, after_h with
      | String _ _, String ":" after_colon =>
          let (d, after_d) := span is_digit after_colon in
          match after_d with
          | EmptyString => Some ((w ++ ":")%string, h, d)
          | _ => None
          end
      | _, _ => None
      end
  | _, _ => None
  end.

(** Every character of [s] is in the class. *)
Fixpoint all (p : ascii -> bool) (s : string) : bool :=
  match s with
  | EmptyString => true
  | String c rest => p c && all p rest
  end.

(** The pattern, read as a statement: [s] is a non-empty word and a colon,
    two slashes, a non-empty run without colon, a colon and digits to the
    end. *)
Definition reads_as (s protocol hostname port : string) : Prop :=
  (exists w, protocol = (w ++ ":")%string /\ w <> EmptyString
             /\ all is_word w = true)
  /\ hostname <> EmptyString /\ all not_colon hostname = true
  /\ all is_digit port = true
  /\ s = (protocol ++ "//" ++ hostname ++ ":" ++ port)%string.

(** The options shared by every request. *)
Record MasterApi := mkMasterApi {
  protocol : string;
  hostname : string;
  port : string;
  headers : list (string * string);
  rejectUnauthorized : option bool;
  cert : option Buffer;
  key : option Buffer;
  ca : option Buffer
}.

(** What [getMasterApi] can throw: a JavaScript error, or the error of a
    file that [fs.readFileSync] cannot read. *)
Inductive Failure :=
| Thrown (e : jserr)
| Unreadable (path : string).

Section Files.

(** [fs.readFileSync(path)]; [None] when it throws. *)
Variable readFileSync : string -> option Buffer.

(** [if (path) api.field = fs.readFileSync(path)] *)
Definition read_if_set (path : option string) : Failure + option Buffer :=
  match path with
  | Some p =>
      if truthy path then
        match readFileSync p with
        | Some content => inr (Some content)
        | None => inl (Unreadable p)
        end
      else inr None
  | None => inr None
  end.

Definition getMasterApi (kube_config : Config) : Failure + MasterApi :=
  let cluster := cluster kube_config in
  let user := user kube_config in
  match exec (server cluster) with
  | None => inl (Thrown (TypeError "null is not iterable"))
  | Some (protocol, hostname, port) =>
      let rejectUnauthorized :=
        if insecure_skip_tls_verify cluster then Some true else None in
      match read_if_set (client_certificate user) with
      | inl e => inl e
      | inr cert =>
          match read_if_set (client_key user) with
          | inl e => inl e
          | inr key =>
              let headers :=
                ("Accept", "application/json, text/plain, */*")
                :: (match token user with
                    | Some t =>
                        if truthy (token user)
                        then [("Authorization", ("Bearer " ++ t)%string)]
                        else []
                    | None => []
                    end) in
              match read_if_set (certificate_authority cluster) with
              | inl e => inl e
              | inr ca =>
                  inr (mkMasterApi protocol hostname port headers
                         rejectUnauthorized cert key ca)
              end
          end
      end
  end.

End Files.

End KubeConfig.
(* ================================================================== *)
(** * Properties *)

(* ------------------------------------------------------------------ *)
(** ** Frame codec *)

Module FrameCodecFacts.

Import FrameCodec.
Open Scope Z_scope.

Lemma to_uint8_land (z : Z) : to_uint8 z = Z.land z (Z.ones 8).
Proof.
  unfold to_uint8. rewrite Z.land_ones by lia. reflexivity.
Qed.

Lemma to_uint8_byte (b : Z) : is_byte b -> to_uint8 b = b.
Proof.
  unfold is_byte, to_uint8. intros H. apply Z.mod_small. lia.
Qed.

(** Masking one octet twice with the same key octet gives the octet back. *)
Lemma to_uint8_lxor_twice (b k : Z) :
  is_byte b -> to_uint8 (Z.lxor (to_uint8 (Z.lxor b k)) k) = b.
Proof.
  intros Hb.
  rewrite <- (to_uint8_byte b Hb) at 2.
  rewrite !to_uint8_land.
  apply Z.bits_inj'. intros n Hn.
  rewrite !Z.land_spec, !Z.lxor_spec, Z.land_spec, Z.lxor_spec.
  destruct (Z.testbit b n), (Z.testbit k n), (Z.testbit (Z.ones 8) n);
    reflexivity.
Qed.

Lemma xor_mask_from_twice (key payload : Buffer) :
  wf_buffer payload ->
  forall i, xor_mask_from i key (xor_mask_from i key payload) = payload.
Proof.
  induction 1 as [|b rest Hb Hrest IH]; intros i; simpl.
  - reflexivity.
  - rewrite to_uint8_lxor_twice by exact Hb. rewrite IH. reflexivity.
Qed.

Lemma xor_mask_from_length (key payload : Buffer) :
  forall i, List.length (xor_mask_from i key payload) = List.length payload.
Proof.
  induction payload as [|b rest IH]; intros i; simpl; [reflexivity|].
  rewrite IH. reflexivity.
Qed.

(** C8: for every payload [P] of octets and every masking key [K], applying
    the XOR unmasking of [decodeFrame] (payload octet [i] XORed with
    [K[i mod 4]]) twice gives [P] back. *)
Theorem xor_mask_involutive (K P : Buffer) :
  wf_buffer P -> xor_mask K (xor_mask K P) = P.
Proof.
  intros HP. unfold xor_mask. apply xor_mask_from_twice. exact HP.
Qed.

Lemma xor_mask_involutive_witness :
  xor_mask [55; 250; 33; 61] (xor_mask [55; 250; 33; 61] [72; 101; 108; 108; 111])
  = [72; 101; 108; 108; 111].
Proof.
  apply (xor_mask_involutive [55; 250; 33; 61] [72; 101; 108; 108; 111]).
  repeat constructor; unfold is_byte; lia.
Defined.

Lemma be16_read (L : Z) :
  0 <= L < 65536 -> Z.lor (Z.shiftl (L / 256) 8) (L mod 256) = L.
Proof.
  intros HL. apply Z.bits_inj'. intros n Hn.
  rewrite Z.lor_spec.
  change 256 with (2 ^ 8).
  destruct (Z.ltb_spec n 8) as [Hlt|Hge].
  - rewrite Z.shiftl_spec_low by lia.
    rewrite Z.mod_pow2_bits_low by lia. reflexivity.
  - rewrite Z.shiftl_spec by lia.
    rewrite Z.mod_pow2_bits_high by lia.
    rewrite Z.div_pow2_bits by lia.
    rewrite orb_false_r. f_equal. lia.
Qed.

Lemma readUInt16BE_be16 (b0 b1 L : Z) (tail : Buffer) :
  0 <= L < 65536 -> readUInt16BE (b0 :: b1 :: be16 L ++ tail) 2 = inr L.
Proof.
  intros HL. unfold readUInt16BE, be16, at_index.
  cbn [app nth Nat.add List.length Nat.leb].
  rewrite be16_read by exact HL. reflexivity.
Qed.

(** [decodeFrame] gives a [{opcode}] object exactly on the close opcode. *)
Lemma decodeFrame_close (frame : Buffer) :
  header_opcode frame = 8 -> decodeFrame frame = inr (CloseFrame 8).
Proof.
  unfold header_opcode, decodeFrame. intros H. rewrite H. reflexivity.
Qed.

Lemma decodeFrame_data_opcode (frame : Buffer) (fin op len : Z) (p : Buffer) :
  decodeFrame frame = inr (DataFrame fin op len p) -> op <> 8.
Proof.
  unfold decodeFrame.
  destruct (Z.eqb_spec (Z.land (at_index frame 0) 15) 8) as [E|E]; [discriminate|].
  destruct (decode_length frame _) as [e|[l nb]]; [discriminate|].
  destruct (_ =? 0); intros H; inversion H; subst; exact E.
Qed.

(** The two clauses of C3 that the code bears out, for every header that is
    not a connection close: a length code of 126 followed by the big-endian
    16-bit encoding of [L] declares the payload length [L], for every [L] in
    [0, 65535]; and a length code below 126 declares the code itself. *)
Lemma decodeFrame_declared_length (frame : Buffer) :
  header_opcode frame <> 8 ->
  (forall L, length_code frame = 126 -> 0 <= L < 65536 ->
             slice frame 2 4 = be16 L ->
             declared_length (decodeFrame frame) = Some L)
  /\ (length_code frame < 126 ->
      declared_length (decodeFrame frame) = Some (length_code frame)).
Proof.
  unfold header_opcode, length_code. intros Hop.
  assert (Hgate : (Z.land (at_index frame 0) 15 =? 8) = false)
    by (apply Z.eqb_neq; exact Hop).
  split.
  - intros L Hcode HL Hext.
    destruct frame as [|b0 [|b1 [|b2 [|b3 tail]]]]; try discriminate Hext.
    unfold slice, be16 in Hext. simpl in Hext.
    injection Hext as Hb2 Hb3. subst b2 b3.
    unfold decodeFrame, decode_length. rewrite Hgate, Hcode. simpl Z.eqb.
    cbv iota.
    replace (readUInt16BE (b0 :: b1 :: L / 256 :: L mod 256 :: tail) 2)
      with (@inr jserr Z L)
      by (symmetry; apply (readUInt16BE_be16 b0 b1 L tail HL)).
    destruct (_ =? 0); reflexivity.
  - intros Hcode.
    unfold decodeFrame, decode_length. rewrite Hgate.
    destruct (Z.eqb_spec (Z.land (at_index frame 1) 127) 126) as [E|_]; [lia|].
    destruct (Z.eqb_spec (Z.land (at_index frame 1) 127) 127) as [E|_]; [lia|].
    destruct (_ =? 0); reflexivity.
Qed.

Example decodeFrame_declared_length_300 :
  declared_length (decodeFrame [130; 126; 1; 44; 7; 7; 7]) = Some 300
  /\ declared_length (decodeFrame [129; 5; 104; 101; 108; 108; 111]) = Some 5.
Proof. split; reflexivity. Qed.

(** A connection-close header gives only its opcode, whatever its length
    code: [0x88 0x02] has the length code 2 and no declared length. *)
Example decodeFrame_close_has_no_length :
  length_code [136; 2; 3; 232] = 2
  /\ declared_length (decodeFrame [136; 2; 3; 232]) = None.
Proof. split; reflexivity. Qed.

(** C3 on the code, the clause of the 64-bit length: the extended length is
    read with [frame.readUInt64BE], a method that [Buffer] does not have.  So
    for every header that is not a connection close and has the length code
    127, whatever the eight octets that follow, [decodeFrame] raises a
    [TypeError] and declares no length at all. *)
Theorem decodeFrame_length_code_127 (frame : Buffer) :
  header_opcode frame <> 8 -> length_code frame = 127 ->
  decodeFrame frame = inl (TypeError "frame.readUInt64BE is not a function")
  /\ declared_length (decodeFrame frame) = None.
Proof.
  unfold header_opcode, length_code, decodeFrame, decode_length.
  intros Hop Hcode.
  destruct (Z.eqb_spec (Z.land (at_index frame 0) 15) 8) as [E|_]; [contradiction|].
  rewrite Hcode. split; reflexivity.
Qed.

(** A binary frame that declares 65536 octets in the 64-bit form. *)
Lemma decodeFrame_length_code_127_witness :
  decodeFrame ([130; 127; 0; 0; 0; 0; 0; 1; 0; 0] ++ repeat 7 16)
  = inl (TypeError "frame.readUInt64BE is not a function")
  /\ declared_length
       (decodeFrame ([130; 127; 0; 0; 0; 0; 0; 1; 0; 0] ++ repeat 7 16))
     = None.
Proof.
  apply (decodeFrame_length_code_127
           ([130; 127; 0; 0; 0; 0; 0; 1; 0; 0] ++ repeat 7 16)).
  - vm_compute. discriminate.
  - reflexivity.
Defined.

(** Scenario E: an unmasked final text frame with a 5-octet payload. *)
Example decodeFrame_text_frame :
  decodeFrame [129; 5; 104; 101; 108; 108; 111]
  = inr (DataFrame 128 1 5 [104; 101; 108; 108; 111]).
Proof. reflexivity. Qed.

End FrameCodecFacts.

(* ------------------------------------------------------------------ *)
(** ** Generator objects *)

Module GeneratorFacts.

Section Calls.

Context {G : Generator}.

Lemma call_calls (g : genobj G) (sig : signal) :
  calls (fst (call g sig)) = calls g ++ [sig].
Proof.
  unfold call.
  destruct (gstatus g) as [|s|].
  - destruct sig; [destruct (settle (gstart G))| |]; reflexivity.
  - destruct (settle (gresume G s sig)); reflexivity.
  - reflexivity.
Qed.

(** A completed generator stays completed, and no call reaches its body. *)
Lemma call_completed (g : genobj G) (sig : signal) :
  gstatus g = Completed ->
  gstatus (fst (call g sig)) = Completed
  /\ received (fst (call g sig)) = received g.
Proof.
  unfold call. intros H. rewrite H. split; reflexivity.
Qed.

Lemma next_completed (g : genobj G) (x : option Buffer) :
  gstatus g = Completed -> snd (gen_next g x) = inr (mkIter VUndefined true).
Proof.
  unfold gen_next, call. intros H. rewrite H. reflexivity.
Qed.

Lemma throw_completed (g : genobj G) (e : jserr) :
  gstatus g = Completed -> snd (gen_throw g e) = inl e.
Proof.
  unfold gen_throw, call. intros H. rewrite H. reflexivity.
Qed.

(** A call that reports [done] leaves the generator completed. *)
Lemma call_done (g : genobj G) (sig : signal) (it : IterResult) :
  snd (call g sig) = inr it -> done it = true ->
  gstatus (fst (call g sig)) = Completed.
Proof.
  unfold call.
  destruct (gstatus g) as [|s|].
  - destruct sig as [x|e|].
    + destruct (gstart G) as [v s'|v|e]; simpl; intros H; inversion H; subst;
        simpl; intros; congruence.
    + reflexivity.
    + reflexivity.
  - destruct (gresume G s sig) as [v s'|v|e]; simpl; intros H; inversion H;
      subst; simpl; intros; congruence.
  - reflexivity.
Qed.

(** A call that raises leaves the generator completed. *)
Lemma call_raised (g : genobj G) (sig : signal) (e : jserr) :
  snd (call g sig) = inl e -> gstatus (fst (call g sig)) = Completed.
Proof.
  unfold call.
  destruct (gstatus g) as [|s|].
  - destruct sig as [x|e'|].
    + destruct (gstart G) as [v s'|v|e']; simpl; intros H; congruence.
    + reflexivity.
    + reflexivity.
  - destruct (gresume G s sig) as [v s'|v|e']; simpl; intros H; congruence.
  - reflexivity.
Qed.

(** After a call a generator is suspended at a [yield] or completed. *)
Lemma call_status (g : genobj G) (sig : signal) :
  (exists st, gstatus (fst (call g sig)) = SuspendedYield st)
  \/ gstatus (fst (call g sig)) = Completed.
Proof.
  unfold call.
  destruct (gstatus g) as [|s|].
  - destruct sig as [x|e|]; [|right; reflexivity|right; reflexivity].
    destruct (gstart G) as [v s'|v|e]; cbn; eauto.
  - destruct (gresume G s sig) as [v s'|v|e]; cbn; eauto.
  - right. reflexivity.
Qed.

(** A call that leaves the generator suspended ran its body and returned a
    result that is not [done]. *)
Lemma call_suspended (g : genobj G) (sig : signal) (st : gstate G) :
  gstatus (fst (call g sig)) = SuspendedYield st ->
  (exists v, snd (call g sig) = inr (mkIter v false))
  /\ received (fst (call g sig)) = received g ++ [sig].
Proof.
  unfold call.
  destruct (gstatus g) as [|s|].
  - destruct sig as [x|e|]; try discriminate.
    destruct (gstart G) as [v s'|v|e]; cbn; try discriminate; eauto.
  - destruct (gresume G s sig) as [v s'|v|e]; cbn; try discriminate; eauto.
  - discriminate.
Qed.

Lemma feed_cons (g : genobj G) (c : Buffer) (rest : list Buffer) :
  feed g (c :: rest) = feed (fst (gen_next g (Some c))) rest.
Proof. reflexivity. Qed.

Lemma feed_completed (g : genobj G) (chunks : list Buffer) :
  gstatus g = Completed -> gstatus (feed g chunks) = Completed.
Proof.
  revert g. induction chunks as [|c rest IH]; intros g Hg.
  - exact Hg.
  - rewrite feed_cons. apply IH. apply call_completed. exact Hg.
Qed.

(** A generator that is still suspended after a list of chunks was suspended
    after the first of them. *)
Lemma feed_live (g : genobj G) (c : Buffer) (rest : list Buffer)
  (st : gstate G) :
  gstatus (feed g (c :: rest)) = SuspendedYield st ->
  exists st1, gstatus (fst (gen_next g (Some c))) = SuspendedYield st1.
Proof.
  rewrite feed_cons. intros H.
  destruct (call_status g (Next (Some c))) as [Hs|Hc]; [exact Hs|].
  apply (feed_completed _ rest) in Hc. unfold gen_next in H. congruence.
Qed.

Lemma feed_received (chunks : list Buffer) :
  forall (g : genobj G) (st : gstate G),
    gstatus (feed g chunks) = SuspendedYield st ->
    received (feed g chunks)
    = received g ++ map (fun c => Next (Some c)) chunks.
Proof.
  induction chunks as [|c rest IH]; intros g st H.
  - cbn. rewrite app_nil_r. reflexivity.
  - destruct (feed_live g c rest st H) as [st1 H1].
    rewrite feed_cons in *. rewrite (IH _ st H).
    unfold gen_next in *.
    rewrite (proj2 (call_suspended g _ st1 H1)).
    rewrite <- app_assoc. reflexivity.
Qed.

End Calls.

End GeneratorFacts.

(* ------------------------------------------------------------------ *)
(** ** Reassembly of frames *)

Module ReassemblyFacts.

Import FrameCodec Reassembly.
Open Scope nat_scope.

Lemma skipn_repeat_zero (k m : nat) :
  skipn k (repeat 0%Z m) = repeat 0%Z (m - k).
Proof.
  revert m. induction k as [|k IH]; intros m.
  - rewrite Nat.sub_0_r. reflexivity.
  - destruct m as [|m]; [reflexivity|]. simpl. apply IH.
Qed.

(** Copying into a buffer whose first octets are [acc] and whose [m] other
    octets are still the zeroes of [Buffer.alloc]. *)
Lemma copy_into_zeroes (src acc : Buffer) (m : nat) :
  copy src (acc ++ repeat 0%Z m) (List.length acc)
  = (acc ++ firstn (Nat.min (List.length src) m) src
         ++ repeat 0%Z (m - Nat.min (List.length src) m),
     Nat.min (List.length src) m).
Proof.
  unfold copy.
  rewrite length_app, repeat_length.
  replace (List.length acc + m - List.length acc) with m by lia.
  f_equal.
  rewrite firstn_app, firstn_all, Nat.sub_diag, firstn_O, app_nil_r.
  rewrite skipn_app, skipn_all2 by lia.
  replace (List.length acc + Nat.min (List.length src) m - List.length acc)
    with (Nat.min (List.length src) m) by lia.
  rewrite skipn_repeat_zero. reflexivity.
Qed.

Lemma at_index_byte (frame : Buffer) (i : nat) :
  wf_buffer frame -> is_byte (at_index frame i).
Proof.
  unfold wf_buffer, at_index. intros H. revert i.
  induction H as [|b rest Hb _ IH]; intros [|i]; simpl;
    try (unfold is_byte; lia); auto.
Qed.

Lemma decodeFrame_length_nonneg (first : Buffer) (fin op len : Z) (p : Buffer) :
  wf_buffer first -> decodeFrame first = inr (DataFrame fin op len p) ->
  (0 <= len)%Z.
Proof.
  intros Hwf. unfold decodeFrame, decode_length, readUInt16BE, readUInt64BE.
  destruct (_ =? 8)%Z; [discriminate|].
  assert (Hcode : (0 <= Z.land (at_index first 1) 127)%Z)
    by (apply Z.land_nonneg; right; lia).
  assert (H2 := at_index_byte first 2 Hwf).
  assert (H3 := at_index_byte first (2 + 1) Hwf).
  unfold is_byte in H2, H3.
  assert (Hhi : (0 <= Z.shiftl (at_index first 2) 8)%Z)
    by (apply Z.shiftl_nonneg; lia).
  assert (Hext : (0 <= Z.lor (Z.shiftl (at_index first 2) 8)
                              (at_index first (2 + 1)))%Z)
    by (apply Z.lor_nonneg; split; [exact Hhi | lia]).
  destruct (_ =? 126)%Z.
  - destruct (_ <=? _); [|discriminate].
    destruct (_ =? 0)%Z; intros [= _ _ <- _]; exact Hext.
  - destruct (_ =? 127)%Z; [discriminate|].
    destruct (_ =? 0)%Z; intros [= _ _ <- _]; exact Hcode.
Qed.

(** A completed generator stays completed, and its body is not run again. *)
Lemma feed_dead {G : Generator} (g : genobj G) (chunks : list Buffer) :
  gstatus g = Completed ->
  gstatus (feed g chunks) = Completed /\ received (feed g chunks) = received g.
Proof.
  revert g. induction chunks as [|c rest IH]; intros g Hg.
  - split; [exact Hg | reflexivity].
  - rewrite GeneratorFacts.feed_cons. unfold gen_next.
    destruct (GeneratorFacts.call_completed g (Next (Some c)) Hg) as [H1 H2].
    destruct (IH _ H1) as [H3 H4]. split; [exact H3 | congruence].
Qed.

Section Loop.

Context {K : Generator}.

Lemma complete_at_length (fin op len : Z) (p0 pl : Buffer) (off : nat)
  (g : genobj K) :
  Z.of_nat off = len ->
  complete (mkDState (mkLocals (Some (DataFrame fin op len p0)) pl off) g)
  = handed off pl g.
Proof.
  intros H. unfold complete, handed. simpl.
  rewrite (proj2 (Z.eqb_eq _ _) H).
  destruct (gen_next g (Some pl)); reflexivity.
Qed.

Lemma complete_short (fin op len : Z) (p0 pl : Buffer) (off : nat)
  (g : genobj K) :
  Z.of_nat off <> len ->
  complete (mkDState (mkLocals (Some (DataFrame fin op len p0)) pl off) g)
  = (mkDState (mkLocals (Some (DataFrame fin op len p0)) pl off) g, Suspend).
Proof.
  intros H. unfold complete. simpl.
  rewrite (proj2 (Z.eqb_neq _ _) H). reflexivity.
Qed.

Lemma on_block_mid (fin op len : Z) (p0 acc b : Buffer) (g : genobj K) :
  (0 <= len)%Z -> List.length acc < Z.to_nat len ->
  on_block (mid (DataFrame fin op len p0) (Z.to_nat len) acc g) b
  = if List.length acc + List.length b <? Z.to_nat len
    then (mid (DataFrame fin op len p0) (Z.to_nat len) (acc ++ b) g, Suspend)
    else handed (Z.to_nat len) (firstn (Z.to_nat len) (acc ++ b)) g.
Proof.
  intros Hlen Hacc.
  unfold on_block, mid. cbn [locals frame payload offset inner].
  rewrite copy_into_zeroes.
  destruct (Nat.ltb_spec (List.length acc + List.length b) (Z.to_nat len))
    as [Hlt|Hge].
  - replace (Nat.min (List.length b) (Z.to_nat len - List.length acc))
      with (List.length b) by lia.
    rewrite firstn_all, app_assoc.
    rewrite complete_short by lia.
    rewrite length_app.
    replace (Z.to_nat len - List.length acc - List.length b)
      with (Z.to_nat len - (List.length acc + List.length b)) by lia.
    reflexivity.
  - replace (Nat.min (List.length b) (Z.to_nat len - List.length acc))
      with (Z.to_nat len - List.length acc) by lia.
    rewrite Nat.sub_diag. cbn [repeat]. rewrite app_nil_r.
    rewrite complete_at_length by lia.
    replace (List.length acc + (Z.to_nat len - List.length acc))
      with (Z.to_nat len) by lia.
    rewrite firstn_app, (firstn_all2 acc) by lia. reflexivity.
Qed.

Lemma feed_blocks_mid (fin op len : Z) (p0 : Buffer) (g : genobj K)
  (rest : list Buffer) :
  (0 <= len)%Z -> rest <> [] ->
  forall acc,
    List.length (acc ++ List.concat (removelast rest)) < Z.to_nat len ->
    Z.to_nat len <= List.length (acc ++ List.concat rest) ->
    feed_blocks (mid (DataFrame fin op len p0) (Z.to_nat len) acc g) rest
    = handed (Z.to_nat len)
        (firstn (Z.to_nat len) (acc ++ List.concat rest)) g.
Proof.
  intros Hlen. induction rest as [|b rest IH]; intros Hne acc Hbefore Hall.
  - contradiction.
  - cbn [feed_blocks].
    destruct rest as [|b' rest].
    + cbn [removelast List.concat] in *. rewrite app_nil_r in *.
      rewrite length_app in Hall.
      rewrite on_block_mid by lia.
      destruct (Nat.ltb_spec (List.length acc + List.length b) (Z.to_nat len));
        [lia|].
      unfold handed. destruct (ending_of _); reflexivity.
    + change (removelast (b :: b' :: rest)) with (b :: removelast (b' :: rest))
        in Hbefore.
      change (List.concat (b :: removelast (b' :: rest)))
        with (b ++ List.concat (removelast (b' :: rest))) in Hbefore.
      change (List.concat (b :: b' :: rest))
        with (b ++ List.concat (b' :: rest)) in *.
      rewrite app_assoc in Hbefore, Hall.
      assert (Hacc : List.length (acc ++ b) < Z.to_nat len)
        by (rewrite length_app in Hbefore; lia).
      rewrite length_app in Hacc.
      rewrite on_block_mid by lia.
      destruct (Nat.ltb_spec (List.length acc + List.length b) (Z.to_nat len));
        [|lia].
      rewrite (IH ltac:(discriminate) (acc ++ b) Hbefore Hall).
      rewrite app_assoc. reflexivity.
Qed.

(** Between two frames the stale [payload] and [offset] are not read: the
    next block is parsed as a frame header, as by a decoder that has seen no
    frame yet. *)
Lemma on_block_between_frames (d : DState K) (b : Buffer) :
  frame (locals d) = None ->
  let fresh := on_block (mkDState fresh_locals (inner d)) b in
  snd (on_block d b) = snd fresh
  /\ inner (fst (on_block d b)) = inner (fst fresh)
  /\ frame (locals (fst (on_block d b))) = frame (locals (fst fresh)).
Proof.
  destruct d as [[fr pl off] g]. cbn [locals frame inner]. intros ->.
  unfold on_block. cbn [locals frame payload offset inner fresh_locals].
  destruct (decodeFrame b) as [e|[op|fin op len p]].
  - repeat split.
  - destruct (op =? 8)%Z; [|repeat split].
    unfold leave. cbn [inner locals].
    destruct (gen_next g None) as [g1 [e|it]]; repeat split.
  - destruct (op =? 8)%Z.
    + unfold leave. cbn [inner locals].
      destruct (gen_next g None) as [g1 [e|it]]; repeat split.
    + destruct (Z.of_nat (List.length p) =? len)%Z; [repeat split|].
      destruct (copy p (alloc (Z.to_nat len)) 0); repeat split.
Qed.

(** The blocks of one frame, fed to a decoder that is between two frames. *)
Lemma feed_blocks_frame (g : genobj K) (l0 : Locals) (first : Buffer)
  (rest : list Buffer) (fin op len : Z) (p : Buffer) :
  frame l0 = None -> wf_buffer first ->
  decodeFrame first = inr (DataFrame fin op len p) ->
  arrives_over len p rest ->
  feed_blocks (mkDState l0 g) (first :: rest)
  = handed (Z.to_nat len) (firstn (Z.to_nat len) (p ++ List.concat rest)) g.
Proof.
  intros Hfresh Hwf Hdec [Hbefore Hall].
  assert (Hlen := decodeFrame_length_nonneg _ _ _ _ _ Hwf Hdec).
  assert (Hop := FrameCodecFacts.decodeFrame_data_opcode _ _ _ _ _ Hdec).
  apply Z.eqb_neq in Hop.
  destruct l0 as [fr pl0 off0]. cbn [frame] in Hfresh. subst fr.
  cbn [feed_blocks]. unfold on_block at 1.
  cbn [locals frame payload offset inner]. rewrite Hdec, Hop.
  destruct (Z.eqb_spec (Z.of_nat (List.length p)) len) as [Heq|Hne].
  - (* the first block holds exactly the payload *)
    destruct Hbefore as [->|Hlt]; [|rewrite length_app in Hlt; lia].
    rewrite complete_at_length by exact Heq.
    cbn [List.concat]. rewrite app_nil_r, firstn_all2 by lia.
    replace (Z.to_nat len) with (List.length p) by lia.
    unfold handed. destruct (ending_of _); reflexivity.
  - change (copy p (alloc (Z.to_nat len)) 0)
      with (copy p ([] ++ repeat 0%Z (Z.to_nat len)) (List.length (@nil Z))).
    rewrite copy_into_zeroes. cbn [app].
    destruct (Nat.ltb_spec (List.length p) (Z.to_nat len)) as [Hshort|Hlong].
    + (* the payload goes on in the next blocks *)
      destruct Hbefore as [->|Hlt];
        [cbn [List.concat] in Hall; rewrite app_nil_r in Hall; lia|].
      replace (Nat.min (List.length p) (Z.to_nat len)) with (List.length p) by lia.
      rewrite firstn_all, complete_short by lia.
      assert (Hrest : rest <> [])
        by (intros ->; cbn [List.concat] in Hall; rewrite app_nil_r in Hall; lia).
      apply (feed_blocks_mid fin op len p g rest Hlen Hrest p); lia.
    + (* the first block holds more than the payload *)
      destruct Hbefore as [->|Hlt]; [|rewrite length_app in Hlt; lia].
      replace (Nat.min (List.length p) (Z.to_nat len)) with (Z.to_nat len) by lia.
      rewrite Nat.sub_diag. cbn [repeat List.concat]. rewrite !app_nil_r.
      rewrite complete_at_length by lia.
      unfold handed. destruct (ending_of _); reflexivity.
Qed.

(** The part of C10 that the code bears out.  A decoder that is between two
    frames gets a first data block that [decodeFrame] accepts as a non-close
    frame of declared length [len] - the length that the frame declares when
    that block holds its whole header - and the payload arrives in that block
    or is split over further blocks.  The consumer is resumed exactly once,
    with a payload buffer of [len] octets, and the [frame] variable is
    cleared by then whatever the consumer does with the payload (yield,
    return or throw); the decoder is again between two frames, so the
    statement applies to the block that comes next. *)
Lemma decode_hands_frame_once (g : genobj K) (l0 : Locals) (first : Buffer)
  (rest : list Buffer) (fin op len : Z) (p : Buffer) :
  frame l0 = None -> wf_buffer first ->
  decodeFrame first = inr (DataFrame fin op len p) ->
  arrives_over len p rest ->
  let pl := firstn (Z.to_nat len) (p ++ List.concat rest) in
  let out := feed_blocks (mkDState l0 g) (first :: rest) in
  Z.of_nat (List.length pl) = len
  /\ inner (fst out) = fst (gen_next g (Some pl))
  /\ calls (inner (fst out)) = calls g ++ [Next (Some pl)]
  /\ frame (locals (fst out)) = None
  /\ snd out = ending_of (snd (gen_next g (Some pl))).
Proof.
  intros Hfresh Hwf Hdec Harr pl out.
  assert (Hlen := decodeFrame_length_nonneg _ _ _ _ _ Hwf Hdec).
  assert (Hout : out = handed (Z.to_nat len) pl g)
    by (apply (feed_blocks_frame g l0 first rest fin op len p); assumption).
  rewrite Hout. unfold handed. cbn [fst snd inner locals frame].
  repeat split.
  - destruct Harr as [_ Hall]. unfold pl.
    rewrite firstn_length_le by lia. lia.
  - apply GeneratorFacts.call_calls.
Qed.

(** C10 on the code, for a frame in the 64-bit length form: when a decoder
    that is between two frames gets the first block of a frame that is not a
    connection close and has the length code 127, [decodeFrame] raises its
    [TypeError] inside [decode], outside the [try].  The consumer is not
    resumed, the error leaves the [decode] generator and completes it, and no
    block that follows - the payload of that frame or any later frame - runs
    the body of [decode] again. *)
Theorem decode_drops_wide_frame (gen0 : genobj K) (g : genobj (decode K gen0))
    (d : DState K) (block : Buffer) (later : list Buffer) :
  gstatus g = SuspendedYield d -> frame (locals d) = None ->
  header_opcode block <> 8%Z -> length_code block = 127%Z ->
  let e := TypeError "frame.readUInt64BE is not a function" in
  let g' := fst (gen_next g (Some block)) in
  on_block d block = (d, Fail e)
  /\ snd (gen_next g (Some block)) = inl e
  /\ gstatus (feed g' later) = Completed
  /\ received (feed g' later) = received g ++ [Next (Some block)].
Proof.
  intros Hg Hfresh Hop Hcode e g'.
  assert (Hdec : decodeFrame block = inl e).
  { unfold header_opcode, length_code in *. unfold decodeFrame, decode_length.
    destruct (Z.eqb_spec (Z.land (at_index block 0) 15) 8) as [E|_];
      [contradiction|].
    rewrite Hcode. reflexivity. }
  assert (Hblock : on_block d block = (d, Fail e)).
  { unfold on_block. rewrite Hfresh, Hdec. reflexivity. }
  split; [exact Hblock|].
  assert (Hcall : gen_next g (Some block)
                  = (mkGen Completed (calls g ++ [Next (Some block)])
                       (received g ++ [Next (Some block)]), inl e)).
  { unfold gen_next, call. rewrite Hg.
    cbn [decode gresume resume_full]. rewrite Hblock. reflexivity. }
  unfold g'. rewrite Hcall. cbn [fst snd]. split; [reflexivity|].
  destruct (feed_dead
              (mkGen Completed (calls g ++ [Next (Some block)])
                 (received g ++ [Next (Some block)]) : genobj (decode K gen0))
              later eq_refl) as [Hst Hrec].
  split; [exact Hst | rewrite Hrec; reflexivity].
Qed.

End Loop.

(** A binary frame that declares two octets in the 64-bit form, and the text
    frame that follows it. *)
Lemma decode_drops_wide_frame_witness :
  let gen0 := create Consumers.sink in
  let g : genobj (decode Consumers.sink gen0) :=
    fst (gen_next (create (decode Consumers.sink gen0)) None) in
  let d := mkDState fresh_locals (primed Consumers.sink) in
  let block := [130; 127; 0; 0; 0; 0; 0; 0; 0; 2; 7; 7]%Z in
  let e := TypeError "frame.readUInt64BE is not a function" in
  let g' := fst (gen_next g (Some block)) in
  on_block d block = (d, Fail e)
  /\ snd (gen_next g (Some block)) = inl e
  /\ gstatus (feed g' [[129; 1; 7]%Z]) = Completed
  /\ received (feed g' [[129; 1; 7]%Z]) = received g ++ [Next (Some block)].
Proof.
  apply (decode_drops_wide_frame (create Consumers.sink)
           (fst (gen_next (create (decode Consumers.sink (create Consumers.sink)))
                   None))
           (mkDState fresh_locals (primed Consumers.sink))
           [130; 127; 0; 0; 0; 0; 0; 0; 0; 2; 7; 7]%Z [[129; 1; 7]%Z]).
  - reflexivity.
  - reflexivity.
  - vm_compute. discriminate.
  - reflexivity.
Defined.

(** The header is decoded from the first block alone.  A text frame of five
    octets whose first block stops after the first header octet is handed to
    the consumer as an empty payload, and the block that brings the rest is
    read as the header of a new frame: opcode 5, 104 octets declared. *)
Example decode_split_header :
  let out := feed_blocks (mkDState fresh_locals (primed Consumers.sink))
               [[129]; [5; 104; 101; 108; 108; 111]]%Z in
  calls (inner (fst out)) = [Next None; Next (Some [])]
  /\ frame (locals (fst out)) = Some (DataFrame 0 5 104 [101; 108; 108; 111]%Z)
  /\ snd out = Suspend.
Proof. repeat split; reflexivity. Qed.

Lemma decode_hands_frame_once_witness :
  let g := primed Consumers.sink in
  let first := [130; 5; 1; 2]%Z in
  let rest := [[3; 4]; [5; 9; 9]]%Z in
  let pl := firstn (Z.to_nat 5) ([1; 2]%Z ++ List.concat rest) in
  let out := feed_blocks (mkDState fresh_locals g) (first :: rest) in
  Z.of_nat (List.length pl) = 5%Z
  /\ inner (fst out) = fst (gen_next g (Some pl))
  /\ calls (inner (fst out)) = calls g ++ [Next (Some pl)]
  /\ frame (locals (fst out)) = None
  /\ snd out = ending_of (snd (gen_next g (Some pl))).
Proof.
  apply (decode_hands_frame_once (primed Consumers.sink) fresh_locals
           [130; 5; 1; 2]%Z [[3; 4]; [5; 9; 9]]%Z 128 2 5 [1; 2]%Z).
  - reflexivity.
  - repeat constructor; unfold is_byte; lia.
  - reflexivity.
  - split; [right; simpl; lia | simpl; lia].
Defined.

(** Two frames one after the other, the first split over two blocks: each is
    handed to the consumer as one buffer. *)
Example decode_two_frames :
  calls (inner (fst (feed_blocks (mkDState fresh_locals (primed Consumers.sink))
                       [[130; 3; 1]; [2; 3]; [129; 2; 7; 8]]%Z)))
  = [Next None; Next (Some [1; 2; 3]%Z); Next (Some [7; 8]%Z)].
Proof. reflexivity. Qed.

End ReassemblyFacts.

(* ------------------------------------------------------------------ *)
(** ** Buffered requests *)

Module BufferedFacts.

Import Buffered.

Lemma gated_deliver (path : string) (e : jserr) (ev : Event) (s : State) :
  after_headers ev = true -> gated e s -> gated e (deliver path ev s).
Proof.
  intros Hev (Hp & Hc & Hb & Hq).
  destruct s as [p r c b d q]. cbn in Hp, Hc, Hb, Hq. subst.
  destruct ev as [r'|chunk| |e']; try discriminate Hev;
    repeat split; reflexivity.
Qed.

Lemma gated_run (path : string) (e : jserr) (evs : list Event) :
  forallb after_headers evs = true ->
  forall s, gated e s -> gated e (run path evs s).
Proof.
  induction evs as [|ev evs IH]; intros Hevs s Hs.
  - exact Hs.
  - cbn [forallb] in Hevs. apply andb_prop in Hevs as [Hev Hevs].
    cbn [run fold_left]. apply (IH Hevs). apply gated_deliver; assumption.
Qed.

(** C5: in buffered mode a response whose status is 400 or more rejects the
    promise with the error that carries the response, so that its status can
    be read from the rejection; no [body] array is created, nothing is stored
    in [response.body], and whatever the transport emits afterwards the
    promise stays rejected with that error and never resolves. *)
Theorem getBody_rejects_failed_status (path : string) (r : Response)
  (evs : list Event) :
  (400 <= statusCode r)%Z ->
  forallb after_headers evs = true ->
  let s := run path (EvResponse r :: evs) init in
  promise s = Rejected (RequestFailed path r)
  /\ error_response (RequestFailed path r) = Some r
  /\ rejection_status (promise s) = Some (statusCode r)
  /\ chunks s = None
  /\ response_body s = None.
Proof.
  intros Hstatus Hevs s.
  assert (Hgate : gated (RequestFailed path r) (deliver path (EvResponse r) init)).
  { unfold deliver, handle, on_response.
    rewrite (proj2 (Z.geb_le _ _) Hstatus). repeat split; reflexivity. }
  destruct (gated_run path _ evs Hevs _ Hgate) as (Hp & Hc & Hb & _).
  fold (run path evs (deliver path (EvResponse r) init)) in Hp, Hc, Hb.
  change s with (run path evs (deliver path (EvResponse r) init)).
  rewrite Hp. repeat split; assumption.
Qed.

(** Scenario B: a 404 response. *)
Lemma getBody_rejects_failed_status_witness :
  let r := mkResponse 404 [] in
  let s := run "/api/v1/pods" [EvResponse r; EvData [110; 111]%Z; EvEnd] init in
  promise s = Rejected (RequestFailed "/api/v1/pods" r)
  /\ error_response (RequestFailed "/api/v1/pods" r) = Some r
  /\ rejection_status (promise s) = Some 404%Z
  /\ chunks s = None
  /\ response_body s = None.
Proof.
  apply (getBody_rejects_failed_status "/api/v1/pods" (mkResponse 404 [])
           [EvData [110; 111]%Z; EvEnd]).
  - simpl. lia.
  - reflexivity.
Defined.

(** Scenario A: a 200 response with the body "ok". *)
Example getBody_resolves_ok :
  let r := mkResponse 200 [] in
  let s := run "/api" [EvResponse r; EvData [111]%Z; EvData [107]%Z; EvEnd] init in
  promise s = Resolved r /\ response_body s = Some [111; 107]%Z.
Proof. split; reflexivity. Qed.

End BufferedFacts.

(* ------------------------------------------------------------------ *)
(** ** Streaming requests *)

Module StreamingFacts.

Import Streaming.

(** Case analysis on everything a handler branches on. *)
Ltac split_handler :=
  repeat match goal with
         | |- context [match ?x with _ => _ end] => destruct x eqn:?
         end;
  cbn in *.

(** Unfolding of the handlers that occur in the goal. *)
Ltac open_handlers :=
  repeat (progress (try unfold handle; try unfold on_response;
                    try unfold on_upgrade; try unfold on_error;
                    try unfold on_abort; try unfold on_aborted;
                    try unfold on_data; try unfold on_end;
                    try unfold on_socket_data; try unfold on_socket_end;
                    try unfold finalize; try unfold ws_finalize;
                    try unfold cancellation; try unfold request_abort;
                    cbn)).

Section Driver.

Context {K : Generator} (rq : Request).

Lemma flush_idle (s : State K) :
  pending (transport s) = [] -> flush rq s = s.
Proof.
  destruct s as [ca sa p r b g w [ra rd se q] u]. cbn. intros ->. reflexivity.
Qed.

(** *** The promise settles once *)

Lemma handle_settled (ev : Event) (s : State K) :
  settled (promise s) = true -> promise (handle rq ev s) = promise s.
Proof.
  destruct s as [ca sa p r b g w t u]. cbn. intros Hp.
  destruct p; [discriminate| |];
    destruct ev; cbn;
    unfold on_response, on_upgrade, on_error, on_abort, on_aborted, on_data,
      on_end, on_socket_data, on_socket_end, finalize, ws_finalize; cbn;
    split_handler; reflexivity.
Qed.

Lemma cancellation_promise (s : State K) :
  promise (cancellation s) = promise s.
Proof.
  unfold cancellation, request_abort.
  destruct (req_aborted (transport s)); reflexivity.
Qed.

Lemma flush_settled (s : State K) :
  settled (promise s) = true -> promise (flush rq s) = promise s.
Proof.
  unfold flush.
  set (s0 := set_transport _ s).
  assert (H0 : promise s0 = promise s) by reflexivity.
  rewrite <- H0. clearbody s0. clear H0.
  revert s0. induction (pending (transport s)) as [|ev q IH]; intros s0 Hp.
  - reflexivity.
  - cbn [fold_left]. rewrite IH; rewrite handle_settled; auto.
Qed.

Lemma act_settled (a : Action) (s : State K) :
  settled (promise s) = true -> promise (act rq a s) = promise s.
Proof.
  intros Hp. unfold act. destruct a as [ev|].
  - rewrite flush_settled; rewrite handle_settled; auto.
  - rewrite flush_settled; rewrite cancellation_promise; auto.
Qed.

Lemma run_settled (acts : list Action) (s : State K) :
  settled (promise s) = true -> promise (run rq acts s) = promise s.
Proof.
  revert s. induction acts as [|a acts IH]; intros s Hp.
  - reflexivity.
  - cbn [run fold_left]. fold (run rq acts (act rq a s)).
    rewrite IH; rewrite act_settled; auto.
Qed.

Lemma changes_settled (acts : list Action) (s : State K) :
  settled (promise s) = true -> changes (promise s) (history rq acts s) = 0.
Proof.
  revert s. induction acts as [|a acts IH]; intros s Hp.
  - reflexivity.
  - cbn [history changes].
    assert (Hsame := act_settled a s Hp).
    destruct (Promise_eq_dec (promise s) (promise (act rq a s))) as [_|Hne].
    + apply IH. rewrite Hsame. exact Hp.
    + congruence.
Qed.

Lemma settle_twice (r1 r2 : Response) (e1 e2 : jserr) (s : State K) :
  resolve r2 (resolve r1 s) = resolve r1 s
  /\ reject e2 (resolve r1 s) = resolve r1 s
  /\ resolve r2 (reject e1 s) = reject e1 s
  /\ reject e2 (reject e1 s) = reject e1 s.
Proof.
  destruct s as [ca sa p r b g w t u].
  unfold resolve, reject, set_promise. cbn.
  destruct p; repeat split; reflexivity.
Qed.

(** C6: along every sequence of transport events and cancellations, started
    in any state of a streaming request, the promise changes state at most
    once; and a second [resolve] or [reject] leaves the whole state as the
    first one left it, raising nothing. *)
Theorem promise_settles_at_most_once (acts : list Action) (s : State K)
  (r1 r2 : Response) (e1 e2 : jserr) :
  changes (promise s) (history rq acts s) <= 1
  /\ resolve r2 (resolve r1 s) = resolve r1 s
  /\ reject e2 (resolve r1 s) = resolve r1 s
  /\ resolve r2 (reject e1 s) = reject e1 s
  /\ reject e2 (reject e1 s) = reject e1 s.
Proof.
  split; [|apply settle_twice].
  revert s. induction acts as [|a acts IH]; intros s.
  - cbn. lia.
  - cbn [history changes].
    destruct (Promise_eq_dec (promise s) (promise (act rq a s))) as [_|Hne].
    + apply IH.
    + destruct (settled (promise s)) eqn:Hp.
      * exfalso. apply Hne. symmetry. apply act_settled. exact Hp.
      * rewrite changes_settled; [lia|].
        destruct (promise s); [|discriminate|discriminate].
        destruct (promise (act rq a s)); [congruence|reflexivity|reflexivity].
Qed.

(** *** Cancellation *)

Lemma act_quiet (a : Action) (s : State K) : quiet s -> quiet (act rq a s).
Proof.
  unfold quiet.
  destruct s as [ca sa p r b g w [ra rd se q] u]. cbn. intros ->.
  destruct a as [ev|]; [destruct ev|]; unfold act, flush;
    repeat (open_handlers; split_handler); reflexivity.
Qed.

Lemma run_quiet (acts : list Action) (s : State K) :
  quiet s -> quiet (run rq acts s).
Proof.
  revert s. induction acts as [|a acts IH]; intros s Hs.
  - exact Hs.
  - cbn [run fold_left]. apply IH. apply act_quiet. exact Hs.
Qed.

Lemma cancellation_twice (s : State K) :
  cancellation (cancellation s) = cancellation s.
Proof.
  destruct s as [ca sa p r b g w [ra rd se q] u].
  unfold cancellation, request_abort. cbn. destruct ra; reflexivity.
Qed.

Lemma act_cancel_twice (s : State K) :
  quiet s -> act rq Cancel (act rq Cancel s) = act rq Cancel s.
Proof.
  unfold quiet.
  destruct s as [ca sa p r b g w [ra rd se q] u]. cbn. intros ->.
  unfold act, flush, cancellation, request_abort. cbn.
  destruct ra; reflexivity.
Qed.

Lemma act_cancel_keeps (s : State K) :
  quiet s ->
  promise (act rq Cancel s) = promise s
  /\ uncaught (act rq Cancel s) = uncaught s.
Proof.
  unfold quiet.
  destruct s as [ca sa p r b g w [ra rd se q] u]. cbn. intros ->.
  unfold act, flush, cancellation, request_abort. cbn.
  destruct ra; split; reflexivity.
Qed.

(** C9: in every state a streaming request can reach - also after the
    transport has delivered its last event - invoking the cancellation handle
    [N >= 1] times leaves the request exactly as one invocation does, whether
    the 'abort' event is emitted between the invocations or after them; an
    invocation adds no uncaught error and leaves the promise as it is. *)
Theorem cancellation_idempotent (acts : list Action) (N : nat) :
  1 <= N ->
  let s : State K := run rq acts init in
  Nat.iter N (act rq Cancel) s = act rq Cancel s
  /\ Nat.iter N cancellation s = cancellation s
  /\ promise (cancellation s) = promise s
  /\ uncaught (cancellation s) = uncaught s
  /\ promise (act rq Cancel s) = promise s
  /\ uncaught (act rq Cancel s) = uncaught s.
Proof.
  intros HN s.
  assert (Hq : quiet s) by (apply run_quiet; reflexivity).
  destruct N as [|n]; [lia|]. clear HN.
  split; [|split; [|split; [|split]]].
  - induction n as [|n IH]; [reflexivity|].
    change (Nat.iter (S (S n)) (act rq Cancel) s)
      with (act rq Cancel (Nat.iter (S n) (act rq Cancel) s)).
    rewrite IH. apply act_cancel_twice. exact Hq.
  - induction n as [|n IH]; [reflexivity|].
    change (Nat.iter (S (S n)) cancellation s)
      with (cancellation (Nat.iter (S n) cancellation s)).
    rewrite IH. apply cancellation_twice.
  - apply cancellation_promise.
  - unfold cancellation, request_abort.
    destruct (req_aborted (transport s)); reflexivity.
  - apply act_cancel_keeps. exact Hq.
Qed.

(** *** Eager delivery *)

(** C7, as the code has it: in eager mode ([async] true), when the response
    headers arrive with a status below 400 and the consumer's setup code
    reaches its first stop without raising, the promise is resolved with the
    response in the 'response' handler itself, and it stays resolved with it
    whatever is emitted or cancelled afterwards and whatever the consumer
    returns or throws. *)
Theorem eager_resolves_on_headers (r : Response) (later : list Action) :
  async rq = true -> (statusCode r < 400)%Z -> primes K = true ->
  let s1 : State K := act rq (Emit (EvResponse r)) init in
  promise s1 = Resolved r /\ promise (run rq later s1) = Resolved r.
Proof.
  intros Hasync Hstatus Hprimes s1.
  assert (H1 : promise s1 = Resolved r).
  { unfold s1, act, handle, on_response.
    rewrite Z.geb_leb, (proj2 (Z.leb_gt _ _)) by lia.
    unfold gen_next, call, create, primes in *. cbn.
    destruct (gstart K); [| |discriminate]; cbn; rewrite Hasync; reflexivity. }
  split; [exact H1|].
  rewrite run_settled; rewrite H1; reflexivity.
Qed.

(** *** The abort path in awaited mode *)

(** What the 'end' handler makes of the promise when it throws the abort
    fault into a suspended consumer in awaited mode: the promise is resolved
    when the consumer yields again, rejected when the fault leaves the
    consumer, and left as it is when the consumer returns. *)
Lemma on_end_abort_awaited (s : State K) (g : genobj K) (r : Response)
  (st : gstate K) :
  async rq = false -> gen s = Some g -> response s = Some r ->
  gstatus g = SuspendedYield st -> serverAbort s || clientAbort s = true ->
  promise (on_end rq s)
  = match gresume K st (Throw RequestAborted) with
    | Yielded _ _ => resolve_with r (promise s)
    | Returned _ => promise s
    | Thrown e => reject_with e (promise s)
    end.
Proof.
  destruct s as [ca sa p r0 b g0 w t u], g as [status cs rs].
  cbn. intros Hasync -> -> -> Habort.
  unfold on_end. cbn. rewrite Hasync. cbn.
  rewrite andb_true_r, Habort.
  unfold gen_throw, call. cbn.
  destruct (gresume K st (Throw RequestAborted)) as [v st'|v|e]; cbn;
    unfold finalize, gen_return, call; cbn;
    try (destruct (settle _) as [st2 [e2|it2]]); reflexivity.
Qed.

(** *** What each handler does to the consumer *)

(** The events that belong to a streaming response once its handlers are
    registered. *)
Lemma handle_pending (ev : Event) (s : State K) :
  match ev with EvResponse _ | EvUpgrade _ => False | _ => True end ->
  pending (transport (handle rq ev s)) = pending (transport s).
Proof.
  destruct s as [ca sa p r b g w t u].
  destruct ev; intros H; try contradiction;
    open_handlers; split_handler; reflexivity.
Qed.

Lemma act_emit (ev : Event) (s : State K) :
  match ev with EvResponse _ | EvUpgrade _ => False | _ => True end ->
  quiet s -> act rq (Emit ev) s = handle rq ev s.
Proof.
  intros Hev Hq. unfold act. apply flush_idle.
  rewrite handle_pending by exact Hev. exact Hq.
Qed.

Lemma handle_response_field (ev : Event) (s : State K) :
  match ev with EvResponse _ | EvUpgrade _ => False | _ => True end ->
  response (handle rq ev s) = response s.
Proof.
  destruct s as [ca sa p r b g w t u].
  destruct ev; intros H; try contradiction;
    open_handlers; split_handler; reflexivity.
Qed.

Lemma handle_gen_other (ev : Event) (s : State K) :
  match ev with
  | EvResponse _ | EvData _ | EvEnd => False
  | _ => True
  end ->
  gen (handle rq ev s) = gen s.
Proof.
  destruct s as [ca sa p r b g w t u].
  destruct ev; intros H; try contradiction;
    open_handlers; split_handler; reflexivity.
Qed.

Lemma act_cancel_fields (s : State K) :
  quiet s ->
  gen (act rq Cancel s) = gen s /\ response (act rq Cancel s) = response s.
Proof.
  unfold quiet.
  destruct s as [ca sa p r b g w [ra rd se q] u]. cbn. intros ->.
  unfold act, flush, cancellation, request_abort. cbn.
  destruct ra; split; reflexivity.
Qed.

Lemma act_upgrade_gen (r : Response) (s : State K) :
  quiet s -> gen (act rq (Emit (EvUpgrade r)) s) = gen s.
Proof.
  unfold quiet.
  destruct s as [ca sa p r0 b g w [ra rd se q] u]. cbn. intros ->.
  unfold act, flush. repeat (open_handlers; split_handler); reflexivity.
Qed.

Lemma on_data_gen (chunk : Buffer) (s : State K) (g : genobj K) (r : Response) :
  gen s = Some g -> response s = Some r ->
  gen (on_data chunk s) = Some (fst (gen_next g (Some chunk))).
Proof.
  destruct s as [ca sa p r0 b g0 w t u]. cbn. intros -> ->.
  unfold on_data. cbn.
  destruct (gen_next g (Some chunk)) as [g1 [e|it]]; cbn; [reflexivity|].
  destruct (done it); reflexivity.
Qed.

Lemma on_data_idle (chunk : Buffer) (s : State K) :
  response s = None -> on_data chunk s = s.
Proof.
  unfold on_data. intros ->. destruct (gen s); reflexivity.
Qed.

Lemma finalize_gen (s : State K) (g : genobj K) :
  gen s = Some g -> gen (finalize s) = Some (fst (gen_return g)).
Proof.
  destruct s as [ca sa p r0 b g0 w t u]. cbn. intros ->.
  unfold finalize. cbn.
  destruct (gen_return g) as [g1 [e|it]]; reflexivity.
Qed.

(** The generator object the 'end' handler leaves behind: the terminal call
    chosen from the abort flags, then [gen.return()] - which is not reached
    when [gen.next()] raises. *)
Lemma on_end_gen (s : State K) (g : genobj K) (r : Response) :
  gen s = Some g -> response s = Some r ->
  gen (on_end rq s)
  = Some match terminal rq s with
         | [] => fst (call g Return)
         | sig :: _ =>
             match sig, snd (call g sig) with
             | Next _, inl _ => fst (call g sig)
             | _, _ => fst (call (fst (call g sig)) Return)
             end
         end.
Proof.
  destruct s as [ca sa p r0 b g0 w t u]. cbn. intros -> ->.
  unfold on_end, terminal. cbn [gen response serverAbort clientAbort].
  destruct (sa || ca && negb (async rq)).
  - unfold gen_throw.
    destruct (call g (Throw RequestAborted)) as [g1 [e|it]]; cbn [fst snd].
    + destruct (negb (async rq)); apply finalize_gen; reflexivity.
    + destruct (negb (async rq) && negb (done it)); apply finalize_gen;
        reflexivity.
  - destruct (negb (ca && async rq)).
    + unfold gen_next.
      destruct (call g (Next None)) as [g1 [e|it]]; cbn [fst snd];
        [reflexivity|].
      destruct (negb (async rq) && negb (done it)); apply finalize_gen;
        reflexivity.
    + apply finalize_gen. reflexivity.
Qed.

(** *** The order of calls on the consumer *)

Lemma chunks_of_cons (a : Action) (acts : list Action) :
  chunks_of (a :: acts) = chunks_of [a] ++ chunks_of acts.
Proof.
  destruct a as [ev|]; [destruct ev|]; reflexivity.
Qed.

Lemma mid_stream_act (a : Action) (s : State K) (g : genobj K) (r : Response) :
  mid_stream a = true -> gen s = Some g -> response s = Some r -> quiet s ->
  exists g',
    gen (act rq a s) = Some g'
    /\ calls g' = calls g ++ map (fun c => Next (Some c)) (chunks_of [a])
    /\ response (act rq a s) = Some r.
Proof.
  intros Ha Hg Hr Hq.
  destruct a as [ev|].
  - destruct ev as [r'|r'|e| | |c| |blk|]; try discriminate Ha;
      rewrite act_emit by (exact I || exact Hq);
      rewrite handle_response_field by exact I.
    + exists g. rewrite handle_gen_other by exact I.
      cbn. rewrite app_nil_r. auto.
    + exists g. rewrite handle_gen_other by exact I.
      cbn. rewrite app_nil_r. auto.
    + exists g. rewrite handle_gen_other by exact I.
      cbn. rewrite app_nil_r. auto.
    + exists (fst (gen_next g (Some c))).
      cbn [handle]. rewrite (on_data_gen c s g r Hg Hr).
      unfold gen_next. rewrite GeneratorFacts.call_calls. auto.
  - destruct (act_cancel_fields s Hq) as [Hg' Hr'].
    exists g. rewrite Hg', Hr'. cbn. rewrite app_nil_r. auto.
Qed.

Lemma mid_stream_run (acts : list Action) :
  forallb mid_stream acts = true ->
  forall (s : State K) (g : genobj K) (r : Response),
    gen s = Some g -> response s = Some r -> quiet s ->
    exists g',
      gen (run rq acts s) = Some g'
      /\ calls g' = calls g ++ map (fun c => Next (Some c)) (chunks_of acts)
      /\ response (run rq acts s) = Some r.
Proof.
  induction acts as [|a acts IH]; intros Hacts s g r Hg Hr Hq.
  - exists g. cbn. rewrite app_nil_r. auto.
  - cbn [forallb] in Hacts. apply andb_prop in Hacts as [Ha Hacts].
    destruct (mid_stream_act a s g r Ha Hg Hr Hq) as (g1 & Hg1 & Hc1 & Hr1).
    destruct (IH Hacts (act rq a s) g1 r Hg1 Hr1 (act_quiet a s Hq))
      as (g2 & Hg2 & Hc2 & Hr2).
    exists g2. cbn [run fold_left]. fold (run rq acts (act rq a s)).
    repeat split; [exact Hg2| |exact Hr2].
    rewrite Hc2, Hc1, (chunks_of_cons a acts), map_app, app_assoc. reflexivity.
Qed.

(** The state the 'response' handler leaves when the response passes the
    status gate and the consumer's setup code does not raise. *)
Lemma response_registers (r : Response) :
  (statusCode r < 400)%Z -> primes K = true ->
  let s0 : State K := act rq (Emit (EvResponse r)) init in
  gen s0 = Some (primed K) /\ response s0 = Some r /\ quiet s0
  /\ promise s0 = (if async rq then Resolved r else Pending)
  /\ body s0 = None.
Proof.
  intros Hstatus Hprimes s0. unfold s0, act, handle, on_response, quiet.
  rewrite Z.geb_leb, (proj2 (Z.leb_gt _ _)) by lia.
  unfold primed, gen_next, call, create, primes in *. cbn.
  destruct (gstart K); [| |discriminate]; cbn;
    destruct (async rq); repeat split; reflexivity.
Qed.

Lemma terminal_cases (s : State K) :
  terminal rq s = [Throw RequestAborted] \/ terminal rq s = [Next None]
  \/ terminal rq s = [].
Proof.
  unfold terminal.
  destruct (serverAbort s || clientAbort s && negb (async rq)); [auto|].
  destruct (negb (clientAbort s && async rq)); auto.
Qed.

(** C1, as the code has it, for a streaming response that passed the status
    gate and whose consumer was primed without raising.  When the 'end' event
    arrives, the calls made on the consumer so far are the priming call and
    one [next(chunk)] per 'data' event, in arrival order.  The 'end' handler
    adds the terminal call chosen from the two abort flags - the abort fault
    when [serverAbort] is set or when [clientAbort] is set in awaited mode, no
    call at all when [clientAbort] is set in eager mode, the end-of-stream
    [next()] otherwise - and then [gen.return()].  The disposal is left out
    in one case only: when the terminal call is the end-of-stream [next()]
    and that call raises; a consumer that returns or yields on it, or that
    gets the abort fault, is disposed of. *)
Theorem consumer_call_order (r : Response) (acts : list Action) :
  (statusCode r < 400)%Z -> primes K = true ->
  forallb mid_stream acts = true ->
  let s : State K := run rq (Emit (EvResponse r) :: acts) init in
  let s' := act rq (Emit EvEnd) s in
  exists (g0 g : genobj K) (fin : list signal),
    gen s = Some g0
    /\ calls g0 = Next None :: map (fun c => Next (Some c)) (chunks_of acts)
    /\ gen s' = Some g
    /\ calls g = calls g0 ++ terminal rq s ++ fin
    /\ (terminal rq s = [Next None] /\ end_raises g0 = true -> fin = [])
    /\ (terminal rq s <> [Next None] \/ end_raises g0 = false -> fin = [Return]).
Proof.
  intros Hstatus Hprimes Hacts s s'.
  destruct (response_registers r Hstatus Hprimes) as (Hg0 & Hr0 & Hq0 & _).
  destruct (mid_stream_run acts Hacts _ _ _ Hg0 Hr0 Hq0) as (g & Hg & Hc & Hr).
  assert (Hq : quiet s) by (apply (run_quiet acts); exact Hq0).
  change (run rq acts (act rq (Emit (EvResponse r)) init)) with s in Hg, Hr.
  assert (Hc0 : calls (primed K) = [Next None])
    by (unfold primed, gen_next; rewrite GeneratorFacts.call_calls; reflexivity).
  rewrite Hc0 in Hc. cbn [app] in Hc.
  assert (Hend : gen s' = Some match terminal rq s with
         | [] => fst (call g Return)
         | sig :: _ =>
             match sig, snd (call g sig) with
             | Next _, inl _ => fst (call g sig)
             | _, _ => fst (call (fst (call g sig)) Return)
             end
         end).
  { unfold s'. rewrite act_emit by (exact I || exact Hq). cbn [handle].
    apply (on_end_gen s g r Hg Hr). }
  exists g.
  destruct (terminal_cases s) as [Ht|[Ht|Ht]]; rewrite Ht in Hend |- *.
  - (* the abort fault *)
    exists (fst (call (fst (call g (Throw RequestAborted))) Return)), [Return].
    repeat split; try assumption.
    + rewrite !GeneratorFacts.call_calls, <- app_assoc. reflexivity.
    + intros [Hno _]. discriminate Hno.
  - (* the end-of-stream resume *)
    unfold end_raises, gen_next.
    destruct (snd (call g (Next None))) as [e|it] eqn:Hres.
    + exists (fst (call g (Next None))), [].
      repeat split; try assumption.
      * rewrite GeneratorFacts.call_calls, app_nil_r. reflexivity.
      * intros [Hno|Hno]; [contradiction Hno; reflexivity | discriminate Hno].
    + exists (fst (call (fst (call g (Next None))) Return)), [Return].
      repeat split; try assumption.
      * rewrite !GeneratorFacts.call_calls, <- app_assoc. reflexivity.
      * intros [_ Hno]. discriminate Hno.
  - (* no terminal call *)
    exists (fst (call g Return)), [Return].
    repeat split; try assumption.
    + rewrite GeneratorFacts.call_calls. reflexivity.
    + intros [Hno _]. discriminate Hno.
Qed.

(** *** A consumer that finishes on a chunk *)

Lemma set_gen_same (s : State K) (g : genobj K) :
  gen s = Some g -> set_gen (Some g) s = s.
Proof.
  destruct s as [ca sa p r b g0 w t u]. cbn. intros ->. reflexivity.
Qed.

Lemma run_app (acts1 acts2 : list Action) (s : State K) :
  run rq (acts1 ++ acts2) s = run rq acts2 (run rq acts1 s).
Proof. unfold run. apply fold_left_app. Qed.

(** While the consumer keeps yielding, a 'data' event only moves the
    generator on. *)
Lemma data_run (pre : list Buffer) :
  forall (s : State K) (g : genobj K) (r : Response) (st : gstate K),
    gen s = Some g -> response s = Some r -> quiet s ->
    gstatus (feed g pre) = SuspendedYield st ->
    run rq (map (fun c => Emit (EvData c)) pre) s
    = set_gen (Some (feed g pre)) s.
Proof.
  induction pre as [|c rest IH]; intros s g r st Hg Hr Hq Hst.
  - cbn. symmetry. apply set_gen_same. exact Hg.
  - destruct (GeneratorFacts.feed_live g c rest st Hst) as [st1 H1].
    destruct (GeneratorFacts.call_suspended g _ st1 H1) as [[v Hres] _].
    assert (Hstep : act rq (Emit (EvData c)) s
                    = set_gen (Some (fst (gen_next g (Some c)))) s).
    { rewrite act_emit by (exact I || exact Hq).
      destruct s as [ca sa p r0 b g0 w t u]. cbn in Hg, Hr. subst g0 r0.
      cbn [handle]. unfold on_data. cbn [gen response].
      unfold gen_next in *.
      destruct (call g (Next (Some c))) as [g1 res]. cbn in Hres. subst res.
      reflexivity. }
    cbn [map run fold_left].
    fold (run rq (map (fun c => Emit (EvData c)) rest) (act rq (Emit (EvData c)) s)).
    rewrite Hstep.
    rewrite (IH _ (fst (gen_next g (Some c))) r st);
      [ destruct s; reflexivity | reflexivity | destruct s; exact Hr
      | destruct s; exact Hq | exact Hst ].
Qed.

Lemma on_end_idle (s : State K) : response s = None -> on_end rq s = s.
Proof.
  unfold on_end. intros ->. destruct (gen s); reflexivity.
Qed.

(** Once the consumer has completed, nothing that happens to the request
    reaches its body again. *)
Lemma completed_act (a : Action) (s : State K) (g : genobj K) :
  quiet s -> no_response a = true -> gen s = Some g ->
  gstatus g = Completed ->
  exists g',
    gen (act rq a s) = Some g' /\ gstatus g' = Completed
    /\ received g' = received g.
Proof.
  intros Hq Ha Hg Hst.
  assert (Hcall : forall sig,
             gstatus (fst (call g sig)) = Completed
             /\ received (fst (call g sig)) = received g)
    by (intros sig; apply GeneratorFacts.call_completed; exact Hst).
  assert (Hcall2 : forall sig1 sig2,
             gstatus (fst (call (fst (call g sig1)) sig2)) = Completed
             /\ received (fst (call (fst (call g sig1)) sig2)) = received g).
  { intros sig1 sig2. destruct (Hcall sig1) as [H1 H2].
    destruct (GeneratorFacts.call_completed (fst (call g sig1)) sig2 H1)
      as [H3 H4].
    split; [exact H3 | congruence]. }
  destruct a as [ev|].
  - destruct ev as [r'|r'|e| | |c| |blk|]; try discriminate Ha.
    + exists g. rewrite act_upgrade_gen by exact Hq. auto.
    + exists g. rewrite act_emit, handle_gen_other by (exact I || exact Hq). auto.
    + exists g. rewrite act_emit, handle_gen_other by (exact I || exact Hq). auto.
    + exists g. rewrite act_emit, handle_gen_other by (exact I || exact Hq). auto.
    + rewrite act_emit by (exact I || exact Hq). cbn [handle].
      destruct (response s) as [r|] eqn:Hr.
      * rewrite (on_data_gen c s g r Hg Hr). eexists. split; [reflexivity|].
        apply Hcall.
      * rewrite on_data_idle by exact Hr. exists g. auto.
    + rewrite act_emit by (exact I || exact Hq). cbn [handle].
      destruct (response s) as [r|] eqn:Hr.
      * rewrite (on_end_gen s g r Hg Hr). eexists. split; [reflexivity|].
        destruct (terminal rq s) as [|sig tl]; [apply Hcall|].
        destruct sig as [x|e|]; try apply Hcall2.
        destruct (snd (call g (Next x))); [apply Hcall | apply Hcall2].
      * rewrite on_end_idle by exact Hr. exists g. auto.
    + exists g. rewrite act_emit, handle_gen_other by (exact I || exact Hq). auto.
    + exists g. rewrite act_emit, handle_gen_other by (exact I || exact Hq). auto.
  - exists g. rewrite (proj1 (act_cancel_fields s Hq)). auto.
Qed.

Lemma completed_run (acts : list Action) :
  forallb no_response acts = true ->
  forall (s : State K) (g : genobj K),
    quiet s -> gen s = Some g -> gstatus g = Completed ->
    exists g',
      gen (run rq acts s) = Some g' /\ gstatus g' = Completed
      /\ received g' = received g.
Proof.
  induction acts as [|a acts IH]; intros Hacts s g Hq Hg Hst.
  - exists g. auto.
  - cbn [forallb] in Hacts. apply andb_prop in Hacts as [Ha Hacts].
    destruct (completed_act a s g Hq Ha Hg Hst) as (g1 & Hg1 & Hst1 & Hr1).
    destruct (IH Hacts (act rq a s) g1 (act_quiet a s Hq) Hg1 Hst1)
      as (g2 & Hg2 & Hst2 & Hr2).
    exists g2. cbn [run fold_left]. fold (run rq acts (act rq a s)).
    repeat split; [exact Hg2 | exact Hst2 | congruence].
Qed.

(** The part of C4 that the code bears out: in awaited mode ([async] false),
    when the consumer yields on the chunks [pre] and returns [v] on being
    resumed with the next chunk [c], the 'data' handler of that chunk stores
    [v] in [response.body], resolves the promise with the response and
    destroys the response; the body of the consumer has by then been resumed
    with the priming call and those chunks only, and whatever the transport
    still emits - more 'data' events included - or the caller cancels, it is
    never resumed again and the promise stays resolved with the response. *)
Lemma awaited_finishing_chunk_resolves (r : Response) (pre : list Buffer)
  (c : Buffer) (st : gstate K) (v : jsval) (later : list Action) :
  async rq = false -> (statusCode r < 400)%Z ->
  gstatus (feed (primed K) pre) = SuspendedYield st ->
  gresume K st (Next (Some c)) = Returned v ->
  forallb no_response later = true ->
  let s1 : State K :=
    run rq (Emit (EvResponse r) :: map (fun x => Emit (EvData x)) (pre ++ [c]))
        init in
  promise s1 = Resolved r
  /\ body s1 = Some v
  /\ res_destroyed (transport s1) = true
  /\ option_map received (gen s1)
     = Some (Next None :: map (fun x => Next (Some x)) (pre ++ [c]))
  /\ option_map received (gen (run rq later s1)) = option_map received (gen s1)
  /\ promise (run rq later s1) = Resolved r.
Proof.
  intros Hasync Hstatus Hpre Hret Hlater s1.
  (* the setup code reached its first [yield] *)
  assert (Hstart : exists v0 st0, gstart K = Yielded v0 st0).
  { destruct (gstart K) as [v0 st0|v0|e0] eqn:E; [eauto| |];
      exfalso;
      assert (Hdone : gstatus (primed K) = Completed)
        by (unfold primed, gen_next, call, create; cbn; rewrite E; reflexivity);
      apply (GeneratorFacts.feed_completed _ pre) in Hdone; congruence. }
  destruct Hstart as (v0 & st0 & Hstart).
  assert (Hprimes : primes K = true) by (unfold primes; rewrite Hstart; reflexivity).
  assert (Hrec0 : received (primed K) = [Next None])
    by (unfold primed, gen_next, call, create; cbn; rewrite Hstart; reflexivity).
  destruct (response_registers r Hstatus Hprimes) as (Hg0 & Hr0 & Hq0 & Hp0 & Hb0).
  rewrite Hasync in Hp0.
  (* the chunks on which the consumer yields *)
  assert (Hs1 : s1 = act rq (Emit (EvData c))
                       (set_gen (Some (feed (primed K) pre))
                                (act rq (Emit (EvResponse r)) init))).
  { unfold s1. cbn [run fold_left].
    fold (run rq (map (fun x => Emit (EvData x)) (pre ++ [c]))
              (act rq (Emit (EvResponse r)) (@init K))).
    rewrite map_app, run_app.
    rewrite (data_run pre _ _ r st Hg0 Hr0 Hq0 Hpre). reflexivity. }
  remember (act rq (Emit (EvResponse r)) init) as s0 eqn:Es0.
  destruct s0 as [ca sa p r0 b g0 w [ra rd se q] u].
  unfold quiet in Hq0. cbn in Hg0, Hr0, Hq0, Hp0, Hb0. subst g0 r0 q p b.
  remember (feed (primed K) pre) as gp eqn:Egp.
  assert (Hrecp : received gp
                  = Next None :: map (fun x => Next (Some x)) pre).
  { rewrite Egp, (GeneratorFacts.feed_received pre _ st), Hrec0 by
      (rewrite <- Egp; exact Hpre). reflexivity. }
  destruct gp as [status cs rs]. cbn in Hpre, Hrecp. subst status rs.
  (* the chunk on which it returns *)
  assert (Hfinal : s1
    = mkState ca sa (Resolved r) (Some r) (Some v)
        (Some (mkGen Completed (cs ++ [Next (Some c)])
                 ((Next None :: map (fun x => Next (Some x)) pre)
                    ++ [Next (Some c)])))
        w (mkTransport ra true se []) u).
  { rewrite Hs1. unfold act, flush, handle, on_data, set_gen.
    cbn [gen response]. unfold gen_next, call. cbn [gstatus].
    rewrite Hret. reflexivity. }
  rewrite Hfinal.
  assert (Hq1 : quiet (mkState ca sa (Resolved r) (Some r) (Some v)
        (Some (mkGen Completed (cs ++ [Next (Some c)])
                 ((Next None :: map (fun x => Next (Some x)) pre)
                    ++ [Next (Some c)])))
        w (mkTransport ra true se []) u)) by reflexivity.
  destruct (completed_run later Hlater _ _ Hq1 eq_refl eq_refl)
    as (g2 & Hg2 & _ & Hrec2).
  repeat split.
  - cbn. rewrite map_app. reflexivity.
  - rewrite Hg2. cbn. rewrite Hrec2. reflexivity.
  - rewrite run_settled; reflexivity.
Qed.

Lemma feed_calls (chunks : list Buffer) (g : genobj K) :
  calls (feed g chunks) = calls g ++ map (fun c => Next (Some c)) chunks.
Proof.
  revert g. induction chunks as [|c rest IH]; intros g.
  - cbn. rewrite app_nil_r. reflexivity.
  - rewrite GeneratorFacts.feed_cons, IH. unfold gen_next.
    rewrite GeneratorFacts.call_calls, <- app_assoc. reflexivity.
Qed.

(** The state of an awaited request once its consumer has returned [v] on the
    chunk [c], after yielding on the chunks [pre]. *)
Lemma finishing_chunk_state (r : Response) (pre : list Buffer) (c : Buffer)
  (st : gstate K) (v : jsval) :
  async rq = false -> (statusCode r < 400)%Z ->
  gstatus (feed (primed K) pre) = SuspendedYield st ->
  gresume K st (Next (Some c)) = Returned v ->
  run rq (Emit (EvResponse r) :: map (fun x => Emit (EvData x)) (pre ++ [c]))
      (@init K)
  = mkState false false (Resolved r) (Some r) (Some v)
      (Some (mkGen Completed
               (Next None :: map (fun x => Next (Some x)) (pre ++ [c]))
               (Next None :: map (fun x => Next (Some x)) (pre ++ [c]))))
      None (mkTransport false true false []) [].
Proof.
  intros Hasync Hstatus Hpre Hret.
  assert (Hstart : exists v0 st0, gstart K = Yielded v0 st0).
  { destruct (gstart K) as [v0 st0|v0|e0] eqn:E; [eauto| |];
      exfalso;
      assert (Hdone : gstatus (primed K) = Completed)
        by (unfold primed, gen_next, call, create; cbn; rewrite E; reflexivity);
      apply (GeneratorFacts.feed_completed _ pre) in Hdone; congruence. }
  destruct Hstart as (v0 & st0 & Hstart).
  assert (Hprimes : primes K = true) by (unfold primes; rewrite Hstart; reflexivity).
  assert (Hprimed : primed K = mkGen (SuspendedYield st0) [Next None] [Next None])
    by (unfold primed, gen_next, call, create; cbn; rewrite Hstart; reflexivity).
  destruct (response_registers r Hstatus Hprimes) as (Hg0 & Hr0 & Hq0 & _).
  assert (Hs0 : act rq (Emit (EvResponse r)) init
                = mkState false false Pending (Some r) None (Some (primed K))
                    None (mkTransport false false false []) []).
  { unfold act, flush, handle, on_response.
    rewrite Z.geb_leb, (proj2 (Z.leb_gt _ _)) by lia.
    rewrite Hprimed. unfold gen_next, call, create. cbn. rewrite Hstart. cbn.
    rewrite Hasync. reflexivity. }
  cbn [run fold_left].
  fold (run rq (map (fun x => Emit (EvData x)) (pre ++ [c]))
            (act rq (Emit (EvResponse r)) (@init K))).
  rewrite map_app, run_app.
  rewrite (data_run pre _ _ r st Hg0 Hr0 Hq0 Hpre).
  rewrite Hs0.
  assert (Hrec : received (feed (primed K) pre)
                 = Next None :: map (fun x => Next (Some x)) pre).
  { rewrite (GeneratorFacts.feed_received pre _ st Hpre), Hprimed. reflexivity. }
  assert (Hcalls : calls (feed (primed K) pre)
                   = Next None :: map (fun x => Next (Some x)) pre).
  { rewrite feed_calls, Hprimed. reflexivity. }
  destruct (feed (primed K) pre) as [status cs rs].
  cbn in Hpre, Hrec, Hcalls. subst status rs cs.
  cbn [map run fold_left]. unfold act, flush, handle, on_data, set_gen.
  cbn [gen response]. unfold gen_next, call. cbn [gstatus].
  rewrite Hret. cbn. rewrite !map_app. reflexivity.
Qed.

(** C4 on the code: in awaited mode, when the consumer yields on the chunks
    [pre] and returns [v] on the next chunk [c], the 'data' handler stores [v]
    in [response.body], resolves the promise with the response and destroys
    the response - but it stays registered and does not test whether the
    consumer is done.  A chunk [d] that was in flight and is emitted after
    that is passed to [gen.next]; the completed generator ignores it and
    answers [{value: undefined, done: true}], and the handler stores that
    [undefined] in the body of the response the promise was resolved with.
    The chunk is not dropped, and the body is no longer [v]. *)
Theorem in_flight_chunk_overwrites_body (r : Response) (pre : list Buffer)
  (c d : Buffer) (st : gstate K) (v : jsval) :
  async rq = false -> (statusCode r < 400)%Z ->
  gstatus (feed (primed K) pre) = SuspendedYield st ->
  gresume K st (Next (Some c)) = Returned v ->
  let s1 : State K :=
    run rq (Emit (EvResponse r) :: map (fun x => Emit (EvData x)) (pre ++ [c]))
        init in
  let s2 := act rq (Emit (EvData d)) s1 in
  promise s1 = Resolved r
  /\ body s1 = Some v
  /\ res_destroyed (transport s1) = true
  /\ promise s2 = Resolved r
  /\ body s2 = Some VUndefined
  /\ option_map calls (gen s2)
     = Some (Next None :: map (fun x => Next (Some x)) (pre ++ [c; d]))
  /\ option_map received (gen s2)
     = Some (Next None :: map (fun x => Next (Some x)) (pre ++ [c])).
Proof.
  intros Hasync Hstatus Hpre Hret s1 s2.
  unfold s2, s1.
  rewrite (finishing_chunk_state r pre c st v Hasync Hstatus Hpre Hret).
  cbn. repeat split.
  rewrite !map_app. cbn [map]. rewrite <- app_assoc. reflexivity.
Qed.

End Driver.

(** A watch whose server tears the connection down after two chunks. *)
Lemma consumer_call_order_witness :
  let rq := mkRequest HttpThen "/api/v1/watch/pods" true in
  let r := mkResponse 200 [] in
  let acts := [Emit (EvData [1]%Z); Emit (EvData [2]%Z); Emit EvAborted] in
  let s : State Consumers.sink := run rq (Emit (EvResponse r) :: acts) init in
  let s' := act rq (Emit EvEnd) s in
  exists (g0 g : genobj Consumers.sink) (fin : list signal),
    gen s = Some g0
    /\ calls g0 = Next None :: map (fun c => Next (Some c)) (chunks_of acts)
    /\ gen s' = Some g
    /\ calls g = calls g0 ++ terminal rq s ++ fin
    /\ (terminal rq s = [Next None] /\ end_raises g0 = true -> fin = [])
    /\ (terminal rq s <> [Next None] \/ end_raises g0 = false -> fin = [Return]).
Proof.
  apply (consumer_call_order (mkRequest HttpThen "/api/v1/watch/pods" true)
           (mkResponse 200 [])
           [Emit (EvData [1]%Z); Emit (EvData [2]%Z); Emit EvAborted]).
  - simpl. lia.
  - reflexivity.
  - reflexivity.
Defined.

(** A consumer that returns on the end-of-stream [next()] is disposed of, and
    one that throws on it is not. *)
Example graceful_end_disposal :
  let acts := [Emit (EvResponse (mkResponse 200 [])); Emit (EvData [1]%Z);
               Emit EvEnd] in
  let s1 : State Consumers.sink := run (mkRequest HttpThen "/logs" true) acts init in
  let s2 : State Consumers.failing_end :=
    run (mkRequest HttpThen "/logs" true) acts init in
  option_map calls (gen s1)
  = Some [Next None; Next (Some [1]%Z); Next None; Return]
  /\ option_map calls (gen s2) = Some [Next None; Next (Some [1]%Z); Next None]
  /\ uncaught s2 = [ConsumerError "end failed"].
Proof. repeat split; reflexivity. Qed.

(** C1, as stated, fails when the caller cancels an eager request: the 'end'
    handler makes neither the end-of-stream call nor the abort call, in both
    copies of [getStream]; the consumer is primed, fed and disposed of. *)
Lemma eager_cancel_skips_terminal_call :
  let r := mkResponse 200 [] in
  let acts := [Emit (EvResponse r); Emit (EvData [1]%Z); Cancel; Emit EvEnd] in
  let s1 : State Consumers.sink :=
    run (mkRequest HttpThen "/logs" true) acts init in
  let s2 : State Consumers.sink :=
    run (mkRequest Kubik "/logs" true) acts init in
  option_map calls (gen s1) = Some [Next None; Next (Some [1]%Z); Return]
  /\ option_map calls (gen s2) = Some [Next None; Next (Some [1]%Z); Return]
  /\ strict_order [Next None; Next (Some [1]%Z); Return] = false.
Proof. repeat split; reflexivity. Qed.

(** Scenario C: a consumer that returns "done" on its third chunk. *)
Lemma awaited_finishing_chunk_resolves_witness :
  let rq := mkRequest HttpThen "/logs" false in
  let r := mkResponse 200 [] in
  let pre := [[1]; [2]]%Z in
  let c := [3]%Z in
  let later := [Emit (EvData [4]%Z); Emit EvAborted; Emit EvEnd] in
  let s1 : State (Consumers.take 3 (VString "done")) :=
    run rq (Emit (EvResponse r) :: map (fun x => Emit (EvData x)) (pre ++ [c]))
        init in
  promise s1 = Resolved r
  /\ body s1 = Some (VString "done")
  /\ res_destroyed (transport s1) = true
  /\ option_map received (gen s1)
     = Some (Next None :: map (fun x => Next (Some x)) (pre ++ [c]))
  /\ option_map received (gen (run rq later s1)) = option_map received (gen s1)
  /\ promise (run rq later s1) = Resolved r.
Proof.
  apply (@awaited_finishing_chunk_resolves (Consumers.take 3 (VString "done"))
           (mkRequest HttpThen "/logs" false) (mkResponse 200 [])
           [[1]; [2]]%Z [3]%Z 2 (VString "done")
           [Emit (EvData [4]%Z); Emit EvAborted; Emit EvEnd]).
  - reflexivity.
  - simpl. lia.
  - reflexivity.
  - reflexivity.
  - reflexivity.
Defined.

(** Scenario C with a fourth chunk in flight. *)
Lemma in_flight_chunk_overwrites_body_witness :
  let rq := mkRequest HttpThen "/logs" false in
  let r := mkResponse 200 [] in
  let pre := [[1]; [2]]%Z in
  let c := [3]%Z in
  let d := [4]%Z in
  let s1 : State (Consumers.take 3 (VString "done")) :=
    run rq (Emit (EvResponse r) :: map (fun x => Emit (EvData x)) (pre ++ [c]))
        init in
  let s2 := act rq (Emit (EvData d)) s1 in
  promise s1 = Resolved r
  /\ body s1 = Some (VString "done")
  /\ res_destroyed (transport s1) = true
  /\ promise s2 = Resolved r
  /\ body s2 = Some VUndefined
  /\ option_map calls (gen s2)
     = Some (Next None :: map (fun x => Next (Some x)) (pre ++ [c; d]))
  /\ option_map received (gen s2)
     = Some (Next None :: map (fun x => Next (Some x)) (pre ++ [c])).
Proof.
  apply (@in_flight_chunk_overwrites_body (Consumers.take 3 (VString "done"))
           (mkRequest HttpThen "/logs" false) (mkResponse 200 [])
           [[1]; [2]]%Z [3]%Z [4]%Z 2 (VString "done")).
  - reflexivity.
  - simpl. lia.
  - reflexivity.
  - reflexivity.
Defined.

Lemma cancellation_idempotent_witness :
  let rq := mkRequest HttpThen "/logs" true in
  let s : State Consumers.sink :=
    run rq [Emit (EvResponse (mkResponse 200 [])); Emit (EvData [1]%Z);
            Emit EvEnd] init in
  Nat.iter 3 (act rq Cancel) s = act rq Cancel s
  /\ Nat.iter 3 cancellation s = cancellation s
  /\ promise (cancellation s) = promise s
  /\ uncaught (cancellation s) = uncaught s
  /\ promise (act rq Cancel s) = promise s
  /\ uncaught (act rq Cancel s) = uncaught s.
Proof.
  apply (@cancellation_idempotent Consumers.sink
           (mkRequest HttpThen "/logs" true)
           [Emit (EvResponse (mkResponse 200 [])); Emit (EvData [1]%Z);
            Emit EvEnd] 3).
  lia.
Defined.

Lemma eager_resolves_on_headers_witness :
  let rq := mkRequest HttpThen "/api/v1/watch/pods" true in
  let r := mkResponse 200 [] in
  let later := [Emit (EvData [1]%Z); Emit EvAborted; Emit EvEnd] in
  let s1 : State Consumers.sink := act rq (Emit (EvResponse r)) init in
  promise s1 = Resolved r /\ promise (run rq later s1) = Resolved r.
Proof.
  apply (eager_resolves_on_headers
           (mkRequest HttpThen "/api/v1/watch/pods" true) (mkResponse 200 [])
           [Emit (EvData [1]%Z); Emit EvAborted; Emit EvEnd]).
  - reflexivity.
  - simpl. lia.
  - reflexivity.
Defined.

(** C7, as stated, fails for a consumer whose setup code throws: the
    exception leaves the 'response' handler before [resolve] is reached, in
    both copies of [getStream]. *)
Lemma eager_setup_fault_leaves_promise_pending :
  let r := mkResponse 200 [] in
  let s1 : State Consumers.broken_setup :=
    act (mkRequest HttpThen "/api/v1/watch/pods" true) (Emit (EvResponse r)) init in
  let s2 : State Consumers.broken_setup :=
    act (mkRequest Kubik "/api/v1/watch/pods" true) (Emit (EvResponse r)) init in
  promise s1 = Pending
  /\ uncaught s1 = [ConsumerError "setup failed"]
  /\ promise s2 = Pending
  /\ uncaught s2 = [ConsumerError "setup failed"].
Proof. repeat split; reflexivity. Qed.

(** C2 on the code: an awaited request whose transport is torn down by the
    server, with a consumer that catches the abort fault and returns the
    value "recovered".  The consumer receives the fault and is disposed of,
    and the promise is neither resolved nor rejected, in both copies of
    [getStream]. *)
Theorem abort_caught_and_returned_leaves_promise_pending :
  let acts := [Emit (EvResponse (mkResponse 200 [])); Emit (EvData [1]%Z);
               Emit EvAborted; Emit EvEnd] in
  let s1 : State (Consumers.recovering (VString "recovered")) :=
    run (mkRequest HttpThen "/logs" false) acts init in
  let s2 : State (Consumers.recovering (VString "recovered")) :=
    run (mkRequest Kubik "/logs" false) acts init in
  promise s1 = Pending
  /\ body s1 = None
  /\ option_map received (gen s1)
     = Some [Next None; Next (Some [1]%Z); Throw RequestAborted]
  /\ option_map calls (gen s1)
     = Some [Next None; Next (Some [1]%Z); Throw RequestAborted; Return]
  /\ promise s2 = Pending
  /\ body s2 = None.
Proof. repeat split; reflexivity. Qed.

(** The other half of C2 on the same request: a consumer that lets the fault
    through rejects the promise with it. *)
Example abort_not_caught_rejects :
  let acts := [Emit (EvResponse (mkResponse 200 [])); Emit (EvData [1]%Z);
               Emit EvAborted; Emit EvEnd] in
  let s : State Consumers.sink :=
    run (mkRequest HttpThen "/logs" false) acts init in
  promise s = Rejected RequestAborted.
Proof. reflexivity. Qed.

End StreamingFacts.

(* ------------------------------------------------------------------ *)
(** ** More on the frame codec *)

Module FrameCodecMore.

Import FrameCodec FrameViews.
Open Scope Z_scope.

(** X1: [decodeFrame] raises in two cases only, both on a header that is not
    a connection close: the length code 127 (the 64-bit read is not a method
    of [Buffer]: a [TypeError]) and the length code 126 in a block of fewer
    than four octets (a [RangeError]).  Anything else decodes: to [{opcode}]
    exactly when the opcode is 8, and otherwise to a frame that carries the
    FIN bit and the opcode of the first octet. *)
Theorem decodeFrame_outcome (frame : Buffer) :
  match decodeFrame frame with
  | inl e =>
      header_opcode frame <> 8
      /\ ((length_code frame = 127
           /\ e = TypeError "frame.readUInt64BE is not a function")
          \/ (length_code frame = 126 /\ (List.length frame < 4)%nat
              /\ e = RangeError "Index out of range"))
  | inr (CloseFrame op) => header_opcode frame = 8 /\ op = 8
  | inr (DataFrame fin op len p) =>
      header_opcode frame <> 8
      /\ op = header_opcode frame
      /\ fin = Z.land (at_index frame 0) 0x80
      /\ length_code frame <> 127
      /\ (length_code frame = 126 -> (4 <= List.length frame)%nat)
  end.
Proof.
  unfold decodeFrame, decode_length, readUInt16BE, readUInt64BE,
    header_opcode, length_code.
  destruct (Z.eqb_spec (Z.land (at_index frame 0) 15) 8) as [Hop|Hop].
  - split; exact Hop.
  - destruct (Z.eqb_spec (Z.land (at_index frame 1) 127) 126) as [H126|H126].
    + destruct (Nat.leb_spec (2 + 2) (List.length frame)) as [Hlen|Hlen].
      * destruct (_ =? 0); repeat split; try assumption; try lia.
      * split; [exact Hop|]. right. repeat split; [exact H126 | lia].
    + destruct (Z.eqb_spec (Z.land (at_index frame 1) 127) 127) as [H127|H127].
      * split; [exact Hop|]. left. split; [exact H127 | reflexivity].
      * destruct (_ =? 0); repeat split; try assumption; try lia.
Qed.

Lemma xor_mask_is_buffer (key payload : Buffer) :
  forall i, wf_buffer (xor_mask_from i key payload).
Proof.
  induction payload as [|b rest IH]; intros i; cbn [xor_mask_from].
  - constructor.
  - constructor; [|apply IH].
    unfold is_byte, to_uint8. apply Z.mod_pos_bound. lia.
Qed.

Lemma skipn_is_buffer (n : nat) (frame : Buffer) :
  wf_buffer frame -> wf_buffer (skipn n frame).
Proof.
  unfold wf_buffer. intros H. revert n.
  induction H as [|b rest Hb Hrest IH]; intros [|n]; cbn; auto.
Qed.

Lemma land_15_range (x : Z) : 0 <= Z.land x 15 < 16.
Proof.
  change 15 with (Z.ones 4). rewrite Z.land_ones by lia.
  apply Z.mod_pos_bound. lia.
Qed.

Lemma land_127_range (x : Z) : 0 <= Z.land x 127 < 128.
Proof.
  change 127 with (Z.ones 7). rewrite Z.land_ones by lia.
  apply Z.mod_pos_bound. lia.
Qed.

Lemma land_128_cases (x : Z) : Z.land x 128 = 0 \/ Z.land x 128 = 128.
Proof.
  destruct (Z.testbit x 7) eqn:Hbit; [right|left];
    apply Z.bits_inj'; intros n Hn;
    rewrite Z.land_spec; change 128 with (2 ^ 7);
    rewrite Z.pow2_bits_eqb by lia;
    destruct (Z.eqb_spec 7 n) as [<-|Hne];
    rewrite ?Hbit, ?andb_false_r, ?Z.bits_0; reflexivity.
Qed.

Lemma be16_join (hi lo : Z) :
  is_byte hi -> is_byte lo ->
  Z.lor (Z.shiftl hi 8) lo = hi * 256 + lo.
Proof.
  unfold is_byte. intros Hhi Hlo.
  assert (HL : 0 <= hi * 256 + lo < 65536) by lia.
  rewrite <- (FrameCodecFacts.be16_read _ HL).
  replace ((hi * 256 + lo) / 256) with hi
    by (symmetry; rewrite Z.div_add_l by lia; rewrite Z.div_small by lia; lia).
  replace ((hi * 256 + lo) mod 256) with lo
    by (symmetry; rewrite Z.add_comm, Z.mod_add by lia; apply Z.mod_small; lia).
  reflexivity.
Qed.

(** The fields of a decoded frame; the length of the payload is bounded with
    the truncated subtraction of [nat]. *)
Lemma decodeFrame_fields (frame : Buffer) (fin op len : Z) (p : Buffer) :
  wf_buffer frame -> decodeFrame frame = inr (DataFrame fin op len p) ->
  (fin = 0 \/ fin = 128)
  /\ 0 <= op < 16
  /\ 0 <= len < 65536
  /\ wf_buffer p
  /\ (List.length p <= List.length frame - 2)%nat.
Proof.
  intros Hwf Hdec.
  assert (Hcode := land_127_range (at_index frame 1)).
  assert (H2 := ReassemblyFacts.at_index_byte frame 2 Hwf).
  assert (H3 := ReassemblyFacts.at_index_byte frame (2 + 1) Hwf).
  assert (Hext : 0 <= Z.lor (Z.shiftl (at_index frame 2) 8)
                            (at_index frame (2 + 1)) < 65536)
    by (rewrite (be16_join _ _ H2 H3); unfold is_byte in H2, H3; lia).
  assert (Hskip : forall n, (2 <= n)%nat ->
            wf_buffer (slice_from frame n)
            /\ (List.length (slice_from frame n) <= List.length frame - 2)%nat).
  { intros n Hn. unfold slice_from. split; [apply skipn_is_buffer; exact Hwf|].
    rewrite length_skipn. lia. }
  assert (Hmask : forall key n, (2 <= n)%nat ->
            wf_buffer (xor_mask key (slice_from frame n))
            /\ (List.length (xor_mask key (slice_from frame n))
                <= List.length frame - 2)%nat).
  { intros key n Hn. unfold xor_mask. split; [apply xor_mask_is_buffer|].
    rewrite FrameCodecFacts.xor_mask_from_length. apply Hskip. exact Hn. }
  (* the four fields, read off the result *)
  assert (Hfin : fin = match decodeFrame frame with
                       | inr (DataFrame f _ _ _) => f | _ => 0 end)
    by (rewrite Hdec; reflexivity).
  assert (Hop : op = match decodeFrame frame with
                     | inr (DataFrame _ o _ _) => o | _ => 0 end)
    by (rewrite Hdec; reflexivity).
  assert (Hlen : len = match decodeFrame frame with
                       | inr (DataFrame _ _ l _) => l | _ => 0 end)
    by (rewrite Hdec; reflexivity).
  assert (Hp : p = match decodeFrame frame with
                   | inr (DataFrame _ _ _ q) => q | _ => [] end)
    by (rewrite Hdec; reflexivity).
  unfold decodeFrame, decode_length, readUInt16BE, readUInt64BE in *.
  destruct (_ =? 8); [discriminate Hdec|].
  destruct (_ =? 126).
  - destruct (_ <=? _)%nat; [|discriminate Hdec].
    destruct (_ =? 0); cbv beta iota in Hfin, Hop, Hlen, Hp; subst fin op len p;
      (split; [apply land_128_cases|]);
      (split; [apply land_15_range|]);
      (split; [exact Hext|]);
      first [apply Hskip | apply Hmask]; lia.
  - destruct (_ =? 127); [discriminate Hdec|].
    destruct (_ =? 0); cbv beta iota in Hfin, Hop, Hlen, Hp; subst fin op len p;
      (split; [apply land_128_cases|]);
      (split; [apply land_15_range|]);
      (split; [lia|]);
      first [apply Hskip | apply Hmask]; lia.
Qed.

(** X2: every frame that [decodeFrame] returns for a block of octets has a
    FIN field of 0 or 128, an opcode in [0, 15], a declared length in
    [0, 65535] and a payload of octets.  The payload is what the block holds
    after the first two octets at least: it is at least two octets shorter
    than a block of two octets or more, and empty for a shorter block. *)
Theorem decodeFrame_field_ranges (frame : Buffer) (fin op len : Z) (p : Buffer) :
  wf_buffer frame -> decodeFrame frame = inr (DataFrame fin op len p) ->
  (fin = 0 \/ fin = 128)
  /\ 0 <= op < 16
  /\ 0 <= len < 65536
  /\ wf_buffer p
  /\ ((2 <= List.length frame)%nat ->
      (List.length p + 2 <= List.length frame)%nat)
  /\ ((List.length frame < 2)%nat -> p = []).
Proof.
  intros Hwf Hdec.
  destruct (decodeFrame_fields frame fin op len p Hwf Hdec)
    as (Hfin & Hop & Hlen & Hp & Hshort).
  repeat split; try assumption; try lia.
  intros Hless. destruct p as [|b p]; [reflexivity|].
  cbn [List.length] in Hshort. lia.
Qed.

Lemma decodeFrame_field_ranges_witness :
  (128 = 0 \/ 128 = 128)
  /\ 0 <= 2 < 16
  /\ 0 <= 300 < 65536
  /\ wf_buffer [7; 7; 7]
  /\ ((2 <= List.length [130; 126; 1; 44; 7; 7; 7])%nat ->
      (List.length [7; 7; 7] + 2 <= List.length [130; 126; 1; 44; 7; 7; 7])%nat)
  /\ ((List.length [130; 126; 1; 44; 7; 7; 7] < 2)%nat -> [7; 7; 7] = []).
Proof.
  apply (decodeFrame_field_ranges [130; 126; 1; 44; 7; 7; 7] 128 2 300 [7; 7; 7]).
  - repeat constructor; unfold is_byte; lia.
  - reflexivity.
Defined.

(** X3: after the header - two octets and the extended length - a block
    without the mask bit decodes to the rest of the block as it is, and a
    block with the mask bit decodes to the rest XORed with the four key
    octets that precede it: a payload [P] masked with the key [K] comes out
    of [decodeFrame] as [P]. *)
Theorem decodeFrame_recovers_payload (b0 b1 : Z) (ext K P : Buffer) :
  header_opcode [b0] <> 8 ->
  extension_fits (length_code [b0; b1]) ext ->
  List.length K = 4%nat -> wf_buffer P ->
  (Z.land b1 0x80 = 0 ->
   decoded_payload (decodeFrame (b0 :: b1 :: ext ++ P)) = Some P)
  /\ (Z.land b1 0x80 <> 0 ->
      decoded_payload (decodeFrame (b0 :: b1 :: ext ++ K ++ xor_mask K P))
      = Some P).
Proof.
  unfold header_opcode, length_code, at_index. cbn [nth].
  intros Hop Hext HK HP.
  apply Z.eqb_neq in Hop.
  destruct K as [|k0 [|k1 [|k2 [|k3 [|k4 K]]]]]; try discriminate HK.
  assert (Hround : xor_mask [k0; k1; k2; k3] (xor_mask [k0; k1; k2; k3] P) = P)
    by (apply FrameCodecFacts.xor_mask_from_twice; exact HP).
  destruct Hext as [[Hcode ->]|[Hcode Hlen]].
  - assert (H126 : (Z.land b1 127 =? 126) = false) by (apply Z.eqb_neq; lia).
    assert (H127 : (Z.land b1 127 =? 127) = false) by (apply Z.eqb_neq; lia).
    split; intros Hmask; unfold decodeFrame, decode_length, at_index;
      cbn [nth app]; rewrite Hop, H126, H127.
    + rewrite Hmask. reflexivity.
    + apply Z.eqb_neq in Hmask. rewrite Hmask.
      unfold slice, slice_from. cbn [skipn firstn Nat.add Nat.sub].
      cbn [decoded_payload frame_payload]. rewrite Hround. reflexivity.
  - destruct ext as [|e0 [|e1 [|e2 ext]]]; try discriminate Hlen.
    assert (H126 : (Z.land b1 127 =? 126) = true) by (apply Z.eqb_eq; exact Hcode).
    split; intros Hmask; unfold decodeFrame, decode_length, readUInt16BE, at_index;
      cbn [nth app List.length Nat.add Nat.leb]; rewrite Hop, H126.
    + rewrite Hmask. reflexivity.
    + apply Z.eqb_neq in Hmask. rewrite Hmask.
      unfold slice, slice_from. cbn [skipn firstn Nat.add Nat.sub].
      cbn [decoded_payload frame_payload]. rewrite Hround. reflexivity.
Qed.

Lemma decodeFrame_recovers_payload_witness :
  decoded_payload (decodeFrame (129 :: 5 :: [] ++ [104; 101; 108; 108; 111]))
  = Some [104; 101; 108; 108; 111]
  /\ decoded_payload
       (decodeFrame (129 :: 133 :: [] ++ [55; 250; 33; 61]
                       ++ xor_mask [55; 250; 33; 61] [104; 101; 108; 108; 111]))
     = Some [104; 101; 108; 108; 111].
Proof.
  split.
  - apply (proj1 (decodeFrame_recovers_payload 129 5 [] [55; 250; 33; 61]
                    [104; 101; 108; 108; 111]
                    ltac:(vm_compute; discriminate)
                    ltac:(left; split; [vm_compute; reflexivity | reflexivity])
                    eq_refl
                    ltac:(repeat constructor; unfold is_byte; lia))).
    reflexivity.
  - apply (proj2 (decodeFrame_recovers_payload 129 133 [] [55; 250; 33; 61]
                    [104; 101; 108; 108; 111]
                    ltac:(vm_compute; discriminate)
                    ltac:(left; split; [vm_compute; reflexivity | reflexivity])
                    eq_refl
                    ltac:(repeat constructor; unfold is_byte; lia))).
    vm_compute. discriminate.
Defined.

End FrameCodecMore.

(* ------------------------------------------------------------------ *)
(** ** More on the reassembly layer *)

Module ReassemblyMore.

Import FrameCodec Reassembly.
Open Scope nat_scope.

Section Loop.

Context {K : Generator}.

(** X4: the decoder ends on a close frame met between two frames, and on the
    end-of-stream signal in any state, even in the middle of a frame: the
    consumer is resumed exactly once, without payload - neither the payload
    of the close frame nor a partly received payload is handed over - and
    the decoder completes with the value of that resume, whether the
    consumer returned or yielded it, or with the exception it raised. *)
Theorem decode_ends_the_stream (d d' : DState K) (block : Buffer) :
  frame (locals d) = None -> header_opcode block = 8%Z ->
  let ended (r : jserr + IterResult) :=
    match r with
    | inl e => Fail e
    | inr res => Finish (value res)
    end in
  inner (fst (on_block d block)) = fst (gen_next (inner d) None)
  /\ snd (on_block d block) = ended (snd (gen_next (inner d) None))
  /\ inner (fst (resume_full d' (Next None))) = fst (gen_next (inner d') None)
  /\ snd (resume_full d' (Next None)) = ended (snd (gen_next (inner d') None))
  /\ calls (fst (gen_next (inner d') None)) = calls (inner d') ++ [Next None].
Proof.
  intros Hfresh Hop ended.
  assert (Hleave : forall l (g : genobj K),
             inner (fst (leave (mkDState l g))) = fst (gen_next g None)
             /\ snd (leave (mkDState l g)) = ended (snd (gen_next g None))).
  { intros l g. unfold leave, ended. cbn [inner locals].
    destruct (gen_next g None) as [g1 [e|res]]; split; reflexivity. }
  assert (Hclose : inner (fst (on_block d block)) = fst (gen_next (inner d) None)
                   /\ snd (on_block d block) = ended (snd (gen_next (inner d) None))).
  { destruct d as [[fr pl off] g]. cbn [locals frame] in Hfresh. subst fr.
    unfold on_block. cbn [locals frame payload offset inner].
    rewrite (FrameCodecFacts.decodeFrame_close block Hop).
    cbn [Z.eqb Pos.eqb]. apply Hleave. }
  destruct Hclose as [Hc1 Hc2].
  destruct d' as [l' g']. cbn [resume_full inner].
  destruct (Hleave l' g') as [He1 He2].
  repeat split; try assumption.
  unfold gen_next. apply GeneratorFacts.call_calls.
Qed.

(** X5: a data block of fewer than two octets that does not start with the
    close opcode - an empty block, or the first octet of a header that the
    transport split - is taken for a complete frame of length zero: a decoder
    between two frames resumes the consumer with an empty buffer. *)
Theorem decode_short_block (d : DState K) (block : Buffer) :
  frame (locals d) = None -> List.length block < 2 ->
  header_opcode block <> 8%Z ->
  let handed_over := gen_next (inner d) (Some []) in
  inner (fst (on_block d block)) = fst handed_over
  /\ snd (on_block d block) = ending_of (snd handed_over)
  /\ frame (locals (fst (on_block d block))) = None.
Proof.
  intros Hfresh Hlen Hop handed_over.
  destruct d as [[fr pl off] g]. cbn [locals frame] in Hfresh. subst fr.
  assert (Hdec : exists fin op, decodeFrame block = inr (DataFrame fin op 0 [])
                                /\ (op =? 8)%Z = false).
  { unfold header_opcode in Hop. apply Z.eqb_neq in Hop.
    destruct block as [|b0 [|b1 rest]]; [| |cbn in Hlen; lia];
      unfold decodeFrame, decode_length, at_index in *; cbn [nth] in *;
      rewrite Hop; cbn; eauto. }
  destruct Hdec as (fin & op & Hdec & Hop').
  unfold on_block. cbn [locals frame payload offset inner].
  rewrite Hdec, Hop'. cbn [List.length Z.of_nat Z.eqb].
  unfold complete. cbn [locals frame payload offset inner Z.of_nat Z.eqb].
  unfold handed_over. cbn [inner].
  change (@Some (list Z) []) with (@Some Buffer []).
  destruct (gen_next g (@Some Buffer [])) as [g1 r]. repeat split.
Qed.

End Loop.

Lemma decode_ends_the_stream_witness :
  let d := mkDState fresh_locals (primed Consumers.sink) in
  let d' := mid (DataFrame 128 2 5 [1; 2]%Z) 5 [1; 2]%Z (primed Consumers.sink) in
  let block := [136; 2; 3; 232]%Z in
  let ended (r : jserr + IterResult) :=
    match r with
    | inl e => Fail e
    | inr res => Finish (value res)
    end in
  inner (fst (on_block d block)) = fst (gen_next (inner d) None)
  /\ snd (on_block d block) = ended (snd (gen_next (inner d) None))
  /\ inner (fst (resume_full d' (Next None))) = fst (gen_next (inner d') None)
  /\ snd (resume_full d' (Next None)) = ended (snd (gen_next (inner d') None))
  /\ calls (fst (gen_next (inner d') None)) = calls (inner d') ++ [Next None].
Proof.
  apply (decode_ends_the_stream
           (mkDState fresh_locals (primed Consumers.sink))
           (mid (DataFrame 128 2 5 [1; 2]%Z) 5 [1; 2]%Z (primed Consumers.sink))
           [136; 2; 3; 232]%Z).
  - reflexivity.
  - reflexivity.
Defined.

Lemma decode_short_block_witness :
  let d := mkDState fresh_locals (primed Consumers.sink) in
  let handed_over := gen_next (inner d) (Some []) in
  inner (fst (on_block d [129%Z])) = fst handed_over
  /\ snd (on_block d [129%Z]) = ending_of (snd handed_over)
  /\ frame (locals (fst (on_block d [129%Z]))) = None.
Proof.
  apply (decode_short_block (mkDState fresh_locals (primed Consumers.sink))
           [129%Z]).
  - reflexivity.
  - simpl. lia.
  - vm_compute. discriminate.
Defined.

End ReassemblyMore.

(* ------------------------------------------------------------------ *)
(** ** More on buffered requests *)

Module BufferedMore.

Import Buffered.

Lemma deliver_settled (path : string) (ev : Event) (s : State) :
  settled (promise s) = true -> promise (deliver path ev s) = promise s.
Proof.
  destruct s as [p r c b d q]. cbn [promise]. intros Hp.
  assert (Hflush : forall (q' : list Event) (s' : State),
             promise s' = p ->
             promise (fold_left (fun a ev => handle path ev a) q' s') = p).
  { induction q' as [|ev' q' IH]; intros s' Hs'; [exact Hs'|].
    cbn [fold_left]. apply IH.
    destruct s' as [p' r' c' b' d' q'']. cbn [promise] in Hs'. subst p'.
    destruct ev'; cbn; unfold on_response, on_data, on_end, destroy; cbn;
      repeat match goal with
             | |- context [match ?x with _ => _ end] => destruct x
             end; cbn; destruct p; try discriminate; reflexivity. }
  unfold deliver, flush. apply Hflush.
  destruct ev; cbn; unfold on_response, on_data, on_end, destroy; cbn;
    repeat match goal with
           | |- context [match ?x with _ => _ end] => destruct x
           end; cbn; destruct p; try discriminate; reflexivity.
Qed.

Lemma buffered_run_settled (path : string) (evs : list Event) (s : State) :
  settled (promise s) = true -> promise (run path evs s) = promise s.
Proof.
  revert s. induction evs as [|ev evs IH]; intros s Hp; [reflexivity|].
  cbn [run fold_left]. fold (run path evs (deliver path ev s)).
  rewrite IH; rewrite deliver_settled; auto.
Qed.

(** While the body is being received the chunks pile up in arrival order. *)
Lemma run_data (path : string) (r : Response) (chunks acc : list Buffer) :
  run path (map EvData chunks) (mkState Pending (Some r) (Some acc) None None [])
  = mkState Pending (Some r) (Some (acc ++ chunks)) None None [].
Proof.
  revert acc. induction chunks as [|c chunks IH]; intros acc.
  - rewrite app_nil_r. reflexivity.
  - cbn [map run fold_left].
    change (deliver path (EvData c) (mkState Pending (Some r) (Some acc) None None []))
      with (mkState Pending (Some r) (Some (acc ++ [c])) None None []).
    fold (run path (map EvData chunks)
            (mkState Pending (Some r) (Some (acc ++ [c])) None None [])).
    rewrite IH, <- app_assoc. reflexivity.
Qed.

Lemma response_accepted (path : string) (r : Response) :
  (statusCode r < 400)%Z ->
  deliver path (EvResponse r) init = mkState Pending (Some r) (Some []) None None [].
Proof.
  intros H. unfold deliver, handle, on_response.
  rewrite Z.geb_leb, (proj2 (Z.leb_gt _ _)) by lia. reflexivity.
Qed.

(** X6: a buffered request whose response has a status below 400 stays
    pending, with no [response.body], for as long as only 'data' events
    arrive; at the 'end' event it resolves with the response, whose body is
    the concatenation of all the chunks in arrival order. *)
Theorem getBody_resolves_with_whole_body (path : string) (r : Response)
  (chunks : list Buffer) :
  (statusCode r < 400)%Z ->
  let s := run path (EvResponse r :: map EvData chunks) init in
  promise s = Pending
  /\ response_body s = None
  /\ promise (deliver path EvEnd s) = Resolved r
  /\ response_body (deliver path EvEnd s) = Some (List.concat chunks).
Proof.
  intros Hstatus s.
  assert (Hs : s = mkState Pending (Some r) (Some chunks) None None []).
  { unfold s. cbn [run fold_left].
    fold (run path (map EvData chunks) (deliver path (EvResponse r) init)).
    rewrite (response_accepted path r Hstatus). apply (run_data path r chunks []). }
  rewrite Hs. repeat split.
Qed.

Lemma getBody_resolves_with_whole_body_witness :
  let r := mkResponse 200 [] in
  let chunks := [[111]; []; [107; 33]]%Z in
  let s := run "/api" (EvResponse r :: map EvData chunks) init in
  promise s = Pending
  /\ response_body s = None
  /\ promise (deliver "/api" EvEnd s) = Resolved r
  /\ response_body (deliver "/api" EvEnd s) = Some (List.concat chunks).
Proof.
  apply (getBody_resolves_with_whole_body "/api" (mkResponse 200 [])
           [[111]; []; [107; 33]]%Z).
  simpl. lia.
Defined.

(** X7: a request 'error' that comes before the 'end' event - before the
    response or in the middle of its body - rejects the promise of a
    buffered request with that error, and nothing that follows, not even a
    late 'end', resolves it. *)
Theorem getBody_rejects_on_transport_error (path : string) (r : Response)
  (chunks : list Buffer) (e : jserr) (later : list Event) :
  (statusCode r < 400)%Z ->
  promise (run path (EvError e :: later) init) = Rejected e
  /\ promise (run path (EvResponse r :: map EvData chunks ++ EvError e :: later)
                  init)
     = Rejected e.
Proof.
  intros Hstatus. split.
  - cbn [run fold_left]. fold (run path later (deliver path (EvError e) init)).
    rewrite buffered_run_settled; reflexivity.
  - cbn [run fold_left].
    fold (run path (map EvData chunks ++ EvError e :: later)
              (deliver path (EvResponse r) init)).
    rewrite (response_accepted path r Hstatus).
    unfold run. rewrite fold_left_app.
    fold (run path (map EvData chunks)
              (mkState Pending (Some r) (Some []) None None [])).
    rewrite (run_data path r chunks []). cbn [fold_left app].
    fold (run path later
              (deliver path (EvError e)
                 (mkState Pending (Some r) (Some chunks) None None []))).
    rewrite buffered_run_settled; reflexivity.
Qed.

Lemma getBody_rejects_on_transport_error_witness :
  let r := mkResponse 200 [] in
  let e := TransportError "socket hang up" in
  promise (run "/api" (EvError e :: [EvEnd]) init) = Rejected e
  /\ promise (run "/api" (EvResponse r :: map EvData [[1]%Z] ++ EvError e :: [EvEnd])
                  init)
     = Rejected e.
Proof.
  apply (getBody_rejects_on_transport_error "/api" (mkResponse 200 []) [[1]%Z]
           (TransportError "socket hang up") [EvEnd]).
  simpl. lia.
Defined.

End BufferedMore.

(* ------------------------------------------------------------------ *)
(** ** More on streaming requests *)

Module StreamingMore.

Import Streaming StreamingViews StreamingFacts.

Section Driver.

Context {K : Generator} (rq : Request).

(** *** The two abort flags *)

Lemma handle_client_flag (ev : Event) (s : State K) :
  clientAbort s = true -> clientAbort (handle rq ev s) = true.
Proof.
  destruct s as [ca sa p r b g w t u]. cbn [clientAbort]. intros ->.
  destruct ev; open_handlers; split_handler; reflexivity.
Qed.

Lemma handle_client_flag_kept (ev : Event) (s : State K) :
  match ev with EvAbort => False | _ => True end ->
  clientAbort (handle rq ev s) = clientAbort s.
Proof.
  destruct s as [ca sa p r b g w t u].
  destruct ev; intros H; try contradiction;
    open_handlers; split_handler; reflexivity.
Qed.

Lemma handle_server_flag (ev : Event) (s : State K) :
  match ev with EvAborted => False | _ => True end ->
  serverAbort (handle rq ev s) = serverAbort s.
Proof.
  destruct s as [ca sa p r b g w t u].
  destruct ev; intros H; try contradiction;
    open_handlers; split_handler; reflexivity.
Qed.

Lemma act_cancel_flags (s : State K) :
  quiet s -> abort_seen s ->
  clientAbort (act rq Cancel s) = true
  /\ serverAbort (act rq Cancel s) = serverAbort s
  /\ abort_seen (act rq Cancel s).
Proof.
  unfold quiet, abort_seen.
  destruct s as [ca sa p r b g w [ra rd se q] u]. cbn. intros -> Hseen.
  unfold act, flush, cancellation, request_abort. cbn.
  destruct ra; cbn; [rewrite Hseen by reflexivity|]; auto.
Qed.

Lemma handle_req_aborted (ev : Event) (s : State K) :
  req_aborted (transport (handle rq ev s)) = req_aborted (transport s).
Proof.
  destruct s as [ca sa p r b g w t u].
  destruct ev; open_handlers; split_handler; reflexivity.
Qed.

Lemma fold_handle_flags (q : list Event) (s : State K) :
  req_aborted (transport (fold_left (fun a ev => handle rq ev a) q s))
  = req_aborted (transport s)
  /\ (clientAbort s = true ->
      clientAbort (fold_left (fun a ev => handle rq ev a) q s) = true).
Proof.
  revert s. induction q as [|ev q IH]; intros s; [auto|].
  cbn [fold_left]. destruct (IH (handle rq ev s)) as [H1 H2].
  split.
  - rewrite H1. apply handle_req_aborted.
  - intros Hs. apply H2. apply handle_client_flag. exact Hs.
Qed.

Lemma act_abort_seen (a : Action) (s : State K) :
  quiet s -> abort_seen s -> abort_seen (act rq a s).
Proof.
  intros Hq Hseen. destruct a as [ev|]; [|apply act_cancel_flags; assumption].
  unfold abort_seen in *. unfold act, flush. cbv zeta.
  destruct (fold_handle_flags
              (pending (transport (handle rq ev s)))
              (set_transport
                 (mkTransport (req_aborted (transport (handle rq ev s)))
                    (res_destroyed (transport (handle rq ev s)))
                    (socket_ended (transport (handle rq ev s))) [])
                 (handle rq ev s))) as [H1 H2].
  intros Hra. rewrite H1 in Hra.
  change (req_aborted (transport (handle rq ev s)) = true) in Hra.
  rewrite handle_req_aborted in Hra.
  apply H2.
  change (clientAbort (handle rq ev s) = true).
  apply handle_client_flag. apply Hseen. exact Hra.
Qed.

Lemma run_abort_seen (acts : list Action) (s : State K) :
  quiet s -> abort_seen s -> abort_seen (run rq acts s).
Proof.
  revert s. induction acts as [|a acts IH]; intros s Hq Hseen; [exact Hseen|].
  cbn [run fold_left]. apply IH; [apply act_quiet | apply act_abort_seen];
    assumption.
Qed.

Lemma act_keeps_server_flag (a : Action) (s : State K) :
  mid_stream a = true -> is_aborted a = false -> quiet s ->
  serverAbort (act rq a s) = serverAbort s.
Proof.
  intros Ha Hn Hq. destruct a as [ev|].
  - destruct ev; try discriminate Ha; try discriminate Hn;
      rewrite act_emit by (exact I || exact Hq);
      apply handle_server_flag; exact I.
  - unfold quiet in Hq.
    destruct s as [ca sa p r b g w [ra rd se q] u]. cbn in Hq. subst q.
    unfold act, flush, cancellation, request_abort. cbn.
    destruct ra; reflexivity.
Qed.

Lemma act_keeps_client_flag (a : Action) (s : State K) :
  mid_stream a = true -> is_cancel a = false -> quiet s ->
  clientAbort (act rq a s) = clientAbort s.
Proof.
  intros Ha Hn Hq. destruct a as [ev|]; [|discriminate Hn].
  destruct ev; try discriminate Ha; try discriminate Hn;
    rewrite act_emit by (exact I || exact Hq);
    apply handle_client_flag_kept; exact I.
Qed.

(** Once the client has aborted, the 'aborted' event no longer counts as a
    server abort. *)
Lemma act_after_client_abort (a : Action) (s : State K) :
  mid_stream a = true -> quiet s ->
  clientAbort s = true -> serverAbort s = false ->
  clientAbort (act rq a s) = true /\ serverAbort (act rq a s) = false.
Proof.
  intros Ha Hq Hc Hs.
  destruct a as [ev|].
  - rewrite act_emit by (destruct ev; try discriminate Ha; exact I || exact Hq).
    split; [apply handle_client_flag; exact Hc|].
    destruct ev; try discriminate Ha;
      try (rewrite handle_server_flag by exact I; exact Hs).
    cbn [handle]. unfold on_aborted.
    destruct (gen s); [|exact Hs]. cbn. rewrite Hc. reflexivity.
  - unfold quiet in Hq.
    destruct s as [ca sa p r b g w [ra rd se q] u]. cbn in Hq, Hc, Hs. subst.
    unfold act, flush, cancellation, request_abort. cbn.
    destruct ra; split; reflexivity.
Qed.

Lemma run_keeps_server_flag (acts : list Action) (s : State K) :
  forallb mid_stream acts = true ->
  forallb (fun a => negb (is_aborted a)) acts = true -> quiet s ->
  serverAbort (run rq acts s) = serverAbort s.
Proof.
  revert s. induction acts as [|a acts IH]; intros s Hm Hn Hq; [reflexivity|].
  cbn [forallb] in Hm, Hn.
  apply andb_prop in Hm as [Ha Hm]. apply andb_prop in Hn as [Hna Hn].
  apply negb_true_iff in Hna.
  cbn [run fold_left]. fold (run rq acts (act rq a s)).
  rewrite IH by (assumption || apply act_quiet; assumption).
  apply act_keeps_server_flag; assumption.
Qed.

Lemma run_keeps_client_flag (acts : list Action) (s : State K) :
  forallb mid_stream acts = true ->
  forallb (fun a => negb (is_cancel a)) acts = true -> quiet s ->
  clientAbort (run rq acts s) = clientAbort s.
Proof.
  revert s. induction acts as [|a acts IH]; intros s Hm Hn Hq; [reflexivity|].
  cbn [forallb] in Hm, Hn.
  apply andb_prop in Hm as [Ha Hm]. apply andb_prop in Hn as [Hna Hn].
  apply negb_true_iff in Hna.
  cbn [run fold_left]. fold (run rq acts (act rq a s)).
  rewrite IH by (assumption || apply act_quiet; assumption).
  apply act_keeps_client_flag; assumption.
Qed.

Lemma run_after_client_abort (acts : list Action) (s : State K) :
  forallb mid_stream acts = true -> quiet s ->
  clientAbort s = true -> serverAbort s = false ->
  clientAbort (run rq acts s) = true /\ serverAbort (run rq acts s) = false.
Proof.
  revert s. induction acts as [|a acts IH]; intros s Hm Hq Hc Hs; [auto|].
  cbn [forallb] in Hm. apply andb_prop in Hm as [Ha Hm].
  destruct (act_after_client_abort a s Ha Hq Hc Hs) as [Hc' Hs'].
  cbn [run fold_left]. fold (run rq acts (act rq a s)).
  apply IH; try assumption. apply act_quiet. exact Hq.
Qed.

(** The flags right after the 'response' handler. *)
Lemma response_flags (r : Response) :
  let s0 : State K := act rq (Emit (EvResponse r)) init in
  clientAbort s0 = false /\ serverAbort s0 = false /\ abort_seen s0
  /\ uncaught s0 = match gstart K with Thrown e => if (statusCode r >=? 400)%Z then [] else [e] | _ => [] end.
Proof.
  unfold abort_seen, act, flush, handle, on_response, on_error.
  destruct (statusCode r >=? 400)%Z; cbn.
  - destruct (source rq); cbn; repeat split; try discriminate;
      destruct (gstart K); reflexivity.
  - unfold gen_next, call, create. cbn.
    destruct (gstart K); cbn; destruct (async rq); cbn; repeat split;
      discriminate.
Qed.

(** *** Who aborted, as the consumer sees it *)

(** X8: an eager request that the caller cancels before the response has
    reported any 'aborted' is ended without a word to the consumer: whatever
    follows the cancellation - the 'aborted' and 'error' events that the
    abort provokes, further chunks - the 'end' handler neither throws the
    abort fault into the consumer nor resumes it with the end-of-stream
    signal; the calls are the priming call, the chunks and [gen.return()],
    and the promise stays resolved with the response. *)
Theorem eager_cancel_is_silent (r : Response) (pre post : list Action) :
  async rq = true -> (statusCode r < 400)%Z -> primes K = true ->
  forallb mid_stream pre = true ->
  forallb (fun a => negb (is_aborted a)) pre = true ->
  forallb mid_stream post = true ->
  let s : State K := run rq (Emit (EvResponse r) :: pre ++ Cancel :: post) init in
  let s' := act rq (Emit EvEnd) s in
  terminal rq s = []
  /\ promise s' = Resolved r
  /\ exists g : genobj K,
       gen s' = Some g
       /\ calls g
          = Next None
            :: map (fun c => Next (Some c)) (chunks_of (pre ++ Cancel :: post))
            ++ [Return].
Proof.
  intros Hasync Hstatus Hprimes Hpre Hnab Hpost s s'.
  destruct (response_registers rq r Hstatus Hprimes) as (Hg0 & Hr0 & Hq0 & Hp0 & _).
  destruct (response_flags r) as (Hc0 & Hs0 & Hseen0 & _).
  rewrite Hasync in Hp0.
  set (s0 := act rq (Emit (EvResponse r)) (@init K)) in *.
  (* before the cancellation *)
  assert (Hq1 : quiet (run rq pre s0)) by (apply run_quiet; exact Hq0).
  assert (Hs1 : serverAbort (run rq pre s0) = false)
    by (rewrite run_keeps_server_flag; assumption).
  assert (Hseen1 : abort_seen (run rq pre s0))
    by (apply run_abort_seen; assumption).
  (* the cancellation *)
  destruct (act_cancel_flags (run rq pre s0) Hq1 Hseen1) as (Hc2 & Hs2 & _).
  rewrite Hs1 in Hs2.
  assert (Hq2 : quiet (act rq Cancel (run rq pre s0))) by (apply act_quiet; exact Hq1).
  (* after it *)
  assert (Hs_eq : s = run rq post (act rq Cancel (run rq pre s0))).
  { unfold s. cbn [run fold_left]. fold s0.
    fold (run rq (pre ++ Cancel :: post) s0).
    rewrite run_app. reflexivity. }
  destruct (run_after_client_abort post _ Hpost Hq2 Hc2 Hs2) as [Hc Hs].
  rewrite <- Hs_eq in Hc, Hs.
  assert (Hq : quiet s) by (rewrite Hs_eq; apply run_quiet; exact Hq2).
  assert (Hterm : terminal rq s = []).
  { unfold terminal. rewrite Hc, Hs, Hasync. reflexivity. }
  assert (Hall : forallb mid_stream (pre ++ Cancel :: post) = true).
  { rewrite forallb_app, Hpre. cbn. exact Hpost. }
  destruct (mid_stream_run rq _ Hall s0 _ r Hg0 Hr0 Hq0) as (g & Hg & Hcalls & Hr).
  change (run rq (pre ++ Cancel :: post) s0) with s in Hg, Hr.
  split; [exact Hterm|]. split.
  - unfold s'. rewrite act_settled; [|unfold s].
    + unfold s. cbn [run fold_left]. fold s0.
      fold (run rq (pre ++ Cancel :: post) s0).
      rewrite run_settled; rewrite Hp0; reflexivity.
    + cbn [run fold_left]. fold s0.
      fold (run rq (pre ++ Cancel :: post) s0).
      rewrite run_settled; rewrite Hp0; reflexivity.
  - exists (fst (call g Return)). split.
    + unfold s'. rewrite act_emit by (exact I || exact Hq). cbn [handle].
      rewrite (on_end_gen rq s g r Hg Hr), Hterm. reflexivity.
    + rewrite GeneratorFacts.call_calls, Hcalls.
      unfold primed, gen_next. rewrite GeneratorFacts.call_calls.
      cbn [calls create app]. rewrite <- ?app_assoc. reflexivity.
Qed.

(** X9: a server abort - an 'aborted' event that no cancellation precedes -
    always reaches the consumer, in eager and in awaited mode alike and even
    when the caller cancels afterwards: the 'end' handler throws the abort
    fault into the consumer, after the chunks and before [gen.return()]. *)
Theorem server_abort_reaches_consumer (r : Response) (pre post : list Action) :
  (statusCode r < 400)%Z -> primes K = true ->
  forallb mid_stream pre = true ->
  forallb (fun a => negb (is_cancel a)) pre = true ->
  forallb mid_stream post = true ->
  forallb (fun a => negb (is_aborted a)) post = true ->
  let s : State K :=
    run rq (Emit (EvResponse r) :: pre ++ Emit EvAborted :: post) init in
  let s' := act rq (Emit EvEnd) s in
  terminal rq s = [Throw RequestAborted]
  /\ exists g : genobj K,
       gen s' = Some g
       /\ calls g
          = Next None
            :: map (fun c => Next (Some c))
                 (chunks_of (pre ++ Emit EvAborted :: post))
            ++ [Throw RequestAborted; Return].
Proof.
  intros Hstatus Hprimes Hpre Hncan Hpost Hnab s s'.
  destruct (response_registers rq r Hstatus Hprimes) as (Hg0 & Hr0 & Hq0 & _).
  destruct (response_flags r) as (Hc0 & Hs0 & _).
  set (s0 := act rq (Emit (EvResponse r)) (@init K)) in *.
  assert (Hq1 : quiet (run rq pre s0)) by (apply run_quiet; exact Hq0).
  assert (Hc1 : clientAbort (run rq pre s0) = false)
    by (rewrite run_keeps_client_flag; assumption).
  destruct (mid_stream_run rq pre Hpre s0 _ r Hg0 Hr0 Hq0) as (g1 & Hg1 & _ & _).
  (* the 'aborted' event *)
  assert (Hs2 : serverAbort (act rq (Emit EvAborted) (run rq pre s0)) = true).
  { rewrite act_emit by (exact I || exact Hq1). cbn [handle].
    unfold on_aborted. rewrite Hg1. cbn. rewrite Hc1. reflexivity. }
  assert (Hq2 : quiet (act rq (Emit EvAborted) (run rq pre s0)))
    by (apply act_quiet; exact Hq1).
  assert (Hs_eq : s = run rq post (act rq (Emit EvAborted) (run rq pre s0))).
  { unfold s. cbn [run fold_left]. fold s0.
    fold (run rq (pre ++ Emit EvAborted :: post) s0).
    rewrite run_app. reflexivity. }
  assert (Hs : serverAbort s = true).
  { rewrite Hs_eq, run_keeps_server_flag; assumption. }
  assert (Hq : quiet s) by (rewrite Hs_eq; apply run_quiet; exact Hq2).
  assert (Hterm : terminal rq s = [Throw RequestAborted]).
  { unfold terminal. rewrite Hs. reflexivity. }
  assert (Hall : forallb mid_stream (pre ++ Emit EvAborted :: post) = true).
  { rewrite forallb_app, Hpre. cbn. exact Hpost. }
  destruct (mid_stream_run rq _ Hall s0 _ r Hg0 Hr0 Hq0) as (g & Hg & Hcalls & Hr).
  change (run rq (pre ++ Emit EvAborted :: post) s0) with s in Hg, Hr.
  split; [exact Hterm|].
  exists (fst (call (fst (call g (Throw RequestAborted))) Return)). split.
  - unfold s'. rewrite act_emit by (exact I || exact Hq). cbn [handle].
    rewrite (on_end_gen rq s g r Hg Hr), Hterm. reflexivity.
  - rewrite !GeneratorFacts.call_calls, Hcalls.
    unfold primed, gen_next. rewrite GeneratorFacts.call_calls.
    cbn [calls create app]. rewrite <- ?app_assoc. reflexivity.
Qed.

(** X10: how the two copies of [getStream] treat a request 'error' that
    follows a cancellation, in any state a request can reach: the one of
    [http-then.js] ignores it - the request is left exactly as it was - and
    the one of [kubik.js] passes it to [reject], which rejects the promise
    if it is still pending. *)
Theorem error_after_cancel (acts : list Action) (e : jserr) :
  let s : State K := act rq Cancel (run rq acts init) in
  match source rq with
  | HttpThen => act rq (Emit (EvError e)) s = s
  | Kubik => promise (act rq (Emit (EvError e)) s) = reject_with e (promise s)
  end.
Proof.
  intros s.
  assert (Hq0 : quiet (run rq acts (@init K))) by (apply run_quiet; reflexivity).
  assert (Hseen0 : abort_seen (run rq acts (@init K)))
    by (apply run_abort_seen; [reflexivity | unfold abort_seen; discriminate]).
  destruct (act_cancel_flags _ Hq0 Hseen0) as (Hc & _ & _).
  assert (Hq : quiet s) by (apply act_quiet; exact Hq0).
  fold s in Hc.
  rewrite act_emit by (exact I || exact Hq). cbn [handle]. unfold on_error.
  destruct (source rq); [rewrite Hc|]; reflexivity.
Qed.

(** *** The end of a stream in each delivery mode *)

(** The request after the response headers and the chunks on which the
    consumer yields. *)
Lemma streaming_state (r : Response) (chunks : list Buffer) (st : gstate K) :
  (statusCode r < 400)%Z ->
  gstatus (feed (primed K) chunks) = SuspendedYield st ->
  run rq (Emit (EvResponse r) :: map (fun c => Emit (EvData c)) chunks) init
  = mkState false false (if async rq then Resolved r else Pending) (Some r) None
      (Some (feed (primed K) chunks)) None (mkTransport false false false []) [].
Proof.
  intros Hstatus Hst.
  assert (Hstart : exists v0 st0, gstart K = Yielded v0 st0).
  { destruct (gstart K) as [v0 st0|v0|e0] eqn:E; [eauto| |];
      exfalso;
      assert (Hdone : gstatus (primed K) = Completed)
        by (unfold primed, gen_next, call, create; cbn; rewrite E; reflexivity);
      apply (GeneratorFacts.feed_completed _ chunks) in Hdone; congruence. }
  destruct Hstart as (v0 & st0 & Hstart).
  assert (Hs0 : act rq (Emit (EvResponse r)) (@init K)
                = mkState false false (if async rq then Resolved r else Pending)
                    (Some r) None (Some (primed K)) None
                    (mkTransport false false false []) []).
  { unfold act, flush, handle, on_response.
    rewrite Z.geb_leb, (proj2 (Z.leb_gt _ _)) by lia.
    unfold primed, gen_next, call, create. cbn. rewrite Hstart. cbn.
    destruct (async rq); reflexivity. }
  cbn [run fold_left].
  fold (run rq (map (fun c => Emit (EvData c)) chunks)
            (act rq (Emit (EvResponse r)) (@init K))).
  rewrite Hs0.
  rewrite (data_run rq chunks _ (primed K) r st); reflexivity || assumption.
Qed.

(** X11: in awaited mode, when the stream ends without an abort while the
    consumer is still suspended, the end-of-stream resume settles the promise
    only if the consumer yields once more: the promise is then resolved with
    the yielded value as the body.  A consumer that returns leaves the
    promise pending, and one that throws leaves it pending too, the
    exception leaving the 'end' handler uncaught. *)
Theorem awaited_graceful_end (r : Response) (chunks : list Buffer)
  (st : gstate K) :
  async rq = false -> (statusCode r < 400)%Z ->
  gstatus (feed (primed K) chunks) = SuspendedYield st ->
  let s' : State K :=
    run rq (Emit (EvResponse r) :: map (fun c => Emit (EvData c)) chunks
              ++ [Emit EvEnd]) init in
  match gresume K st (Next None) with
  | Yielded v _ => promise s' = Resolved r /\ body s' = Some v
  | Returned _ => promise s' = Pending /\ body s' = None /\ uncaught s' = []
  | Thrown e => promise s' = Pending /\ body s' = None /\ uncaught s' = [e]
  end.
Proof.
  intros Hasync Hstatus Hst s'.
  assert (Hs' : s' = act rq (Emit EvEnd)
                       (run rq (Emit (EvResponse r)
                                  :: map (fun c => Emit (EvData c)) chunks) init)).
  { unfold s'. rewrite app_comm_cons, run_app. reflexivity. }
  rewrite (streaming_state r chunks st Hstatus Hst), Hasync in Hs'.
  rewrite Hs'. clear Hs' s'.
  destruct (feed (primed K) chunks) as [status cs rs]. cbn in Hst. subst status.
  unfold act, flush, handle, on_end. cbn. rewrite Hasync. cbn.
  unfold gen_next, call. cbn.
  destruct (gresume K st (Next None)) as [v st1|v|e]; cbn.
  - unfold finalize, gen_return, call. cbn.
    destruct (gresume K st1 Return); cbn; split; reflexivity.
  - repeat split.
  - repeat split.
Qed.

(** X12: in eager mode the abort fault stays inside the consumer: after a
    server abort the 'end' handler throws it into the consumer, and whether
    the consumer yields, returns or lets the fault through, the promise
    remains resolved with the response and [response.body] is never set; a
    fault that leaves the consumer is swallowed and nothing escapes the
    handler. *)
Theorem eager_abort_is_swallowed (r : Response) (chunks : list Buffer)
  (st : gstate K) :
  async rq = true -> (statusCode r < 400)%Z ->
  gstatus (feed (primed K) chunks) = SuspendedYield st ->
  let s' : State K :=
    run rq (Emit (EvResponse r) :: map (fun c => Emit (EvData c)) chunks
              ++ [Emit EvAborted; Emit EvEnd]) init in
  promise s' = Resolved r
  /\ body s' = None
  /\ option_map received (gen s')
     = Some (received (feed (primed K) chunks)
               ++ Throw RequestAborted
               :: match gresume K st (Throw RequestAborted) with
                  | Yielded _ _ => [Return]
                  | _ => []
                  end)
  /\ match gresume K st (Throw RequestAborted) with
     | Yielded _ _ => True
     | _ => uncaught s' = []
     end.
Proof.
  intros Hasync Hstatus Hst s'.
  assert (Hs' : s' = run rq [Emit EvAborted; Emit EvEnd]
                       (run rq (Emit (EvResponse r)
                                  :: map (fun c => Emit (EvData c)) chunks) init)).
  { unfold s'. rewrite app_comm_cons, run_app. reflexivity. }
  rewrite (streaming_state r chunks st Hstatus Hst), Hasync in Hs'.
  rewrite Hs'. clear Hs' s'.
  destruct (feed (primed K) chunks) as [status cs rs]. cbn in Hst. subst status.
  unfold run, act, flush, handle, on_aborted, on_end. cbn. rewrite Hasync. cbn.
  unfold gen_throw, call. cbn.
  destruct (gresume K st (Throw RequestAborted)) as [v st1|v|e]; cbn.
  - unfold finalize, gen_return, call. cbn.
    destruct (gresume K st1 Return); cbn; repeat split;
      rewrite <- app_assoc; reflexivity.
  - repeat split.
  - repeat split.
Qed.

(** *** The gates *)

Lemma failed_requests_stay (later : list Action) (s : State K) :
  quiet s -> gen s = None -> wsgen s = None ->
  forallb (fun a => on_the_response a || on_the_socket a) later = true ->
  run rq later s = s.
Proof.
  intros Hq Hg Hw. revert later.
  assert (Hstep : forall a, on_the_response a || on_the_socket a = true ->
                            act rq a s = s).
  { intros a Ha.
    destruct a as [ev|]; [|discriminate Ha].
    destruct ev; try discriminate Ha;
      rewrite act_emit by (exact I || exact Hq); cbn [handle];
      unfold on_aborted, on_data, on_end, on_socket_data, on_socket_end;
      rewrite ?Hg, ?Hw; reflexivity. }
  induction later as [|a later IH]; intros Hl; [reflexivity|].
  cbn [forallb] in Hl. apply andb_prop in Hl as [Ha Hl].
  cbn [run fold_left]. rewrite (Hstep a Ha). apply IH. exact Hl.
Qed.

(** X13: a streaming response with a status of 400 or more never gets a
    consumer: the generator function is not called, the response is
    destroyed with the error that carries it, the promise is rejected with
    that error, and the 'data', 'aborted' and 'end' events of that response
    find no handler - they leave the request as it is. *)
Theorem stream_status_gate (r : Response) (later : list Action) :
  (400 <= statusCode r)%Z ->
  forallb (fun a => on_the_response a || on_the_socket a) later = true ->
  let s1 : State K := act rq (Emit (EvResponse r)) init in
  promise s1 = Rejected (RequestFailed (path rq) r)
  /\ rejection_status (promise s1) = Some (statusCode r)
  /\ gen s1 = None
  /\ uncaught s1 = []
  /\ res_destroyed (transport s1) = true
  /\ run rq later s1 = s1.
Proof.
  intros Hstatus Hlater s1.
  assert (Hs1 : s1 = mkState false false (Rejected (RequestFailed (path rq) r))
                       None None None None (mkTransport false true false []) []).
  { unfold s1, act, flush, handle, on_response.
    rewrite (proj2 (Z.geb_le _ _) Hstatus). cbn.
    unfold on_error. destruct (source rq); reflexivity. }
  rewrite Hs1. repeat split.
  apply failed_requests_stay; reflexivity || exact Hlater.
Qed.


(** *** Upgraded connections *)

(** X15: on a connection upgraded with status 101, a socket block that holds
    a whole frame is decoded and its payload handed to the consumer; when the
    consumer returns [v] on it, the socket is ended, [v] is stored in
    [response.body] and the promise is resolved with the response, in either
    delivery mode. *)
Theorem upgraded_frame_finishes_request (r : Response) (block : Buffer)
  (fin op len : Z) (p : Buffer) (v0 v : jsval) (st : gstate K) :
  source rq = HttpThen -> statusCode r = 101%Z ->
  gstart K = Yielded v0 st ->
  wf_buffer block ->
  FrameCodec.decodeFrame block = inr (FrameCodec.DataFrame fin op len p) ->
  (len <= Z.of_nat (List.length p))%Z ->
  gresume K st (Next (Some (firstn (Z.to_nat len) p))) = Returned v ->
  let s : State K :=
    run rq [Emit (EvUpgrade r); Emit (EvSocketData block)] init in
  promise s = Resolved r
  /\ body s = Some v
  /\ socket_ended (transport s) = true
  /\ uncaught s = []
  /\ option_map gstatus (wsgen s) = Some Completed.
Proof.
  intros Hsrc Hstatus Hstart Hwf Hdec Hlen Hret s.
  assert (Harr : Reassembly.arrives_over len p [])
    by (split; [left; reflexivity | cbn [List.concat]; rewrite app_nil_r; exact Hlen]).
  set (g1 := mkGen (SuspendedYield st) [Next None] [Next None] : genobj K).
  set (d0 := Reassembly.mkDState Reassembly.fresh_locals g1).
  assert (Hblock : snd (Reassembly.on_block d0 block) = Reassembly.Finish v).
  { pose proof (ReassemblyFacts.feed_blocks_frame g1 Reassembly.fresh_locals
                  block [] fin op len p eq_refl Hwf Hdec Harr) as Hfeed.
    cbn [Reassembly.feed_blocks List.concat] in Hfeed.
    rewrite app_nil_r in Hfeed. fold d0 in Hfeed.
    apply (f_equal snd) in Hfeed.
    assert (Hhanded : snd (Reassembly.handed (Z.to_nat len)
                             (firstn (Z.to_nat len) p) g1)
                      = Reassembly.Finish v).
    { unfold Reassembly.handed, gen_next, call, g1. cbn [gstatus snd].
      unfold Buffer in *. rewrite Hret. reflexivity. }
    rewrite Hhanded in Hfeed.
    destruct (Reassembly.on_block d0 block) as [d' e']. cbn [snd].
    destruct e'; cbn [snd] in Hfeed; congruence. }
  unfold s, run, act, flush, handle, on_upgrade, on_socket_data.
  cbn [fold_left]. rewrite Hsrc, Hstatus.
  cbn -[Reassembly.on_block].
  unfold gen_next, call, create, ws_decoder. cbn -[Reassembly.on_block].
  unfold gen_next, call, create. cbn -[Reassembly.on_block].
  rewrite Hstart. cbn -[Reassembly.on_block].
  fold g1. fold d0.
  destruct (async rq); cbn -[Reassembly.on_block];
    destruct (Reassembly.on_block d0 block) as [d' e'];
    cbn [snd] in Hblock; subst e'; cbn; repeat split.
Qed.

End Driver.

Lemma eager_cancel_is_silent_witness :
  let rq := mkRequest HttpThen "/logs" true in
  let r := mkResponse 200 [] in
  let pre := [Emit (EvData [1]%Z)] in
  let post := [Emit EvAborted; Emit (EvError (TransportError "socket hang up"))] in
  let s : State Consumers.sink :=
    run rq (Emit (EvResponse r) :: pre ++ Cancel :: post) init in
  let s' := act rq (Emit EvEnd) s in
  terminal rq s = []
  /\ promise s' = Resolved r
  /\ exists g : genobj Consumers.sink,
       gen s' = Some g
       /\ calls g
          = Next None
            :: map (fun c => Next (Some c)) (chunks_of (pre ++ Cancel :: post))
            ++ [Return].
Proof.
  apply (@eager_cancel_is_silent Consumers.sink (mkRequest HttpThen "/logs" true)
           (mkResponse 200 []) [Emit (EvData [1]%Z)]
           [Emit EvAborted; Emit (EvError (TransportError "socket hang up"))]).
  - reflexivity.
  - simpl. lia.
  - reflexivity.
  - reflexivity.
  - reflexivity.
  - reflexivity.
Defined.

Lemma server_abort_reaches_consumer_witness :
  let rq := mkRequest Kubik "/logs" true in
  let r := mkResponse 200 [] in
  let pre := [Emit (EvData [1]%Z)] in
  let post := [Cancel; Emit (EvData [2]%Z)] in
  let s : State Consumers.sink :=
    run rq (Emit (EvResponse r) :: pre ++ Emit EvAborted :: post) init in
  let s' := act rq (Emit EvEnd) s in
  terminal rq s = [Throw RequestAborted]
  /\ exists g : genobj Consumers.sink,
       gen s' = Some g
       /\ calls g
          = Next None
            :: map (fun c => Next (Some c))
                 (chunks_of (pre ++ Emit EvAborted :: post))
            ++ [Throw RequestAborted; Return].
Proof.
  apply (@server_abort_reaches_consumer Consumers.sink
           (mkRequest Kubik "/logs" true) (mkResponse 200 [])
           [Emit (EvData [1]%Z)] [Cancel; Emit (EvData [2]%Z)]).
  - simpl. lia.
  - reflexivity.
  - reflexivity.
  - reflexivity.
  - reflexivity.
  - reflexivity.
Defined.

Lemma awaited_graceful_end_witness :
  let rq := mkRequest HttpThen "/logs" false in
  let s' : State Consumers.sink :=
    run rq (Emit (EvResponse (mkResponse 200 []))
              :: map (fun c => Emit (EvData c)) [[1]; [2]]%Z ++ [Emit EvEnd])
        init in
  promise s' = Pending /\ body s' = None /\ uncaught s' = [].
Proof.
  apply (@awaited_graceful_end Consumers.sink (mkRequest HttpThen "/logs" false)
           (mkResponse 200 []) [[1]; [2]]%Z 2).
  - reflexivity.
  - simpl. lia.
  - reflexivity.
Defined.

Lemma eager_abort_is_swallowed_witness :
  let rq := mkRequest HttpThen "/logs" true in
  let r := mkResponse 200 [] in
  let s' : State Consumers.sink :=
    run rq (Emit (EvResponse r) :: map (fun c => Emit (EvData c)) [[1]%Z]
              ++ [Emit EvAborted; Emit EvEnd]) init in
  promise s' = Resolved r
  /\ body s' = None
  /\ option_map received (gen s')
     = Some [Next None; Next (Some [1]%Z); Throw RequestAborted]
  /\ uncaught s' = [].
Proof.
  apply (@eager_abort_is_swallowed Consumers.sink
           (mkRequest HttpThen "/logs" true) (mkResponse 200 []) [[1]%Z] 1).
  - reflexivity.
  - simpl. lia.
  - reflexivity.
Defined.

Lemma stream_status_gate_witness :
  let rq := mkRequest HttpThen "/api/v1/pods" true in
  let r := mkResponse 403 [] in
  let later := [Emit (EvData [1]%Z); Emit EvAborted; Emit EvEnd] in
  let s1 : State Consumers.sink := act rq (Emit (EvResponse r)) init in
  promise s1 = Rejected (RequestFailed (path rq) r)
  /\ rejection_status (promise s1) = Some (statusCode r)
  /\ gen s1 = None
  /\ uncaught s1 = []
  /\ res_destroyed (transport s1) = true
  /\ run rq later s1 = s1.
Proof.
  apply (@stream_status_gate Consumers.sink
           (mkRequest HttpThen "/api/v1/pods" true) (mkResponse 403 [])
           [Emit (EvData [1]%Z); Emit EvAborted; Emit EvEnd]).
  - simpl. lia.
  - reflexivity.
Defined.


Lemma upgraded_frame_finishes_request_witness :
  let rq := mkRequest HttpThen "/exec" false in
  let r := mkResponse 101 [] in
  let s : State (Consumers.take 1 (VString "done")) :=
    run rq [Emit (EvUpgrade r); Emit (EvSocketData [130; 2; 1; 2]%Z)] init in
  promise s = Resolved r
  /\ body s = Some (VString "done")
  /\ socket_ended (transport s) = true
  /\ uncaught s = []
  /\ option_map gstatus (wsgen s) = Some Completed.
Proof.
  apply (@upgraded_frame_finishes_request (Consumers.take 1 (VString "done"))
           (mkRequest HttpThen "/exec" false) (mkResponse 101 [])
           [130; 2; 1; 2]%Z 128 2 2 [1; 2]%Z VUndefined (VString "done") 0).
  - reflexivity.
  - reflexivity.
  - reflexivity.
  - repeat constructor; unfold is_byte; lia.
  - reflexivity.
  - simpl. lia.
  - reflexivity.
Defined.

End StreamingMore.

(* ------------------------------------------------------------------ *)
(** ** The pod table *)

Module PodTableFacts.

Import PodTable.

Lemma findIndex_found (f : Pod -> bool) (l : list Pod) (n : nat) :
  findIndex f l = Some n ->
  exists before x after,
    l = before ++ x :: after /\ List.length before = n /\ f x = true
    /\ Forall (fun y => f y = false) before.
Proof.
  revert n. induction l as [|y l IH]; intros n; cbn [findIndex].
  - discriminate.
  - destruct (f y) eqn:Hy.
    + intros [= <-]. exists [], y, l. repeat split; auto.
    + destruct (findIndex f l) as [m|]; [|discriminate].
      intros [= <-].
      destruct (IH m eq_refl) as (before & x & after & -> & Hlen & Hx & Hbefore).
      exists (y :: before), x, after. cbn. repeat split; auto.
Qed.

Lemma findIndex_missing (f : Pod -> bool) (l : list Pod) :
  findIndex f l = None <-> Forall (fun y => f y = false) l.
Proof.
  induction l as [|y l IH]; cbn [findIndex].
  - split; auto.
  - destruct (f y) eqn:Hy.
    + split; [discriminate|]. intros H. inversion H; subst. congruence.
    + split.
      * intros H. constructor; [exact Hy|]. apply IH.
        destruct (findIndex f l); [discriminate | reflexivity].
      * intros H. inversion H; subst.
        rewrite (proj2 IH) by assumption. reflexivity.
Qed.

Lemma set_nth_middle (before after : list Pod) (x y : Pod) :
  set_nth (List.length before) x (before ++ y :: after) = before ++ x :: after.
Proof.
  induction before as [|z before IH]; cbn; [reflexivity|]. rewrite IH. reflexivity.
Qed.

Lemma remove_nth_middle (before after : list Pod) (y : Pod) :
  remove_nth (List.length before) (before ++ y :: after) = before ++ after.
Proof.
  induction before as [|z before IH]; cbn; [reflexivity|]. rewrite IH. reflexivity.
Qed.

(** What [index] finds, in terms of the [uid]s. *)
Lemma index_known (items : Items) (o : Pod) :
  In (uid o) (uids items) ->
  exists before pod after,
    elements items = before ++ pod :: after
    /\ uid pod = uid o
    /\ ~ In (uid o) (map uid before)
    /\ index items o = Some (List.length before).
Proof.
  unfold uids, index. intros Hin.
  destruct (findIndex (fun pod => String.eqb (uid pod) (uid o)) (elements items))
    as [n|] eqn:Hfind.
  - destruct (findIndex_found _ _ _ Hfind)
      as (before & pod & after & Hl & Hlen & Hpod & Hbefore).
    exists before, pod, after. subst n. repeat split; auto.
    + apply String.eqb_eq. exact Hpod.
    + intros Hb. apply in_map_iff in Hb as (z & Hz & Hzin).
      rewrite Forall_forall in Hbefore. specialize (Hbefore z Hzin).
      cbn in Hbefore. rewrite Hz, String.eqb_refl in Hbefore. discriminate.
  - exfalso. apply findIndex_missing in Hfind.
    apply in_map_iff in Hin as (z & Hz & Hzin).
    rewrite Forall_forall in Hfind. specialize (Hfind z Hzin).
    cbn in Hfind. rewrite Hz, String.eqb_refl in Hfind. discriminate.
Qed.

Lemma index_unknown (items : Items) (o : Pod) :
  ~ In (uid o) (uids items) -> index items o = None.
Proof.
  unfold uids, index. intros Hnin. apply findIndex_missing.
  apply Forall_forall. intros z Hz. cbn.
  apply String.eqb_neq. intros Heq. apply Hnin.
  rewrite <- Heq. apply in_map. exact Hz.
Qed.

(** A MODIFIED event keeps the [uid]s of the table. *)
Lemma modified_uids (items : Items) (o : Pod) :
  uids (dispatch items (mkChange "MODIFIED" o)) = uids items.
Proof.
  unfold dispatch. cbn [type object String.eqb Ascii.eqb Bool.eqb].
  destruct (in_dec string_dec (uid o) (uids items)) as [Hin|Hnin].
  - destruct (index_known items o Hin) as (before & pod & after & Hl & Hu & _ & Hi).
    rewrite Hi. unfold uids. cbn [assign elements].
    rewrite Hl, set_nth_middle, !map_app. cbn [map]. rewrite Hu. reflexivity.
  - rewrite (index_unknown items o Hnin). reflexivity.
Qed.

(** X16: a DELETED event for a pod whose [uid] is in the table removes the
    first pod with that [uid] and keeps the others in order; for a pod whose
    [uid] is not in the table it removes the last pod of the table, whatever
    its [uid] ([findIndex] gives [-1], and [splice(-1, 1)] counts from the
    end). *)
Theorem deleted_event (items : Items) (o : Pod) :
  let items' := dispatch items (mkChange "DELETED" o) in
  minus_one items' = minus_one items
  /\ (In (uid o) (uids items) ->
      exists before pod after,
        elements items = before ++ pod :: after
        /\ uid pod = uid o
        /\ ~ In (uid o) (map uid before)
        /\ elements items' = before ++ after)
  /\ (~ In (uid o) (uids items) ->
      elements items' = removelast (elements items)).
Proof.
  cbv zeta. unfold dispatch. cbn [type object String.eqb Ascii.eqb Bool.eqb].
  split; [destruct (index items o); reflexivity|]. split.
  - intros Hin.
    destruct (index_known items o Hin) as (before & pod & after & Hl & Hu & Hb & Hi).
    exists before, pod, after. repeat split; auto.
    rewrite Hi. cbn [splice elements]. rewrite Hl. apply remove_nth_middle.
  - intros Hnin. rewrite (index_unknown items o Hnin). reflexivity.
Qed.

(** X17: a MODIFIED event for a pod whose [uid] is in the table replaces the
    first pod with that [uid], in place; for a pod whose [uid] is not in the
    table it leaves every element alone (the object lands in the property
    ["-1"] of the array).  Either way the table keeps its [uid]s. *)
Theorem modified_event (items : Items) (o : Pod) :
  let items' := dispatch items (mkChange "MODIFIED" o) in
  uids items' = uids items
  /\ (In (uid o) (uids items) ->
      minus_one items' = minus_one items
      /\ exists before pod after,
           elements items = before ++ pod :: after
           /\ uid pod = uid o
           /\ ~ In (uid o) (map uid before)
           /\ elements items' = before ++ o :: after)
  /\ (~ In (uid o) (uids items) ->
      elements items' = elements items /\ minus_one items' = Some o).
Proof.
  cbv zeta. unfold dispatch. cbn [type object String.eqb Ascii.eqb Bool.eqb].
  assert (Hknown : In (uid o) (uids items) ->
            minus_one (assign items (index items o) o) = minus_one items
            /\ exists before pod after,
                 elements items = before ++ pod :: after
                 /\ uid pod = uid o
                 /\ ~ In (uid o) (map uid before)
                 /\ elements (assign items (index items o) o) = before ++ o :: after).
  { intros Hin.
    destruct (index_known items o Hin) as (before & pod & after & Hl & Hu & Hb & Hi).
    rewrite Hi. split; [reflexivity|].
    exists before, pod, after. repeat split; auto.
    cbn [assign elements]. rewrite Hl. apply set_nth_middle. }
  assert (Hunknown : ~ In (uid o) (uids items) ->
            elements (assign items (index items o) o) = elements items
            /\ minus_one (assign items (index items o) o) = Some o).
  { intros Hnin. rewrite (index_unknown items o Hnin). split; reflexivity. }
  split; [|split; assumption].
  exact (modified_uids items o).
Qed.

Lemma map_uid_removelast (l : list Pod) :
  map uid (removelast l) = removelast (map uid l).
Proof.
  induction l as [|x l IH]; [reflexivity|].
  destruct l as [|y l]; [reflexivity|].
  change (removelast (x :: y :: l)) with (x :: removelast (y :: l)).
  cbn [map]. rewrite IH. reflexivity.
Qed.

Lemma NoDup_removelast (l : list string) : NoDup l -> NoDup (removelast l).
Proof.
  induction 1 as [|x l Hx Hl IH]; [constructor|].
  destruct l as [|y l]; [constructor|].
  change (removelast (x :: y :: l)) with (x :: removelast (y :: l)).
  constructor; [|exact IH].
  intros Hin. apply Hx.
  clear -Hin. revert Hin. generalize (y :: l). intros l'.
  induction l' as [|z l' IH]; [contradiction|].
  destruct l' as [|z' l']; [contradiction|].
  change (removelast (z :: z' :: l')) with (z :: removelast (z' :: l')).
  intros [->|Hin]; [left; reflexivity | right; apply IH; exact Hin].
Qed.

(** X18: the [uid]s of the table stay pairwise distinct under every watch
    event, provided an ADDED event brings a [uid] that the table does not
    hold yet: no MODIFIED or DELETED event, known or unknown, can make a
    duplicate. *)
Theorem uids_stay_distinct (items : Items) (change : Change) :
  NoDup (uids items) ->
  (type change = "ADDED" -> ~ In (uid (object change)) (uids items)) ->
  NoDup (uids (dispatch items change)).
Proof.
  intros Hnd Hfresh. destruct change as [t o]. cbn [type object] in Hfresh.
  unfold dispatch. cbn [type object].
  destruct (String.eqb_spec t "ADDED") as [->|_].
  - unfold uids, push. cbn [elements]. rewrite map_app. cbn [map].
    apply NoDup_app; [exact Hnd | repeat constructor; intros [] |].
    intros x Hx [<-|[]]. apply (Hfresh eq_refl). exact Hx.
  - destruct (String.eqb_spec t "MODIFIED") as [->|_].
    + pose proof (modified_uids items o) as Hu. unfold dispatch in Hu.
      cbn [type object String.eqb Ascii.eqb Bool.eqb] in Hu.
      rewrite Hu. exact Hnd.
    + destruct (String.eqb_spec t "DELETED") as [->|_]; [|exact Hnd].
      destruct (in_dec string_dec (uid o) (uids items)) as [Hin|Hnin].
      * destruct (index_known items o Hin) as (before & pod & after & Hl & _ & _ & Hi).
        rewrite Hi. unfold uids, splice in *. cbn [elements].
        rewrite Hl, remove_nth_middle, map_app in *. cbn [map] in Hnd.
        apply NoDup_remove_1 in Hnd. exact Hnd.
      * rewrite (index_unknown items o Hnin). unfold uids, splice. cbn [elements].
        rewrite map_uid_removelast. apply NoDup_removelast. exact Hnd.
Qed.

Lemma uids_stay_distinct_witness :
  let web := mkPod "u1" "web" "Running" "2016-10-01T10:00:00Z" in
  let db := mkPod "u2" "db" "Pending" "2016-10-01T10:05:00Z" in
  let job := mkPod "u3" "job" "Pending" "2016-10-01T10:07:00Z" in
  NoDup (uids (dispatch (mkItems [web; db] None) (mkChange "ADDED" job))).
Proof.
  apply (uids_stay_distinct
           (mkItems [mkPod "u1" "web" "Running" "2016-10-01T10:00:00Z";
                     mkPod "u2" "db" "Pending" "2016-10-01T10:05:00Z"] None)
           (mkChange "ADDED" (mkPod "u3" "job" "Pending" "2016-10-01T10:07:00Z"))).
  - repeat constructor; simpl; intuition discriminate.
  - intros _. simpl. intuition discriminate.
Defined.

Lemma append_assoc (a b c : string) :
  ((a ++ b) ++ c = a ++ (b ++ c))%string.
Proof. induction a as [|x a IH]; cbn; [reflexivity | rewrite IH; reflexivity]. Qed.

Section Turns.

Variable utf8 : Buffer -> string.
Variable parse : string -> option Change.

Lemma turns_unparsed (chunks : list Buffer) (w : Watch) :
  unparsed utf8 parse (buffer w) chunks = true ->
  turns utf8 parse w chunks
  = mkWatch (pile utf8 (buffer w) chunks) (pods w) (redraws w).
Proof.
  revert w. induction chunks as [|c chunks IH]; intros w; cbn [unparsed].
  - intros _. destruct w; reflexivity.
  - destruct (parse (buffer w ++ utf8 c)) eqn:Hparse; [discriminate|].
    intros Hrest. unfold turns, pile. cbn [fold_left].
    unfold turn at 2. rewrite Hparse.
    apply (IH (mkWatch (buffer w ++ utf8 c) (pods w) (redraws w))). exact Hrest.
Qed.

Lemma pile_last (start : string) (chunks : list Buffer) (c : Buffer) :
  pile utf8 start (chunks ++ [c]) = (pile utf8 start chunks ++ utf8 c)%string.
Proof. unfold pile. rewrite fold_left_app. reflexivity. Qed.

(** X19: a watch event that arrives split over several chunks is put
    together again: while the text piled up so far does not parse, the chunks
    only grow the buffer (the table is neither changed nor redrawn); with the
    chunk that makes the text parse, the event is dispatched once, the table
    is redrawn once and the buffer starts again empty. *)
Theorem event_split_over_chunks
    (w : Watch) (pre : list Buffer) (last : Buffer) (change : Change) :
  unparsed utf8 parse (buffer w) pre = true ->
  parse (pile utf8 (buffer w) (pre ++ [last])) = Some change ->
  turns utf8 parse w pre
  = mkWatch (pile utf8 (buffer w) pre) (pods w) (redraws w)
  /\ turns utf8 parse w (pre ++ [last])
     = mkWatch "" (dispatch (pods w) change) (S (redraws w)).
Proof.
  intros Hpre Hlast. pose proof (turns_unparsed pre w Hpre) as Hturns.
  split; [exact Hturns|].
  unfold turns in *. rewrite fold_left_app, Hturns. cbn [fold_left].
  unfold turn. cbn [buffer pods redraws].
  rewrite pile_last in Hlast. rewrite Hlast. reflexivity.
Qed.

(** X20: the buffer is only ever emptied by a text that parses.  So once it
    holds a text that no continuation makes parse (two events that came in
    one chunk, say), no later chunk changes the table or redraws it: every
    chunk is appended to the buffer, for good. *)
Theorem stuck_buffer_stalls_the_table (w : Watch) (chunks : list Buffer) :
  (forall rest : string, parse (buffer w ++ rest)%string = None) ->
  turns utf8 parse w chunks
  = mkWatch (pile utf8 (buffer w) chunks) (pods w) (redraws w).
Proof.
  intros Hstuck. apply turns_unparsed.
  revert w Hstuck. induction chunks as [|c chunks IH]; intros w Hstuck;
    cbn [unparsed]; [reflexivity|].
  rewrite Hstuck.
  apply (IH (mkWatch (buffer w ++ utf8 c) (pods w) (redraws w))).
  intros rest. cbn [buffer]. rewrite append_assoc. apply Hstuck.
Qed.

End Turns.

Lemma event_split_over_chunks_witness :
  let utf8 := fun b : Buffer =>
    string_of_list_ascii (map (fun z => Ascii.ascii_of_nat (Z.to_nat z)) b) in
  let job := mkPod "u3" "job" "Pending" "2016-10-01T10:07:00Z" in
  let parse := fun s : string =>
    if String.eqb s "{}" then Some (mkChange "ADDED" job) else None in
  let w := mkWatch "" (mkItems [] None) 0 in
  turns utf8 parse w [[123]%Z] = mkWatch "{" (mkItems [] None) 0
  /\ turns utf8 parse w ([[123]%Z] ++ [[125]%Z])
     = mkWatch "" (mkItems [job] None) 1.
Proof.
  apply (event_split_over_chunks
           (fun b : Buffer =>
              string_of_list_ascii (map (fun z => Ascii.ascii_of_nat (Z.to_nat z)) b))
           (fun s : string =>
              if String.eqb s "{}"
              then Some (mkChange "ADDED"
                           (mkPod "u3" "job" "Pending" "2016-10-01T10:07:00Z"))
              else None)
           (mkWatch "" (mkItems [] None) 0) [[123]%Z] [125]%Z
           (mkChange "ADDED" (mkPod "u3" "job" "Pending" "2016-10-01T10:07:00Z")));
    reflexivity.
Defined.

Lemma stuck_buffer_stalls_the_table_witness :
  let utf8 := fun b : Buffer =>
    string_of_list_ascii (map (fun z => Ascii.ascii_of_nat (Z.to_nat z)) b) in
  let job := mkPod "u3" "job" "Pending" "2016-10-01T10:07:00Z" in
  let parse := fun s : string =>
    if String.eqb (substring 0 1 s) "}" then None
    else if String.eqb s "{}" then Some (mkChange "ADDED" job) else None in
  let w := mkWatch "}" (mkItems [] None) 0 in
  turns utf8 parse w [[123]%Z; [125]%Z] = mkWatch "}{}" (mkItems [] None) 0.
Proof.
  apply (stuck_buffer_stalls_the_table
           (fun b : Buffer =>
              string_of_list_ascii (map (fun z => Ascii.ascii_of_nat (Z.to_nat z)) b))
           (fun s : string =>
              if String.eqb (substring 0 1 s) "}" then None
              else if String.eqb s "{}"
              then Some (mkChange "ADDED"
                           (mkPod "u3" "job" "Pending" "2016-10-01T10:07:00Z"))
              else None)
           (mkWatch "}" (mkItems [] None) 0) [[123]%Z; [125]%Z]).
  intros rest. simpl. destruct rest; reflexivity.
Defined.

End PodTableFacts.

(* ------------------------------------------------------------------ *)
(** ** The client configuration *)

Module KubeConfigFacts.

Import KubeConfig.
Import Ascii.

Lemma span_splits (p : ascii -> bool) (s a b : string) :
  span p s = (a, b) ->
  s = (a ++ b)%string /\ all p a = true
  /\ match b with EmptyString => True | String c _ => p c = false end.
Proof.
  revert a b. induction s as [|c s IH]; intros a b; cbn [span].
  - intros [= <- <-]. repeat split.
  - destruct (p c) eqn:Hc.
    + destruct (span p s) as [a' b'] eqn:Hspan. intros [= <- <-].
      destruct (IH a' b' eq_refl) as (-> & Ha & Hb).
      cbn [all append]. rewrite Hc, Ha. repeat split. exact Hb.
    + intros [= <- <-]. repeat split. exact Hc.
Qed.

Lemma span_longest (p : ascii -> bool) (a b : string) :
  all p a = true ->
  match b with EmptyString => True | String c _ => p c = false end ->
  span p (a ++ b) = (a, b).
Proof.
  intros Ha Hb. induction a as [|c a IH]; cbn [append span all] in *.
  - destruct b as [|c b]; [reflexivity|]. cbn [span]. rewrite Hb. reflexivity.
  - apply andb_true_iff in Ha as [Hc Ha]. rewrite Hc, (IH Ha). reflexivity.
Qed.

Lemma append_empty (s : string) : (s ++ "")%string = s.
Proof. induction s as [|c s IH]; cbn; [reflexivity | rewrite IH; reflexivity]. Qed.

Lemma append_shift (a b c : string) :
  ((a ++ b) ++ c = a ++ (b ++ c))%string.
Proof. induction a as [|x a IH]; cbn; [reflexivity | rewrite IH; reflexivity]. Qed.

(** [exec] gives exactly the readings of the pattern. *)
Lemma exec_reads (s protocol hostname port : string) :
  exec s = Some (protocol, hostname, port) <-> reads_as s protocol hostname port.
Proof.
  split.
  - unfold exec.
    destruct (span is_word s) as [w after_w] eqn:Hw.
    destruct w as [|w0 w]; [discriminate|].
    destruct after_w as [|c1 after_w]; [discriminate|].
    destruct (ascii_dec c1 ":") as [->|Hc1];
      [|destruct c1 as [[] [] [] [] [] [] [] []]; try discriminate;
        contradiction Hc1; reflexivity].
    destruct after_w as [|c2 after_w]; [discriminate|].
    destruct (ascii_dec c2 "/") as [->|Hc2];
      [|destruct c2 as [[] [] [] [] [] [] [] []]; try discriminate;
        contradiction Hc2; reflexivity].
    destruct after_w as [|c3 after_w]; [discriminate|].
    destruct (ascii_dec c3 "/") as [->|Hc3];
      [|destruct c3 as [[] [] [] [] [] [] [] []]; try discriminate;
        contradiction Hc3; reflexivity].
    cbv iota beta.
    destruct (span not_colon after_w) as [h after_h] eqn:Hh.
    destruct h as [|h0 h]; [discriminate|].
    destruct after_h as [|c4 after_h]; [discriminate|].
    destruct (ascii_dec c4 ":") as [->|Hc4];
      [|destruct c4 as [[] [] [] [] [] [] [] []]; try discriminate;
        contradiction Hc4; reflexivity].
    cbv iota beta.
    destruct (span is_digit after_h) as [d after_d] eqn:Hd.
    destruct after_d; [|discriminate].
    intros [= <- <- <-].
    apply span_splits in Hw as (Hs & Hallw & _).
    apply span_splits in Hh as (Hs' & Hallh & _).
    apply span_splits in Hd as (Hs'' & Halld & _).
    rewrite append_empty in Hs''. subst after_h after_w s.
    repeat split; try discriminate; auto.
    + exists (String w0 w). repeat split; [discriminate | exact Hallw].
    + cbn [append]. f_equal. rewrite append_shift. reflexivity.
  - intros ((w & -> & Hne & Hallw) & Hhne & Hallh & Halld & ->).
    unfold exec. rewrite append_shift.
    rewrite (span_longest is_word w _ Hallw) by reflexivity.
    destruct w as [|w0 w]; [contradiction Hne; reflexivity|].
    cbn [append]. cbv iota beta.
    rewrite (span_longest not_colon hostname _ Hallh) by reflexivity.
    destruct hostname as [|h0 h]; [contradiction Hhne; reflexivity|].
    cbv iota beta.
    rewrite <- (append_empty port) at 1.
    rewrite (span_longest is_digit port "" Halld) by exact I.
    reflexivity.
Qed.

Section Files.

Variable readFileSync : string -> option Buffer.

Lemma getMasterApi_exec (kube_config : Config) (api : MasterApi) :
  getMasterApi readFileSync kube_config = inr api ->
  exec (server (cluster kube_config))
  = Some (protocol api, hostname api, port api).
Proof.
  unfold getMasterApi.
  destruct (exec (server (cluster kube_config))) as [[[p h] d]|]; [|discriminate].
  destruct (read_if_set readFileSync (client_certificate (user kube_config)));
    [discriminate|].
  destruct (read_if_set readFileSync (client_key (user kube_config)));
    [discriminate|].
  destruct (read_if_set readFileSync (certificate_authority (cluster kube_config)));
    [discriminate|].
  intros [= <-]. reflexivity.
Qed.

Lemma getMasterApi_null (kube_config : Config) :
  getMasterApi readFileSync kube_config
  = inl (Thrown (TypeError "null is not iterable"))
  <-> exec (server (cluster kube_config)) = None.
Proof.
  unfold getMasterApi.
  destruct (exec (server (cluster kube_config))) as [[[p h] d]|];
    [|split; reflexivity].
  split; [|discriminate].
  destruct (read_if_set readFileSync (client_certificate (user kube_config)))
    as [e|?] eqn:H1.
  { unfold read_if_set in H1.
    destruct (client_certificate (user kube_config)); [|discriminate].
    destruct (truthy _); [|discriminate].
    destruct (readFileSync _); [discriminate|]. injection H1 as <-. discriminate. }
  destruct (read_if_set readFileSync (client_key (user kube_config)))
    as [e|?] eqn:H2.
  { unfold read_if_set in H2.
    destruct (client_key (user kube_config)); [|discriminate].
    destruct (truthy _); [|discriminate].
    destruct (readFileSync _); [discriminate|]. injection H2 as <-. discriminate. }
  destruct (read_if_set readFileSync (certificate_authority (cluster kube_config)))
    as [e|?] eqn:H3.
  { unfold read_if_set in H3.
    destruct (certificate_authority (cluster kube_config)); [|discriminate].
    destruct (truthy _); [|discriminate].
    destruct (readFileSync _); [discriminate|]. injection H3 as <-. discriminate. }
  discriminate.
Qed.

(** X21: when [getMasterApi] returns, the protocol, host name and port of
    the options are the three parts of the server URL of the cluster:
    [protocol] is a non-empty word with its colon, [hostname] is non-empty
    and holds no colon, [port] holds only digits, and [protocol], two
    slashes, [hostname], a colon and [port] spell the URL again. *)
Theorem getMasterApi_splits_server (kube_config : Config) (api : MasterApi) :
  getMasterApi readFileSync kube_config = inr api ->
  reads_as (server (cluster kube_config))
    (protocol api) (hostname api) (port api).
Proof.
  intros Hapi. apply exec_reads. apply getMasterApi_exec. exact Hapi.
Qed.

(** X22: [getMasterApi] throws a TypeError (the pattern gives [null], which
    cannot be destructured) exactly when the server URL of the cluster has no
    reading as protocol, two slashes, host name, colon and port; no file is
    read before. *)
Theorem getMasterApi_rejects_other_urls (kube_config : Config) :
  getMasterApi readFileSync kube_config
  = inl (Thrown (TypeError "null is not iterable"))
  <-> (forall protocol hostname port,
         ~ reads_as (server (cluster kube_config)) protocol hostname port).
Proof.
  rewrite getMasterApi_null. split.
  - intros Hnone p h d Hreads. apply exec_reads in Hreads. congruence.
  - intros Hno.
    destruct (exec (server (cluster kube_config))) as [[[p h] d]|] eqn:Hexec;
      [|reflexivity].
    exfalso. apply (Hno p h d). apply exec_reads. exact Hexec.
Qed.

(** X23: a server URL without a port part - a word, a colon, two slashes and
    a rest that holds no colon, as in [https://host] or [https://host/] -
    makes [getMasterApi] throw that TypeError. *)
Theorem getMasterApi_needs_port (kube_config : Config) (w rest : string) :
  all is_word w = true ->
  all not_colon rest = true ->
  server (cluster kube_config) = (w ++ "://" ++ rest)%string ->
  getMasterApi readFileSync kube_config
  = inl (Thrown (TypeError "null is not iterable")).
Proof.
  intros Hw Hrest Hserver. apply getMasterApi_null.
  rewrite Hserver. unfold exec.
  rewrite (span_longest is_word w _ Hw) by reflexivity.
  destruct w as [|w0 w]; [reflexivity|].
  cbn [append]. cbv iota beta.
  rewrite <- (append_empty rest).
  rewrite (span_longest not_colon rest "" Hrest) by exact I.
  destruct rest; reflexivity.
Qed.

End Files.

Lemma getMasterApi_splits_server_witness :
  reads_as "https://192.168.99.100:8443" "https:" "192.168.99.100" "8443".
Proof.
  apply (getMasterApi_splits_server (fun _ => None)
           (mkConfig (mkCluster "https://192.168.99.100:8443" true None)
                     (mkContext "minikube" "admin" None)
                     (mkUser None None (Some "secret")))
           (mkMasterApi "https:" "192.168.99.100" "8443"
              [("Accept", "application/json, text/plain, */*");
               ("Authorization", "Bearer secret")]
              (Some true) None None None)).
  reflexivity.
Defined.

Lemma getMasterApi_needs_port_witness :
  getMasterApi (fun _ => None)
    (mkConfig (mkCluster "https://kubernetes.default/" false None)
              (mkContext "in-cluster" "admin" None)
              (mkUser None None None))
  = inl (Thrown (TypeError "null is not iterable")).
Proof.
  apply (getMasterApi_needs_port (fun _ => None)
           (mkConfig (mkCluster "https://kubernetes.default/" false None)
                     (mkContext "in-cluster" "admin" None)
                     (mkUser None None None))
           "https" "kubernetes.default/"); reflexivity.
Defined.

Lemma find_field_found {A : Type} (field : string) (f : Named A -> bool)
    (l : list (Named A)) (x : Named A) :
  find_field field f l = inr x -> In x l /\ f x = true.
Proof.
  unfold find_field. destruct (find f l) as [y|] eqn:Hfind; [|discriminate].
  intros [= <-]. apply (find_some _ _ Hfind).
Qed.

Lemma find_field_missing {A : Type} (field : string) (f : Named A -> bool)
    (l : list (Named A)) :
  (forall x, In x l -> f x = false) ->
  find_field field f l
  = inl (TypeError ("Cannot read property '" ++ field ++ "' of undefined")).
Proof.
  intros Hnone. unfold find_field.
  destruct (find f l) as [y|] eqn:Hfind; [|reflexivity].
  destruct (find_some _ _ Hfind) as [Hin Hy]. rewrite (Hnone y Hin) in Hy.
  discriminate.
Qed.

Lemma named_eta {A : Type} (x : Named A) : mkNamed (name x) (item x) = x.
Proof. destruct x; reflexivity. Qed.

(** X24: what [getKubeConfig] returns is made of entries of the file that
    belong together.  The user is the one named by the context.  With a
    master URL, the cluster is one whose server is that URL and the context
    is one whose [cluster] is the name of that cluster; without one, the
    context is the one named by [current-context], and the cluster is one
    whose server URL is equal to the [cluster] field of that context. *)
Theorem getKubeConfig_lookups (kube : Kube) (master : option string)
    (config : Config) :
  getKubeConfig kube master = inr config ->
  In (mkNamed (context_user (context config)) (user config)) (users kube)
  /\ (if truthy master
      then master = Some (server (cluster config))
           /\ In (mkNamed (context_cluster (context config)) (cluster config))
                 (clusters kube)
           /\ (exists n, In (mkNamed n (context config)) (contexts kube))
      else (exists n, current_context kube = Some n
                      /\ In (mkNamed n (context config)) (contexts kube))
           /\ (exists n, In (mkNamed n (cluster config)) (clusters kube))
           /\ server (cluster config) = context_cluster (context config)).
Proof.
  unfold getKubeConfig. destruct (truthy master) eqn:Hmaster; cbn [negb].
  - destruct (find _ (clusters kube)) as [cl|] eqn:Hcl; [|discriminate].
    destruct (find_field "context" _ (contexts kube)) as [e|ctx] eqn:Hctx;
      [discriminate|].
    destruct (find_field "user" _ (users kube)) as [e|u] eqn:Hu; [discriminate|].
    intros [= <-]. cbn [cluster context user].
    apply find_field_found in Hctx as [Hctx_in Hctx_eq].
    apply find_field_found in Hu as [Hu_in Hu_eq].
    apply find_some in Hcl as [Hcl_in Hcl_eq].
    apply String.eqb_eq in Hctx_eq, Hu_eq.
    unfold same in Hcl_eq. destruct master as [m|]; [|discriminate].
    apply String.eqb_eq in Hcl_eq.
    rewrite <- Hu_eq, Hctx_eq, !named_eta, Hcl_eq.
    repeat split; auto. exists (name ctx). rewrite named_eta. exact Hctx_in.
  - destruct (find_field "context" _ (contexts kube)) as [e|ctx] eqn:Hctx;
      [discriminate|].
    destruct (find_field "cluster" _ (clusters kube)) as [e|cl] eqn:Hcl;
      [discriminate|].
    destruct (find_field "user" _ (users kube)) as [e|u] eqn:Hu; [discriminate|].
    intros [= <-]. cbn [cluster context user].
    apply find_field_found in Hctx as [Hctx_in Hctx_eq].
    apply find_field_found in Hcl as [Hcl_in Hcl_eq].
    apply find_field_found in Hu as [Hu_in Hu_eq].
    apply String.eqb_eq in Hcl_eq, Hu_eq.
    unfold same in Hctx_eq.
    destruct (current_context kube) as [current|]; [|discriminate].
    apply String.eqb_eq in Hctx_eq.
    rewrite <- Hu_eq, named_eta. repeat split; auto.
    + exists current. split; [reflexivity|]. rewrite <- Hctx_eq, named_eta.
      exact Hctx_in.
    + exists (name cl). rewrite named_eta. exact Hcl_in.
Qed.

(** X25: without a master URL, [getKubeConfig] looks the cluster up by
    comparing the server URL of each cluster with the [cluster] field of the
    current context.  So in a file where no cluster has a server URL equal to
    the [cluster] field of a context, it throws a TypeError, whatever the
    current context. *)
Theorem getKubeConfig_default_context (kube : Kube) (master : option string) :
  truthy master = false ->
  (forall cl ctx, In cl (clusters kube) -> In ctx (contexts kube) ->
     String.eqb (server (item cl)) (context_cluster (item ctx)) = false) ->
  exists field,
    getKubeConfig kube master
    = inl (TypeError ("Cannot read property '" ++ field ++ "' of undefined")).
Proof.
  intros Hmaster Hnames. unfold getKubeConfig. rewrite Hmaster. cbn [negb].
  destruct (find_field "context" _ (contexts kube)) as [e|ctx] eqn:Hctx.
  - unfold find_field in Hctx. destruct (find _ (contexts kube)); [discriminate|].
    injection Hctx as <-. exists "context". reflexivity.
  - apply find_field_found in Hctx as [Hctx_in _].
    rewrite (find_field_missing "cluster").
    + exists "cluster". reflexivity.
    + intros cl Hcl. apply (Hnames cl ctx Hcl Hctx_in).
Qed.

Lemma getKubeConfig_lookups_witness :
  let admin := mkUser None None (Some "secret") in
  let local := mkCluster "https://192.168.99.100:8443" true None in
  let dev := mkContext "minikube" "admin" (Some "dev") in
  let kube := mkKube (Some "dev") [mkNamed "dev" dev]
                [mkNamed "minikube" local] [mkNamed "admin" admin] in
  In (mkNamed "admin" admin) (users kube)
  /\ Some "https://192.168.99.100:8443" = Some "https://192.168.99.100:8443"
  /\ In (mkNamed "minikube" local) (clusters kube)
  /\ (exists n, In (mkNamed n dev) (contexts kube)).
Proof.
  apply (getKubeConfig_lookups
           (mkKube (Some "dev")
              [mkNamed "dev" (mkContext "minikube" "admin" (Some "dev"))]
              [mkNamed "minikube" (mkCluster "https://192.168.99.100:8443" true None)]
              [mkNamed "admin" (mkUser None None (Some "secret"))])
           (Some "https://192.168.99.100:8443")
           (mkConfig (mkCluster "https://192.168.99.100:8443" true None)
                     (mkContext "minikube" "admin" (Some "dev"))
                     (mkUser None None (Some "secret")))).
  reflexivity.
Defined.

Lemma getKubeConfig_default_context_witness :
  exists field,
    getKubeConfig
      (mkKube (Some "dev")
         [mkNamed "dev" (mkContext "minikube" "admin" (Some "dev"))]
         [mkNamed "minikube" (mkCluster "https://192.168.99.100:8443" true None)]
         [mkNamed "admin" (mkUser None None (Some "secret"))])
      None
    = inl (TypeError ("Cannot read property '" ++ field ++ "' of undefined")).
Proof.
  apply (getKubeConfig_default_context
           (mkKube (Some "dev")
              [mkNamed "dev" (mkContext "minikube" "admin" (Some "dev"))]
              [mkNamed "minikube" (mkCluster "https://192.168.99.100:8443" true None)]
              [mkNamed "admin" (mkUser None None (Some "secret"))])
           None).
  - reflexivity.
  - simpl. intros cl ctx [<-|[]] [<-|[]]. reflexivity.
Defined.

End KubeConfigFacts.
